(** * Copper clearance DRC test provider

    A shallow embedding of [pcbnew/drc/drc_test_provider_copper_clearance.cpp]
    (class [DRC_TEST_PROVIDER_COPPER_CLEARANCE]) and the properties of its
    pairwise tests, its checked-pair memos and its zone-to-zone sweep.

    The provider is stateful: it reports violations to the engine, polls the
    engine for cancellation and error limits, and keeps per-phase memo maps.
    The embedding threads the list of everything the provider has done so far
    (the trace of [EVENT]s) through a small state monad; the memo maps are
    [gmap]s passed explicitly, as the C++ lambdas capture them by reference.

    Geometry (shapes, collision tests, the R-trees, the segment distance) and
    the rule evaluator live outside this translation unit: they are fields of
    the [BOARD] and [DRC_ENGINE] records, and every definition below is
    parametric in them. *)

From Stdlib Require Import ZArith NArith List Bool Lia Sorted.
From stdpp Require Import gmap strings list.

Local Open Scope Z_scope.

(** ** Layers and layer sets *)

Module Layers.

(** [PCB_LAYER_ID]: copper layers are F_Cu = 0 .. B_Cu = 31. *)
Definition PCB_LAYER_ID := N.

Definition F_Cu : PCB_LAYER_ID := 0%N.
Definition B_Cu : PCB_LAYER_ID := 31%N.
Definition PCB_LAYER_ID_COUNT : nat := 64.

(** [LSET] is a [std::bitset]; bit [l] is layer [l]. *)
Definition LSET := N.

Definition LSET_empty : LSET := 0%N.
Definition LSET_test (s : LSET) (l : PCB_LAYER_ID) : bool := N.testbit s l.
Definition LSET_set (s : LSET) (l : PCB_LAYER_ID) : LSET := N.setbit s l.
Definition LSET_and (s t : LSET) : LSET := N.land s t.

(** [LSET( aLayer )]. *)
Definition LSET_of (l : PCB_LAYER_ID) : LSET := LSET_set LSET_empty l.

(** [LSET::Seq()]: the layers of the set, in increasing order. *)
Definition LSET_Seq (s : LSET) : list PCB_LAYER_ID :=
  List.filter (LSET_test s) (List.map N.of_nat (List.seq 0 PCB_LAYER_ID_COUNT)).

(** [IsCopperLayer( aLayerId )]: [aLayerId >= F_Cu && aLayerId <= B_Cu]. *)
Definition IsCopperLayer (l : PCB_LAYER_ID) : bool := (l <=? B_Cu)%N.

(** The layers [F_Cu .. B_Cu] walked by the zone-to-zone tester. *)
Definition copper_layer_ids : list PCB_LAYER_ID :=
  List.map N.of_nat (List.seq 0 32).

End Layers.
Export Layers.

Arguments LSET_test : simpl never.
Arguments LSET_set : simpl never.
Arguments LSET_Seq : simpl never.

(** ** Geometry carried by the items *)

Record VECTOR2I := { vx : Z; vy : Z }.

Record SEG := { seg_A : VECTOR2I; seg_B : VECTOR2I }.

(** [SEG::Reverse]. *)
Definition SEG_Reverse (s : SEG) : SEG := {| seg_A := seg_B s; seg_B := seg_A s |}.

Record BOX2I := { box_x : Z; box_y : Z; box_w : Z; box_h : Z }.

(** ** Board items *)

Inductive KICAD_T :=
| PCB_TRACE_T | PCB_ARC_T | PCB_VIA_T | PCB_PAD_T
| PCB_SHAPE_T | PCB_FP_SHAPE_T | PCB_TEXT_T | PCB_FP_TEXT_T
| PCB_BITMAP_T | PCB_ZONE_T | PCB_DIMENSION_T.

Inductive PAD_ATTRIB := PTH | SMD | CONN | NPTH.

Definition KICAD_T_eqb (a b : KICAD_T) : bool :=
  match a, b with
  | PCB_TRACE_T, PCB_TRACE_T | PCB_ARC_T, PCB_ARC_T | PCB_VIA_T, PCB_VIA_T
  | PCB_PAD_T, PCB_PAD_T | PCB_SHAPE_T, PCB_SHAPE_T
  | PCB_FP_SHAPE_T, PCB_FP_SHAPE_T | PCB_TEXT_T, PCB_TEXT_T
  | PCB_FP_TEXT_T, PCB_FP_TEXT_T | PCB_BITMAP_T, PCB_BITMAP_T
  | PCB_ZONE_T, PCB_ZONE_T | PCB_DIMENSION_T, PCB_DIMENSION_T => true
  | _, _ => false
  end.

Definition PAD_ATTRIB_eqb (a b : PAD_ATTRIB) : bool :=
  match a, b with
  | PTH, PTH | SMD, SMD | CONN, CONN | NPTH, NPTH => true
  | _, _ => false
  end.

(** The class hierarchy seen through [dynamic_cast]: [PCB_TRACK] is the base
    of traces, arcs and vias; [BOARD_CONNECTED_ITEM] is the base of tracks,
    pads and zones. *)
Definition is_PCB_TRACK (t : KICAD_T) : bool :=
  match t with PCB_TRACE_T | PCB_ARC_T | PCB_VIA_T => true | _ => false end.

Definition is_BOARD_CONNECTED_ITEM (t : KICAD_T) : bool :=
  match t with
  | PCB_TRACE_T | PCB_ARC_T | PCB_VIA_T | PCB_PAD_T | PCB_ZONE_T => true
  | _ => false
  end.

(** A [BOARD_ITEM*] together with what the provider reads through it.  [addr]
    is the pointer value: it gives the identity of the object and the
    canonical order of a pair.  Virtual getters are fields; a getter that does
    not apply to the item's class is never read for it. *)
Record BOARD_ITEM := {
  addr : Z;
  Type_ : KICAD_T;
  GetParent : Z;
  GetLayer : PCB_LAYER_ID;
  GetLayerSet : LSET;
  IsOnLayer : PCB_LAYER_ID -> bool;
  HasHole : bool;
  GetNetCode : Z;
  GetBoundingBox : BOX2I;
  GetPosition : VECTOR2I;
  (* PCB_TRACK *)
  GetStart : VECTOR2I;
  GetEnd : VECTOR2I;
  GetDrill : Z;
  (* PAD *)
  GetAttribute : PAD_ATTRIB;
  FlashLayer : PCB_LAYER_ID -> bool;
  GetDrillSize_x : Z;
  GetNumber : string;
  IsFreePad : bool;
  (* PCB_TEXT, FP_TEXT *)
  IsKnockout : bool;
  (* ZONE *)
  GetIsRuleArea : bool
}.

(** [BOARD_ITEM::IsConnected] is overridden to [true] by
    [BOARD_CONNECTED_ITEM] only. *)
Definition IsConnected (i : BOARD_ITEM) : bool := is_BOARD_CONNECTED_ITEM (Type_ i).

(** Shapes are handles: the effective shape of an item on a layer, or its
    effective hole shape.  What they look like is known to the collision
    primitives of the board only. *)
Inductive SHAPE :=
| EffectiveShape (i : BOARD_ITEM) (layer : PCB_LAYER_ID)
| EffectiveHoleShape (i : BOARD_ITEM).

(** ** Constraints, violations, events *)

Inductive DRC_CONSTRAINT_T := CLEARANCE_CONSTRAINT | HOLE_CLEARANCE_CONSTRAINT.

Inductive SEVERITY :=
| RPT_SEVERITY_UNDEFINED | RPT_SEVERITY_INFO | RPT_SEVERITY_EXCLUSION
| RPT_SEVERITY_ACTION | RPT_SEVERITY_WARNING | RPT_SEVERITY_ERROR
| RPT_SEVERITY_IGNORE.

Definition is_IGNORE (s : SEVERITY) : bool :=
  match s with RPT_SEVERITY_IGNORE => true | _ => false end.

Record DRC_CONSTRAINT := {
  GetValue_Min : Z;
  GetSeverity : SEVERITY;
  GetName : string;
  GetParentRule : option Z
}.

(** A default-constructed [DRC_CONSTRAINT]: no parent rule, hence an
    undefined severity, and an empty value. *)
Definition DRC_CONSTRAINT_default : DRC_CONSTRAINT :=
  {| GetValue_Min := 0; GetSeverity := RPT_SEVERITY_UNDEFINED;
     GetName := ""; GetParentRule := None |}.

Inductive PCB_DRC_CODE :=
| DRCE_CLEARANCE | DRCE_HOLE_CLEARANCE | DRCE_TRACKS_CROSSING
| DRCE_ZONES_INTERSECT | DRCE_SHORTING_ITEMS.

Definition PCB_DRC_CODE_eqb (a b : PCB_DRC_CODE) : bool :=
  match a, b with
  | DRCE_CLEARANCE, DRCE_CLEARANCE | DRCE_HOLE_CLEARANCE, DRCE_HOLE_CLEARANCE
  | DRCE_TRACKS_CROSSING, DRCE_TRACKS_CROSSING
  | DRCE_ZONES_INTERSECT, DRCE_ZONES_INTERSECT
  | DRCE_SHORTING_ITEMS, DRCE_SHORTING_ITEMS => true
  | _, _ => false
  end.

(** The text appended to the error text of a [DRC_ITEM]. *)
Inductive MESSAGE :=
| MsgNone
| MsgClearance (name : string) (clearance actual : Z)
| MsgClearanceNegative (name : string) (clearance actual : Z)
| MsgNets (a b : Z).

Record DRC_ITEM := {
  GetErrorCode : PCB_DRC_CODE;
  GetErrorMessage : MESSAGE;
  GetMainItem : BOARD_ITEM;
  GetAuxItem : BOARD_ITEM;
  GetViolatingRule : option Z
}.

(** Everything observable the provider does. *)
Inductive EVENT :=
| EvAux (msg : string)
| EvPhase (msg : string)
| EvProgress (count size delta : Z)
| EvRuleStatistics
| EvCollide (a : SHAPE) (b : option SHAPE) (clearance : Z)
| EvIntersect (a b : SEG)
| EvZoneQuery (zone : BOARD_ITEM) (s : SHAPE) (layer : PCB_LAYER_ID) (clearance : Z)
| EvZoneTouch (zone : BOARD_ITEM) (s : SHAPE) (layer : PCB_LAYER_ID)
| EvCheckZones (zoneA zoneB : nat) (clearance : Z) (layer : PCB_LAYER_ID)
| EvViolation (item : DRC_ITEM) (pos : VECTOR2I) (layer : PCB_LAYER_ID).

Definition TRACE := list EVENT.

(** ** The engine and the board *)

(** [m_drcEngine].  The error limits and the cancellation flag change while
    the test runs, so they are read against the trace so far; the rule
    evaluator is a pure function of its arguments. *)
Record DRC_ENGINE := {
  IsErrorLimitExceeded : TRACE -> PCB_DRC_CODE -> bool;
  IsCancelled : TRACE -> bool;
  ReportPhase : TRACE -> string -> bool;
  ReportProgress : TRACE -> Z -> Z -> Z -> bool;
  GetReportAllTrackErrors : bool;
  EvalRules : DRC_CONSTRAINT_T -> BOARD_ITEM -> BOARD_ITEM -> PCB_LAYER_ID -> DRC_CONSTRAINT;
  IsNetTieExclusion : Z -> PCB_LAYER_ID -> VECTOR2I -> BOARD_ITEM -> bool
}.

Record FOOTPRINT := {
  fp_addr : Z;
  Pads : list BOARD_ITEM;
  GraphicalItems : list BOARD_ITEM
}.

(** [m_board], with the geometric services the provider calls on it and on
    its items. *)
Record BOARD := {
  m_DRCMaxClearance : Z;
  GetDRCEpsilon : Z;
  boardCopperLayers : LSET;              (* LSET::AllCuMask( GetCopperLayerCount() ) *)
  IsLayerEnabled : PCB_LAYER_ID -> bool;
  Tracks : list BOARD_ITEM;
  Footprints : list FOOTPRINT;
  Drawings : list BOARD_ITEM;
  m_DRCCopperZones : list BOARD_ITEM;
  (* SHAPE::Collide( other, clearance, &actual, &pos ) *)
  Collide : SHAPE -> option SHAPE -> Z -> option (Z * VECTOR2I);
  (* SEG::Intersect *)
  SEG_Intersect : SEG -> SEG -> option VECTOR2I;
  (* PAD::SameLogicalPadAs *)
  SameLogicalPadAs : BOARD_ITEM -> BOARD_ITEM -> bool;
  (* FOOTPRINT::MapPadNumbersToNetTieGroups of the footprint at an address *)
  MapPadNumbersToNetTieGroups : Z -> gmap string Z;
  (* BOX2I::Inflate, BOX2I::Intersects *)
  BOX2I_Inflate : BOX2I -> Z -> BOX2I;
  BOX2I_Intersects : BOX2I -> BOX2I -> bool;
  (* m_CopperItemRTreeCache: the items a query visits, in visiting order *)
  CopperItemRTree : BOARD_ITEM -> PCB_LAYER_ID -> list BOARD_ITEM;
  (* m_CopperZoneRTreeCache[ zone ]: present or null, and its queries *)
  HasZoneTree : BOARD_ITEM -> bool;
  ZoneTree_QueryColliding : BOARD_ITEM -> BOX2I -> SHAPE -> PCB_LAYER_ID -> Z -> option (Z * VECTOR2I);
  (* the overload without clearance and out-parameters *)
  ZoneTree_Collides : BOARD_ITEM -> BOX2I -> SHAPE -> PCB_LAYER_ID -> bool;
  (* ZONE::GetFilledPolysList( layer ), fractured: IterateSegmentsWithHoles *)
  IterateSegmentsWithHoles : BOARD_ITEM -> PCB_LAYER_ID -> list SEG;
  (* ZONE::GetFill( layer )->BBoxFromCaches() *)
  BBoxFromCaches : BOARD_ITEM -> PCB_LAYER_ID -> BOX2I;
  (* std::sort over SEG::operator< *)
  std_sort : list SEG -> list SEG;
  (* GetClearanceBetweenSegments( x1i, y1i, x1f, y1f, w1, x2i, y2i, x2f, y2f,
     w2, max_cl, &x, &y ): the distance and the point written to x, y *)
  GetClearanceBetweenSegments :
    Z -> Z -> Z -> Z -> Z -> Z -> Z -> Z -> Z -> Z -> Z -> VECTOR2I -> Z * VECTOR2I
}.

(** ** The provider's monad: a state monad over the trace *)

Definition DRC (A : Type) : Type := TRACE -> A * TRACE.

Definition ret {A} (a : A) : DRC A := fun st => (a, st).

Definition bind {A B} (m : DRC A) (k : A -> DRC B) : DRC B :=
  fun st => let (a, st') := m st in k a st'.

Definition get_trace : DRC TRACE := fun st => (st, st).

Definition emit (e : EVENT) : DRC unit := fun st => (tt, st ++ [e]).

Declare Scope drc_scope.
Delimit Scope drc_scope with drc.
Notation "'do' x <- m ; k" := (bind m (fun x => k))
  (at level 10, x name, m at level 100, k at level 200) : drc_scope.
Notation "'do' ' p <- m ; k" := (bind m (fun x => match x with p => k end))
  (at level 10, p pattern, m at level 100, k at level 200) : drc_scope.
Notation "m ;; k" := (bind m (fun _ => k))
  (at level 100, k at level 200, right associativity) : drc_scope.
Local Open Scope drc_scope.

(** [reportViolation( item, pos, layer )]. *)
Definition reportViolation (item : DRC_ITEM) (pos : VECTOR2I) (layer : PCB_LAYER_ID) : DRC unit :=
  emit (EvViolation item pos layer).

(** A call of [SHAPE::Collide], recorded in the trace. *)
Definition doCollide (brd : BOARD) (a : SHAPE) (b : option SHAPE) (clearance : Z)
  : DRC (option (Z * VECTOR2I)) :=
  emit (EvCollide a b clearance) ;; ret (Collide brd a b clearance).

(** Control flow of a C++ block: it either returns from the function with a
    value or falls through with the locals it changed. *)
Inductive FLOW (R A : Type) :=
| Return (r : R)
| Next (a : A).
Arguments Return {R A} r.
Arguments Next {R A} a.

(** ** The pairwise tests *)

Definition mkDRC_ITEM (code : PCB_DRC_CODE) (msg : MESSAGE) (a b : BOARD_ITEM)
    (rule : option Z) : DRC_ITEM :=
  {| GetErrorCode := code; GetErrorMessage := msg; GetMainItem := a;
     GetAuxItem := b; GetViolatingRule := rule |}.

(** [formatMsg( "(%s clearance %s; actual %s)", name, clearance, actual )]. *)
Definition formatMsg (c : DRC_CONSTRAINT) (clearance actual : Z) : MESSAGE :=
  MsgClearance (GetName c) clearance actual.

(** The hole shape a test takes from [item]: a via contributes its hole on
    the layers of its layer set only, and the pointer stays null elsewhere. *)
Definition holeShapeOf (item : BOARD_ITEM) (layer : PCB_LAYER_ID) : option SHAPE :=
  if KICAD_T_eqb (Type_ item) PCB_VIA_T
  then if LSET_test (GetLayerSet item) layer then Some (EffectiveHoleShape item) else None
  else Some (EffectiveHoleShape item).

(** [LSET( item->GetLayerSet() & boardCopperLayers ).Seq()]: the layers on
    which a track or a pad is tested. *)
Definition copper_layers_of (brd : BOARD) (item : BOARD_ITEM) : list PCB_LAYER_ID :=
  LSET_Seq (LSET_and (GetLayerSet item) (boardCopperLayers brd)).

Arguments copper_layers_of : simpl never.

Section Provider.

Variable eng : DRC_ENGINE.
Variable brd : BOARD.
Variable m_drcEpsilon : Z.

(** *** testTrackAgainstItem *)

(** The clearance block.  It returns from the function on a crossing and on
    a clearance violation outside report-all mode, and otherwise falls
    through with [has_error]. *)
Definition testTrackAgainstItem_clearance (track : BOARD_ITEM) (trackShape : SHAPE)
    (layer : PCB_LAYER_ID) (other : BOARD_ITEM) (otherShape : SHAPE)
    (constraint : DRC_CONSTRAINT) (clearance : Z) : DRC (FLOW bool bool) :=
  if negb (is_IGNORE (GetSeverity constraint)) && (0 <? clearance) then
    do crossing <-
      (if KICAD_T_eqb (Type_ track) PCB_TRACE_T && KICAD_T_eqb (Type_ other) PCB_TRACE_T
       then
         let trackSeg := {| seg_A := GetStart track; seg_B := GetEnd track |} in
         let otherSeg := {| seg_A := GetStart track; seg_B := GetEnd track |} in
         emit (EvIntersect trackSeg otherSeg) ;;
         ret (SEG_Intersect brd trackSeg otherSeg)
       else ret None);
    match crossing with
    | Some intersection =>
        reportViolation
          (mkDRC_ITEM DRCE_TRACKS_CROSSING MsgNone track other (GetParentRule constraint))
          intersection layer ;;
        ret (Return false)
    | None =>
        do hit <- doCollide brd trackShape (Some otherShape) (clearance - m_drcEpsilon);
        match hit with
        | Some (actual, pos) =>
            if IsNetTieExclusion eng (GetNetCode track) layer pos other
            then ret (Next false)
            else
              reportViolation
                (mkDRC_ITEM DRCE_CLEARANCE (formatMsg constraint clearance actual)
                            track other (GetParentRule constraint))
                pos layer ;;
              if negb (GetReportAllTrackErrors eng)
              then ret (Return false)
              else ret (Next true)
        | None => ret (Next false)
        end
    end
  else ret (Next false).

(** One round of the hole loop: the solid shape of [a] against the hole of
    [b]. *)
Definition testTrackAgainstItem_hole (layer : PCB_LAYER_ID) (a b : BOARD_ITEM)
    (a_shape : SHAPE) : DRC (FLOW bool unit) :=
  if negb (is_PCB_TRACK (Type_ a)) || negb (HasHole b) then ret (Next tt)
  else
    let holeShape := holeShapeOf b layer in
    let constraint := EvalRules eng HOLE_CLEARANCE_CONSTRAINT b a layer in
    let clearance := GetValue_Min constraint in
    if negb (is_IGNORE (GetSeverity constraint)) then
      do hit <- doCollide brd a_shape holeShape (Z.max 0 (clearance - m_drcEpsilon));
      match hit with
      | Some (actual, pos) =>
          reportViolation
            (mkDRC_ITEM DRCE_HOLE_CLEARANCE
               (if clearance =? 0
                then MsgClearanceNegative (GetName constraint) clearance actual
                else MsgClearance (GetName constraint) clearance actual)
               a b (GetParentRule constraint))
            pos layer ;;
          ret (Return false)
      | None => ret (Next tt)
      end
    else ret (Next tt).

(** [for( size_t ii = 0; ii < 2; ++ii )] over the arrays [a], [b], [a_shape]. *)
Fixpoint testTrackAgainstItem_holes (layer : PCB_LAYER_ID)
    (rounds : list (BOARD_ITEM * BOARD_ITEM * SHAPE)) : DRC (FLOW bool unit) :=
  match rounds with
  | [] => ret (Next tt)
  | (a, b, a_shape) :: rest =>
      do r <- testTrackAgainstItem_hole layer a b a_shape;
      match r with
      | Return v => ret (Return v)
      | Next _ => testTrackAgainstItem_holes layer rest
      end
  end.

Definition testTrackAgainstItem (track : BOARD_ITEM) (trackShape : SHAPE)
    (layer : PCB_LAYER_ID) (other : BOARD_ITEM) : DRC bool :=
  do st <- get_trace;
  let testClearance := negb (IsErrorLimitExceeded eng st DRCE_CLEARANCE) in
  let testHoles := negb (IsErrorLimitExceeded eng st DRCE_HOLE_CLEARANCE) in
  let otherShape := EffectiveShape other layer in
  let testClearance :=
    if KICAD_T_eqb (Type_ other) PCB_PAD_T
       && PAD_ATTRIB_eqb (GetAttribute other) NPTH && negb (FlashLayer other layer)
    then false else testClearance in
  let constraint :=
    if testClearance then EvalRules eng CLEARANCE_CONSTRAINT track other layer
    else DRC_CONSTRAINT_default in
  let clearance := if testClearance then GetValue_Min constraint else -1 in
  do r <- testTrackAgainstItem_clearance track trackShape layer other otherShape
            constraint clearance;
  match r with
  | Return v => ret v
  | Next has_error =>
      if testHoles && (HasHole track || HasHole other) then
        do h <- testTrackAgainstItem_holes layer
                  [(track, other, trackShape); (other, track, otherShape)];
        match h with
        | Return v => ret v
        | Next _ => ret (negb has_error)
        end
      else ret (negb has_error)
  end.

(** *** testItemAgainstZone *)

Definition testItemAgainstZone (aItem aZone : BOARD_ITEM) (aLayer : PCB_LAYER_ID)
  : DRC unit :=
  if negb (LSET_test (GetLayerSet aZone) aLayer) then ret tt
  else if negb (GetNetCode aZone =? 0) && IsConnected aItem
          && (GetNetCode aZone =? GetNetCode aItem) then ret tt
  else
    let itemBBox := GetBoundingBox aItem in
    let worstCaseBBox := BOX2I_Inflate brd itemBBox (m_DRCMaxClearance brd) in
    if negb (BOX2I_Intersects brd worstCaseBBox (GetBoundingBox aZone)) then ret tt
    else
      do st <- get_trace;
      let testClearance := negb (IsErrorLimitExceeded eng st DRCE_CLEARANCE) in
      let testHoles := negb (IsErrorLimitExceeded eng st DRCE_HOLE_CLEARANCE) in
      if negb testClearance && negb testHoles then ret tt
      else if negb (HasZoneTree brd aZone) then ret tt
      else
        let testClearance :=
          if KICAD_T_eqb (Type_ aItem) PCB_PAD_T then
            let flashedPad := FlashLayer aItem aLayer in
            let platedHole := HasHole aItem && PAD_ATTRIB_eqb (GetAttribute aItem) PTH in
            if negb flashedPad && negb platedHole then false else testClearance
          else testClearance in
        let constraint :=
          if testClearance then EvalRules eng CLEARANCE_CONSTRAINT aItem aZone aLayer
          else DRC_CONSTRAINT_default in
        let clearance := if testClearance then GetValue_Min constraint else -1 in
        (if negb (is_IGNORE (GetSeverity constraint)) && (0 <? clearance) then
           let itemShape := EffectiveShape aItem aLayer in
           let budget := Z.max 0 (clearance - m_drcEpsilon) in
           emit (EvZoneQuery aZone itemShape aLayer budget) ;;
           match ZoneTree_QueryColliding brd aZone itemBBox itemShape aLayer budget with
           | Some (actual, pos) =>
               reportViolation
                 (mkDRC_ITEM DRCE_CLEARANCE (formatMsg constraint clearance actual)
                             aItem aZone (GetParentRule constraint))
                 pos aLayer
           | None => ret tt
           end
         else ret tt) ;;
        if testHoles && HasHole aItem then
          match holeShapeOf aItem aLayer with
          | Some holeShape =>
              let constraint := EvalRules eng HOLE_CLEARANCE_CONSTRAINT aItem aZone aLayer in
              let clearance := GetValue_Min constraint in
              if negb (is_IGNORE (GetSeverity constraint)) && (0 <? clearance) then
                let budget := Z.max 0 (clearance - m_drcEpsilon) in
                emit (EvZoneQuery aZone holeShape aLayer budget) ;;
                match ZoneTree_QueryColliding brd aZone itemBBox holeShape aLayer budget with
                | Some (actual, pos) =>
                    reportViolation
                      (mkDRC_ITEM DRCE_HOLE_CLEARANCE (formatMsg constraint clearance actual)
                                  aItem aZone (GetParentRule constraint))
                      pos aLayer
                | None => ret tt
                end
              else ret tt
          | None => ret tt
          end
        else ret tt.

(** *** testKnockoutTextAgainstZone

    [aInheritedNet] is an in-out parameter: the function returns its new
    value.  A [NETINFO_ITEM*] is represented by its net code, [None] being the
    null pointer. *)
Definition testKnockoutTextAgainstZone (aText : BOARD_ITEM) (aInheritedNet : option Z)
    (aZone : BOARD_ITEM) : DRC (option Z) :=
  do st <- get_trace;
  let testClearance := negb (IsErrorLimitExceeded eng st DRCE_CLEARANCE) in
  let testShorts := negb (IsErrorLimitExceeded eng st DRCE_SHORTING_ITEMS) in
  if negb testClearance && negb testShorts then ret aInheritedNet
  else
    let layer := GetLayer aText in
    if negb (LSET_test (GetLayerSet aZone) layer) then ret aInheritedNet
    else
      let itemBBox := GetBoundingBox aText in
      let worstCaseBBox := BOX2I_Inflate brd itemBBox (m_DRCMaxClearance brd) in
      if negb (BOX2I_Intersects brd worstCaseBBox (GetBoundingBox aZone)) then ret aInheritedNet
      else if negb (HasZoneTree brd aZone) then ret aInheritedNet
      else
        let itemShape := EffectiveShape aText layer in
        do inherited <-
          match aInheritedNet with
          | None =>
              emit (EvZoneTouch aZone itemShape layer) ;;
              if ZoneTree_Collides brd aZone itemBBox itemShape layer
              then ret (Some (GetNetCode aZone))
              else ret None
          | Some n => ret (Some n)
          end;
        match inherited with
        | Some n =>
            if n =? GetNetCode aZone then ret inherited
            else
              let constraint := EvalRules eng CLEARANCE_CONSTRAINT aText aZone layer in
              let clearance := GetValue_Min constraint in
              (if negb (is_IGNORE (GetSeverity constraint)) && (0 <=? clearance) then
                 let budget := Z.max 0 (clearance - m_drcEpsilon) in
                 emit (EvZoneQuery aZone itemShape layer budget) ;;
                 match ZoneTree_QueryColliding brd aZone itemBBox itemShape layer budget with
                 | Some (actual, pos) =>
                     if testShorts && (actual =? 0)
                     then reportViolation
                            (mkDRC_ITEM DRCE_SHORTING_ITEMS (MsgNets n (GetNetCode aZone))
                                        aText aZone (GetParentRule constraint))
                            pos layer
                     else reportViolation
                            (mkDRC_ITEM DRCE_CLEARANCE (formatMsg constraint clearance actual)
                                        aText aZone (GetParentRule constraint))
                            pos layer
                 | None => ret tt
                 end
               else ret tt) ;;
              ret inherited
        | None =>
            let constraint := EvalRules eng CLEARANCE_CONSTRAINT aText aZone layer in
            let clearance := GetValue_Min constraint in
            (if negb (is_IGNORE (GetSeverity constraint)) && (0 <=? clearance) then
               let budget := Z.max 0 (clearance - m_drcEpsilon) in
               emit (EvZoneQuery aZone itemShape layer budget) ;;
               match ZoneTree_QueryColliding brd aZone itemBBox itemShape layer budget with
               | Some (actual, pos) =>
                   reportViolation
                     (mkDRC_ITEM DRCE_CLEARANCE (formatMsg constraint clearance actual)
                                 aText aZone (GetParentRule constraint))
                     pos layer
               | None => ret tt
               end
             else ret tt) ;;
            ret inherited
        end.

(** *** The copper item R-tree *)

(** Modelled from the spec: [DRC_RTREE::QueryColliding] with a filter and a
    visitor is declared in drc/drc_rtree.h, which is not part of the sources
    at hand.  For every candidate the index yields it invokes the filter,
    which may reject the candidate and record it as already checked, then the
    visitor, which performs the real test; it aborts as soon as the visitor
    returns false.  [S] is what the two lambdas capture by reference. *)
Fixpoint QueryColliding {S : Type} (candidates : list BOARD_ITEM)
    (filter : BOARD_ITEM -> S -> bool * S)
    (visitor : BOARD_ITEM -> S -> DRC (bool * S)) (s : S) : DRC S :=
  match candidates with
  | [] => ret s
  | other :: rest =>
      let (accepted, s1) := filter other s in
      if accepted then
        do r <- visitor other s1;
        if fst r then QueryColliding rest filter visitor (snd r) else ret (snd r)
      else QueryColliding rest filter visitor s1
  end.

(** *** testTrackClearances *)

(** The [layers_checked] struct. *)
Record layers_checked := { layers : LSET; has_error : bool }.

(** [PTR_PTR_CACHE_KEY] of a pair, after the swap into canonical order. *)
Definition canonical_key (a b : BOARD_ITEM) : Z * Z :=
  if addr b <? addr a then (addr b, addr a) else (addr a, addr b).

Definition set_has_error (c : layers_checked) : layers_checked :=
  {| layers := layers c; has_error := true |}.

(** The filter lambda of the track query. *)
Definition track_filter (track : BOARD_ITEM) (layer : PCB_LAYER_ID) (other : BOARD_ITEM)
    (checkedPairs : gmap (Z * Z) layers_checked) : bool * gmap (Z * Z) layers_checked :=
  if is_BOARD_CONNECTED_ITEM (Type_ other) && (GetNetCode other =? GetNetCode track)
  then (false, checkedPairs)
  else
    let key := canonical_key track other in
    match checkedPairs !! key with
    | Some it =>
        if LSET_test (layers it) layer
           || (has_error it && negb (GetReportAllTrackErrors eng))
        then (false, checkedPairs)
        else (true, <[key := {| layers := LSET_set (layers it) layer;
                                has_error := has_error it |}]> checkedPairs)
    | None =>
        (true, <[key := {| layers := LSET_set LSET_empty layer;
                           has_error := false |}]> checkedPairs)
    end.

(** What the two lambdas of the track query share. *)
Record track_memo := {
  tm_checkedPairs : gmap (Z * Z) layers_checked;
  tm_freePadsUsageMap : gmap Z Z
}.

(** The free-pad prologue of the visitor: [Return true] when the first net
    met claims the pad or the claiming net comes back. *)
Definition track_visitor_freePad (track : BOARD_ITEM) (trackShape : SHAPE)
    (layer : PCB_LAYER_ID) (other : BOARD_ITEM) (freePadsUsageMap : gmap Z Z)
  : DRC (FLOW bool unit * gmap Z Z) :=
  if KICAD_T_eqb (Type_ other) PCB_PAD_T && IsFreePad other then
    do hit <- doCollide brd (EffectiveShape other layer) (Some trackShape) 0;
    match hit with
    | Some _ =>
        match freePadsUsageMap !! addr other with
        | None => ret (Return true, <[addr other := GetNetCode track]> freePadsUsageMap)
        | Some net =>
            if net =? GetNetCode track then ret (Return true, freePadsUsageMap)
            else ret (Next tt, freePadsUsageMap)
        end
    | None => ret (Next tt, freePadsUsageMap)
    end
  else ret (Next tt, freePadsUsageMap).

(** The visitor lambda of the track query. *)
Definition track_visitor (track : BOARD_ITEM) (trackShape : SHAPE) (layer : PCB_LAYER_ID)
    (other : BOARD_ITEM) (m : track_memo) : DRC (bool * track_memo) :=
  do st <- get_trace;
  if IsCancelled eng st then ret (false, m)
  else
    do fp <- track_visitor_freePad track trackShape layer other (tm_freePadsUsageMap m);
    match fp with
    | (Return v, fpm) =>
        ret (v, {| tm_checkedPairs := tm_checkedPairs m; tm_freePadsUsageMap := fpm |})
    | (Next _, fpm) =>
        let key := canonical_key track other in
        do ok <- testTrackAgainstItem track trackShape layer other;
        if negb ok then
          let m' := {| tm_checkedPairs := alter set_has_error key (tm_checkedPairs m);
                       tm_freePadsUsageMap := fpm |} in
          if negb (GetReportAllTrackErrors eng) then ret (false, m')
          else do st' <- get_trace; ret (negb (IsCancelled eng st'), m')
        else
          do st' <- get_trace;
          ret (negb (IsCancelled eng st'),
               {| tm_checkedPairs := tm_checkedPairs m; tm_freePadsUsageMap := fpm |})
    end.

Definition track_filter_memo (track : BOARD_ITEM) (layer : PCB_LAYER_ID)
    (other : BOARD_ITEM) (m : track_memo) : bool * track_memo :=
  let (accepted, cp) := track_filter track layer other (tm_checkedPairs m) in
  (accepted, {| tm_checkedPairs := cp; tm_freePadsUsageMap := tm_freePadsUsageMap m |}).

(** [reportProgress( count, size, delta )]. *)
Definition reportProgress (count size delta : Z) : DRC bool :=
  do st <- get_trace;
  emit (EvProgress count size delta) ;;
  ret (ReportProgress eng st count size delta).

(** [for( ZONE* zone : m_board->m_DRCCopperZones )] with its [break] (or
    [return]) on cancellation; the result tells whether the loop ran to its
    end. *)
Fixpoint testItemAgainstZones (item : BOARD_ITEM) (layer : PCB_LAYER_ID)
    (zones : list BOARD_ITEM) : DRC bool :=
  match zones with
  | [] => ret true
  | zone :: rest =>
      testItemAgainstZone item zone layer ;;
      do st <- get_trace;
      if IsCancelled eng st then ret false
      else testItemAgainstZones item layer rest
  end.

(** The body of the layer loop of one track. *)
Fixpoint testTrackClearances_layers (track : BOARD_ITEM) (layerSeq : list PCB_LAYER_ID)
    (m : track_memo) : DRC track_memo :=
  match layerSeq with
  | [] => ret m
  | layer :: rest =>
      let trackShape := EffectiveShape track layer in
      do m1 <- QueryColliding (CopperItemRTree brd track layer)
                 (track_filter_memo track layer)
                 (track_visitor track trackShape layer) m;
      testItemAgainstZones track layer (m_DRCCopperZones brd) ;;
      testTrackClearances_layers track rest m1
  end.

Fixpoint testTrackClearances_tracks (tracks : list BOARD_ITEM) (ii : Z) (size : Z)
    (m : track_memo) : DRC unit :=
  match tracks with
  | [] => ret tt
  | track :: rest =>
      do continue <- reportProgress ii size 100;
      if negb continue then ret tt
      else
        do m1 <- testTrackClearances_layers track (copper_layers_of brd track) m;
        testTrackClearances_tracks rest (ii + 1) size m1
  end.

Definition testTrackClearances : DRC unit :=
  emit (EvAux "Testing tracks & vias...") ;;
  testTrackClearances_tracks (Tracks brd) 0 (Z.of_nat (length (Tracks brd)))
    {| tm_checkedPairs := ∅; tm_freePadsUsageMap := ∅ |}.

(** *** testPadAgainstItem *)

(** The flags after the prologue: the net-tie block, the layer and NPTH
    tests, the track exclusion, the same-net waiver and the drill test. *)
Definition testPadAgainstItem_flags (pad : BOARD_ITEM) (aLayer : PCB_LAYER_ID)
    (other : BOARD_ITEM) (testClearance testHoles : bool) : bool * bool :=
  let '(testClearance, testHoles) :=
    if GetParent other =? GetParent pad then
      let padToNetTieGroupMap := MapPadNumbersToNetTieGroups brd (GetParent pad) in
      let padGroupIdx := default 0 (padToNetTieGroupMap !! GetNumber pad) in
      let '(testClearance, testHoles) :=
        if KICAD_T_eqb (Type_ other) PCB_PAD_T then
          (if (0 <=? padGroupIdx)
              && (padGroupIdx =? default 0 (padToNetTieGroupMap !! GetNumber other))
           then false else testClearance,
           if SameLogicalPadAs brd pad other then false else testHoles)
        else (testClearance, testHoles) in
      (if KICAD_T_eqb (Type_ other) PCB_FP_SHAPE_T && (0 <=? padGroupIdx)
       then false else testClearance,
       testHoles)
    else (testClearance, testHoles) in
  let otherPad := KICAD_T_eqb (Type_ other) PCB_PAD_T in
  let otherVia := KICAD_T_eqb (Type_ other) PCB_VIA_T in
  let testClearance := if negb (IsCopperLayer aLayer) then false else testClearance in
  let testClearance :=
    if PAD_ATTRIB_eqb (GetAttribute pad) NPTH && negb (FlashLayer pad aLayer)
    then false else testClearance in
  let testClearance :=
    if otherPad && PAD_ATTRIB_eqb (GetAttribute other) NPTH && negb (FlashLayer other aLayer)
    then false else testClearance in
  let testClearance := if is_PCB_TRACK (Type_ other) then false else testClearance in
  let padNet := GetNetCode pad in
  let otherPadNet := if otherPad then GetNetCode other else 0 in
  let otherViaNet := if otherVia then GetNetCode other else 0 in
  let '(testClearance, testHoles) :=
    if (negb (otherPadNet =? 0) && (otherPadNet =? padNet))
       || (negb (otherViaNet =? 0) && (otherViaNet =? padNet))
    then (false, false) else (testClearance, testHoles) in
  let testHoles :=
    if negb (0 <? GetDrillSize_x pad)
       && negb (otherPad && (0 <? GetDrillSize_x other))
       && negb (otherVia && (0 <? GetDrill other))
    then false else testHoles in
  (testClearance, testHoles).

(** One of the three hole blocks: [solid] against [hole] when [guard] holds;
    the result is the new value of [testHoles]. *)
Definition testPadAgainstItem_hole (guard : bool) (solid : SHAPE) (hole : SHAPE)
    (constraint : DRC_CONSTRAINT) (clearance : Z) (pad other : BOARD_ITEM)
    (aLayer : PCB_LAYER_ID) (testHoles : bool) : DRC bool :=
  if guard then
    if 0 <? clearance then
      do hit <- doCollide brd solid (Some hole) (Z.max 0 (clearance - m_drcEpsilon));
      match hit with
      | Some (actual, pos) =>
          reportViolation
            (mkDRC_ITEM DRCE_HOLE_CLEARANCE (formatMsg constraint clearance actual)
                        pad other (GetParentRule constraint))
            pos aLayer ;;
          ret false
      | None => ret testHoles
      end
    else ret testHoles
  else ret testHoles.

Definition testPadAgainstItem (pad : BOARD_ITEM) (padShape : SHAPE) (aLayer : PCB_LAYER_ID)
    (other : BOARD_ITEM) : DRC bool :=
  do st <- get_trace;
  let testShorting := negb (IsErrorLimitExceeded eng st DRCE_SHORTING_ITEMS) in
  let '(testClearance, testHoles) :=
    testPadAgainstItem_flags pad aLayer other
      (negb (IsErrorLimitExceeded eng st DRCE_CLEARANCE))
      (negb (IsErrorLimitExceeded eng st DRCE_HOLE_CLEARANCE)) in
  let otherPad := KICAD_T_eqb (Type_ other) PCB_PAD_T in
  let otherVia := KICAD_T_eqb (Type_ other) PCB_VIA_T in
  if negb testClearance && negb testShorting && negb testHoles then ret false
  else
    let otherShape := EffectiveShape other aLayer in
    if otherPad && SameLogicalPadAs brd pad other then
      (if negb (GetNetCode pad =? 0) && negb (GetNetCode other =? 0)
          && negb (GetNetCode pad =? GetNetCode other) && testShorting
       then reportViolation
              (mkDRC_ITEM DRCE_SHORTING_ITEMS
                          (MsgNets (GetNetCode pad) (GetNetCode other)) pad other None)
              (GetPosition other) aLayer
       else ret tt) ;;
      do st' <- get_trace;
      ret (negb (IsCancelled eng st'))
    else
      do testHoles <-
        (if testClearance then
           let constraint := EvalRules eng CLEARANCE_CONSTRAINT pad other aLayer in
           let clearance := GetValue_Min constraint in
           if negb (is_IGNORE (GetSeverity constraint)) && (0 <? clearance) then
             do hit <- doCollide brd padShape (Some otherShape)
                         (Z.max 0 (clearance - m_drcEpsilon));
             match hit with
             | Some (actual, pos) =>
                 if IsNetTieExclusion eng (GetNetCode pad) aLayer pos other
                 then ret testHoles
                 else
                   reportViolation
                     (mkDRC_ITEM DRCE_CLEARANCE (formatMsg constraint clearance actual)
                                 pad other (GetParentRule constraint))
                     pos aLayer ;;
                   ret false
             | None => ret testHoles
             end
           else ret testHoles
         else ret testHoles);
      let constraint := EvalRules eng HOLE_CLEARANCE_CONSTRAINT pad other aLayer in
      let clearance := GetValue_Min constraint in
      let testHoles :=
        if testHoles then negb (is_IGNORE (GetSeverity constraint)) else false in
      do testHoles <-
        testPadAgainstItem_hole
          (testHoles && otherPad && FlashLayer pad aLayer && HasHole other)
          padShape (EffectiveHoleShape other) constraint clearance pad other aLayer testHoles;
      do testHoles <-
        testPadAgainstItem_hole
          (testHoles && otherPad && FlashLayer other aLayer && HasHole pad)
          otherShape (EffectiveHoleShape pad) constraint clearance pad other aLayer testHoles;
      testPadAgainstItem_hole
        (testHoles && otherVia && IsOnLayer other aLayer)
        padShape (EffectiveHoleShape other) constraint clearance pad other aLayer testHoles ;;
      do st' <- get_trace;
      ret (negb (IsCancelled eng st')).

(** *** testPadClearances *)

(** The filter lambda of the pad query; it captures [layer] without reading
    it. *)
Definition pad_filter (pad : BOARD_ITEM) (layer : PCB_LAYER_ID) (other : BOARD_ITEM)
    (checkedPairs : gmap (Z * Z) Z) : bool * gmap (Z * Z) Z :=
  let key := canonical_key pad other in
  match checkedPairs !! key with
  | Some _ => (false, checkedPairs)
  | None => (true, <[key := 1]> checkedPairs)
  end.

(** The visitor lambda of the pad query. *)
Definition pad_visitor (pad : BOARD_ITEM) (padShape : SHAPE) (layer : PCB_LAYER_ID)
    (other : BOARD_ITEM) (checkedPairs : gmap (Z * Z) Z) : DRC (bool * gmap (Z * Z) Z) :=
  do r <- testPadAgainstItem pad padShape layer other;
  ret (r, checkedPairs).

(** The layer loop of one pad; [Return tt] is the [return] on cancellation. *)
Fixpoint testPadClearances_layers (pad : BOARD_ITEM) (layerSeq : list PCB_LAYER_ID)
    (checkedPairs : gmap (Z * Z) Z) : DRC (FLOW unit (gmap (Z * Z) Z)) :=
  match layerSeq with
  | [] => ret (Next checkedPairs)
  | layer :: rest =>
      let padShape := EffectiveShape pad layer in
      do cp <- QueryColliding (CopperItemRTree brd pad layer)
                 (pad_filter pad layer) (pad_visitor pad padShape layer) checkedPairs;
      do finished <- testItemAgainstZones pad layer (m_DRCCopperZones brd);
      if finished then testPadClearances_layers pad rest cp
      else ret (Return tt)
  end.

Fixpoint testPadClearances_pads (pads : list BOARD_ITEM) (ii : Z) (count : Z)
    (checkedPairs : gmap (Z * Z) Z) : DRC (FLOW unit (Z * gmap (Z * Z) Z)) :=
  match pads with
  | [] => ret (Next (ii, checkedPairs))
  | pad :: rest =>
      do r <- testPadClearances_layers pad (copper_layers_of brd pad) checkedPairs;
      match r with
      | Return _ => ret (Return tt)
      | Next cp =>
          do continue <- reportProgress ii count 100;
          if negb continue then ret (Return tt)
          else testPadClearances_pads rest (ii + 1) count cp
      end
  end.

Fixpoint testPadClearances_footprints (footprints : list FOOTPRINT) (ii : Z) (count : Z)
    (checkedPairs : gmap (Z * Z) Z) : DRC unit :=
  match footprints with
  | [] => ret tt
  | footprint :: rest =>
      do r <- testPadClearances_pads (Pads footprint) ii count checkedPairs;
      match r with
      | Return _ => ret tt
      | Next (ii', cp) =>
          do st <- get_trace;
          if IsCancelled eng st then ret tt
          else testPadClearances_footprints rest ii' count cp
      end
  end.

Definition count_pads (footprints : list FOOTPRINT) : Z :=
  fold_left (fun n fp => n + Z.of_nat (length (Pads fp))) footprints 0.

Definition testPadClearances : DRC unit :=
  let count := count_pads (Footprints brd) in
  emit (EvAux "Testing pads...") ;;
  testPadClearances_footprints (Footprints brd) 0 count ∅.

(** *** testGraphicClearances *)

Definition isKnockoutText (item : BOARD_ITEM) : bool :=
  if KICAD_T_eqb (Type_ item) PCB_TEXT_T then IsKnockout item
  else if KICAD_T_eqb (Type_ item) PCB_FP_TEXT_T then IsKnockout item
  else false.

(** The zone loop of [testGraphicAgainstZone]; the result tells whether it
    ran to its end. *)
Fixpoint testGraphicAgainstZone_zones (item : BOARD_ITEM) (inheritedNet : option Z)
    (zones : list BOARD_ITEM) : DRC unit :=
  match zones with
  | [] => ret tt
  | zone :: rest =>
      do inherited <-
        (if isKnockoutText item then testKnockoutTextAgainstZone item inheritedNet zone
         else testItemAgainstZone item zone (GetLayer item) ;; ret inheritedNet);
      do st <- get_trace;
      if IsCancelled eng st then ret tt
      else testGraphicAgainstZone_zones item inherited rest
  end.

Definition testGraphicAgainstZone (item : BOARD_ITEM) : DRC unit :=
  if KICAD_T_eqb (Type_ item) PCB_BITMAP_T then ret tt
  else if negb (IsCopperLayer (GetLayer item)) then ret tt
  else testGraphicAgainstZone_zones item None (m_DRCCopperZones brd).

(** A loop over graphic items; [Return tt] is the [return] when the progress
    report asks to stop, [Next ii] the counter at the end of the list. *)
Fixpoint testGraphicClearances_items (items : list BOARD_ITEM) (ii : Z) (count : Z)
  : DRC (FLOW unit Z) :=
  match items with
  | [] => ret (Next ii)
  | item :: rest =>
      testGraphicAgainstZone item ;;
      do continue <- reportProgress ii count 100;
      if negb continue then ret (Return tt)
      else testGraphicClearances_items rest (ii + 1) count
  end.

Fixpoint testGraphicClearances_footprints (footprints : list FOOTPRINT) (ii : Z) (count : Z)
  : DRC unit :=
  match footprints with
  | [] => ret tt
  | footprint :: rest =>
      do r <- testGraphicClearances_items (GraphicalItems footprint) ii count;
      match r with
      | Return _ => ret tt
      | Next ii' => testGraphicClearances_footprints rest ii' count
      end
  end.

Definition count_graphics (drawings : list BOARD_ITEM) (footprints : list FOOTPRINT) : Z :=
  fold_left (fun n fp => n + Z.of_nat (length (GraphicalItems fp))) footprints
            (Z.of_nat (length drawings)).

Definition testGraphicClearances : DRC unit :=
  let count := count_graphics (Drawings brd) (Footprints brd) in
  emit (EvAux "Testing graphics...") ;;
  do r <- testGraphicClearances_items (Drawings brd) 0 count;
  match r with
  | Return _ => ret tt
  | Next ii => testGraphicClearances_footprints (Footprints brd) ii count
  end.

(** *** testZonesToZones *)

(** [report_data]: the indices of zoneA and zoneB, the conflict point, the
    actual clearance, the required clearance and the layer. *)
Record report_data := {
  rd_zoneA : Z;
  rd_zoneB : Z;
  rd_pt : VECTOR2I;
  rd_actual : Z;
  rd_required : Z;
  rd_layer : PCB_LAYER_ID
}.

Definition invalid_zone : Z := -1.

Definition invalid_result : report_data :=
  {| rd_zoneA := invalid_zone; rd_zoneB := invalid_zone; rd_pt := {| vx := 0; vy := 0 |};
     rd_actual := 0; rd_required := 0; rd_layer := F_Cu |}.

(** The inner loop of the [checkZones] lambda: one reference segment against
    the test segments.  [Next tt] is the end of the loop or its [break]. *)
Fixpoint checkZones_inner (testClearance testIntersects cancelled : bool)
    (zoneA zoneB : Z) (zone2zoneClearance : Z) (layer : PCB_LAYER_ID)
    (refSegment : SEG) (testSegments : list SEG) : FLOW report_data unit :=
  match testSegments with
  | [] => Next tt
  | testSegment :: rest =>
      let ax1 := vx (seg_A refSegment) in
      let ay1 := vy (seg_A refSegment) in
      let ax2 := vx (seg_B refSegment) in
      let ay2 := vy (seg_B refSegment) in
      let bx1 := vx (seg_A testSegment) in
      let by1 := vy (seg_A testSegment) in
      let bx2 := vx (seg_B testSegment) in
      let by2 := vy (seg_B testSegment) in
      if ax2 <? bx1 then Next tt
      else
        let (d, pt) :=
          GetClearanceBetweenSegments brd bx1 by1 bx2 by2 0 ax1 ay1 ax2 ay2 0
            zone2zoneClearance {| vx := 0; vy := 0 |} in
        let reported :=
          if d <? zone2zoneClearance then
            if (d =? 0) && testIntersects then true
            else if testClearance then true else false
          else false in
        if reported then
          Return {| rd_zoneA := zoneA; rd_zoneB := zoneB; rd_pt := pt; rd_actual := d;
                    rd_required := zone2zoneClearance; rd_layer := layer |}
        else if cancelled then Return invalid_result
        else checkZones_inner testClearance testIntersects cancelled zoneA zoneB
               zone2zoneClearance layer refSegment rest
  end.

(** The [checkZones] lambda over the segment lists of the two zones. *)
Fixpoint checkZones (testClearance testIntersects cancelled : bool)
    (zoneA zoneB : Z) (zone2zoneClearance : Z) (layer : PCB_LAYER_ID)
    (refSegments testSegments : list SEG) : report_data :=
  match refSegments with
  | [] => invalid_result
  | refSegment :: rest =>
      match checkZones_inner testClearance testIntersects cancelled zoneA zoneB
              zone2zoneClearance layer refSegment testSegments with
      | Return data => data
      | Next _ =>
          checkZones testClearance testIntersects cancelled zoneA zoneB
            zone2zoneClearance layer rest testSegments
      end
  end.

(** [poly_segments]: one map from layer to segment list per zone. *)
Definition poly_segments_t := list (gmap N (list SEG)).

Definition poly_segments_at (ps : poly_segments_t) (zone : nat) (layer : PCB_LAYER_ID)
  : list SEG :=
  default [] (default ∅ (ps !! zone) !! layer).

(** The segment put into [poly_segs]: reversed when it runs right to left. *)
Definition orient_segment (seg : SEG) : SEG :=
  if vx (seg_B seg) <? vx (seg_A seg) then SEG_Reverse seg else seg.

(** The segments of the zones of one layer: oriented, appended and sorted. *)
Fixpoint build_poly_segments (layer : PCB_LAYER_ID) (zones : list (nat * BOARD_ITEM))
    (ps : poly_segments_t) : poly_segments_t :=
  match zones with
  | [] => ps
  | (ii, zone) :: rest =>
      let ps' :=
        if IsOnLayer zone layer then
          let poly_segs :=
            std_sort brd (poly_segments_at ps ii layer
                          ++ List.map orient_segment (IterateSegmentsWithHoles brd zone layer)) in
          <[ii := <[layer := poly_segs]> (default ∅ (ps !! ii))]> ps
        else ps in
      build_poly_segments layer rest ps'
  end.

(** A task submitted to the thread pool: the arguments of [checkZones]. *)
Record zone_task := {
  zt_zoneA : nat;
  zt_zoneB : nat;
  zt_clearance : Z;
  zt_layer : PCB_LAYER_ID
}.

(** The body of the loop over [ia2]: the task submitted for the pair, if the
    pair is to be tested. *)
Definition submit_pair (layer : PCB_LAYER_ID) (ia : nat) (zoneA : BOARD_ITEM)
    (ia2 : nat) (zoneB : BOARD_ITEM) : DRC (option zone_task) :=
  if negb (IsOnLayer zoneB layer) then ret None
  else if (GetNetCode zoneA =? GetNetCode zoneB) && (0 <=? GetNetCode zoneA) then ret None
  else if GetIsRuleArea zoneA || GetIsRuleArea zoneB then ret None
  else if negb (BOX2I_Intersects brd (BBoxFromCaches brd zoneA layer)
                                     (BBoxFromCaches brd zoneB layer))
  then ret None
  else
    let constraint := EvalRules eng CLEARANCE_CONSTRAINT zoneA zoneB layer in
    let zone2zoneClearance := GetValue_Min constraint in
    if is_IGNORE (GetSeverity constraint) || (zone2zoneClearance <=? 0) then ret None
    else
      emit (EvCheckZones ia ia2 zone2zoneClearance layer) ;;
      ret (Some {| zt_zoneA := ia; zt_zoneB := ia2; zt_clearance := zone2zoneClearance;
                   zt_layer := layer |}).

(** The loop over [ia2]: the zones after [zoneA] that are tested against it. *)
Fixpoint submit_pairs (layer : PCB_LAYER_ID) (ia : nat) (zoneA : BOARD_ITEM)
    (others : list (nat * BOARD_ITEM)) : DRC (list zone_task) :=
  match others with
  | [] => ret []
  | (ia2, zoneB) :: rest =>
      do task <- submit_pair layer ia zoneA ia2 zoneB;
      do more <- submit_pairs layer ia zoneA rest;
      ret (match task with Some t => t :: more | None => more end)
  end.

(** The loop over [ia]; [Return tt] is the [return] of the whole function
    when the progress report asks to stop. *)
Fixpoint submit_zones (layer : PCB_LAYER_ID) (size : Z) (zones : list (nat * BOARD_ITEM))
    (futures : list zone_task) : DRC (FLOW unit (list zone_task)) :=
  match zones with
  | [] => ret (Next futures)
  | (ia, zoneA) :: rest =>
      do continue <- reportProgress (Z.of_N layer * size + Z.of_nat ia)
                       (Z.of_N B_Cu * size) 50;
      if negb continue then ret (Return tt)
      else if negb (IsOnLayer zoneA layer) then submit_zones layer size rest futures
      else
        do more <- submit_pairs layer ia zoneA rest;
        submit_zones layer size rest (futures ++ more)
  end.

(** The loop over the copper layers. *)
Fixpoint submit_layers (layerIds : list PCB_LAYER_ID) (zones : list (nat * BOARD_ITEM))
    (ps : poly_segments_t) (futures : list zone_task)
  : DRC (FLOW unit (poly_segments_t * list zone_task)) :=
  match layerIds with
  | [] => ret (Next (ps, futures))
  | layer :: rest =>
      if negb (IsLayerEnabled brd layer) then submit_layers rest zones ps futures
      else
        let ps' := build_poly_segments layer zones ps in
        do r <- submit_zones layer (Z.of_nat (length zones)) zones futures;
        match r with
        | Return _ => ret (Return tt)
        | Next futures' => submit_layers rest zones ps' futures'
        end
  end.

(** What is done with the result of one task. *)
Definition report_zone_result (testClearance testIntersects : bool) (data : report_data)
  : DRC unit :=
  if negb (rd_zoneA data =? invalid_zone) then
    match m_DRCCopperZones brd !! Z.to_nat (rd_zoneA data),
          m_DRCCopperZones brd !! Z.to_nat (rd_zoneB data) with
    | Some zoneA, Some zoneB =>
        let constraint := EvalRules eng CLEARANCE_CONSTRAINT zoneA zoneB (rd_layer data) in
        if (rd_actual data <=? 0) && testIntersects then
          reportViolation
            (mkDRC_ITEM DRCE_ZONES_INTERSECT MsgNone zoneA zoneB (GetParentRule constraint))
            (rd_pt data) (rd_layer data)
        else if testClearance then
          reportViolation
            (mkDRC_ITEM DRCE_CLEARANCE
               (formatMsg constraint (rd_required data) (Z.max (rd_actual data) 0))
               zoneA zoneB (GetParentRule constraint))
            (rd_pt data) (rd_layer data)
        else ret tt
    | _, _ => ret tt
    end
  else ret tt.

(** The result a task delivers.  The thread pool is modelled by one of its
    schedules: a task runs when its future is collected, and sees the
    [cancelled] flag of that moment. *)
Definition run_zone_task (testClearance testIntersects cancelled : bool)
    (ps : poly_segments_t) (task : zone_task) : report_data :=
  checkZones testClearance testIntersects cancelled
    (Z.of_nat (zt_zoneA task)) (Z.of_nat (zt_zoneB task)) (zt_clearance task)
    (zt_layer task)
    (poly_segments_at ps (zt_zoneA task) (zt_layer task))
    (poly_segments_at ps (zt_zoneB task) (zt_layer task)).

(** The loop over the futures: a future met while the run is cancelled sets
    [cancelled] and is dropped, any other is waited for and reported. *)
Fixpoint collect_futures (testClearance testIntersects : bool) (ps : poly_segments_t)
    (futures : list zone_task) (cancelled : bool) : DRC unit :=
  match futures with
  | [] => ret tt
  | task :: rest =>
      do st <- get_trace;
      if IsCancelled eng st
      then collect_futures testClearance testIntersects ps rest true
      else
        report_zone_result testClearance testIntersects
          (run_zone_task testClearance testIntersects cancelled ps task) ;;
        collect_futures testClearance testIntersects ps rest cancelled
  end.

Definition indexed {A} (l : list A) : list (nat * A) :=
  List.combine (List.seq 0 (length l)) l.

Definition testZonesToZones : DRC unit :=
  do st <- get_trace;
  let testClearance := negb (IsErrorLimitExceeded eng st DRCE_CLEARANCE) in
  let testIntersects := negb (IsErrorLimitExceeded eng st DRCE_ZONES_INTERSECT) in
  let zones := indexed (m_DRCCopperZones brd) in
  do r <- submit_layers copper_layer_ids zones
            (replicate (length (m_DRCCopperZones brd)) ∅) [];
  match r with
  | Return _ => ret tt
  | Next (ps, futures) => collect_futures testClearance testIntersects ps futures false
  end.

End Provider.

(** ** Run *)

Definition reportPhase (eng : DRC_ENGINE) (msg : string) : DRC bool :=
  do st <- get_trace;
  emit (EvPhase msg) ;;
  ret (ReportPhase eng st msg).

(** A phase of [Run] behind its [reportPhase] guard: [Return false] when the
    run was cancelled. *)
Definition run_phase (eng : DRC_ENGINE) (msg : string) (test : DRC unit)
  : DRC (FLOW bool unit) :=
  do continue <- reportPhase eng msg;
  if negb continue then ret (Return false)
  else test ;; ret (Next tt).

Definition skip_phase : DRC (FLOW bool unit) := ret (Next tt).

(** Sequencing of blocks that may return from the function. *)
Definition and_then {R A B} (m : DRC (FLOW R A)) (k : A -> DRC (FLOW R B))
  : DRC (FLOW R B) :=
  do r <- m;
  match r with
  | Return v => ret (Return v)
  | Next a => k a
  end.

Definition Run (eng : DRC_ENGINE) (brd : BOARD) : DRC bool :=
  if m_DRCMaxClearance brd <=? 0 then
    emit (EvAux "No Clearance constraints found. Tests not run.") ;;
    ret true
  else
    let m_drcEpsilon := GetDRCEpsilon brd in
    let limit code := do st <- get_trace; ret (IsErrorLimitExceeded eng st code) in
    do r <-
      and_then
        (do clr <- limit DRCE_CLEARANCE;
         if negb clr
         then run_phase eng "Checking track & via clearances..."
                (testTrackClearances eng brd m_drcEpsilon)
         else
           do hole <- limit DRCE_HOLE_CLEARANCE;
           if negb hole
           then run_phase eng "Checking hole clearances..."
                  (testTrackClearances eng brd m_drcEpsilon)
           else skip_phase)
      (fun _ => and_then
        (do clr <- limit DRCE_CLEARANCE;
         if negb clr
         then run_phase eng "Checking pad clearances..."
                (testPadClearances eng brd m_drcEpsilon)
         else
           do short <- limit DRCE_SHORTING_ITEMS;
           do hole <- limit DRCE_HOLE_CLEARANCE;
           if negb short || negb hole
           then run_phase eng "Checking pads..." (testPadClearances eng brd m_drcEpsilon)
           else skip_phase)
      (fun _ => and_then
        (do clr <- limit DRCE_CLEARANCE;
         if negb clr
         then run_phase eng "Checking copper graphic clearances..."
                (testGraphicClearances eng brd m_drcEpsilon)
         else skip_phase)
      (fun _ =>
        (do clr <- limit DRCE_CLEARANCE;
         if negb clr
         then run_phase eng "Checking copper zone clearances..."
                (testZonesToZones eng brd)
         else
           do inter <- limit DRCE_ZONES_INTERSECT;
           if negb inter
           then run_phase eng "Checking zones..." (testZonesToZones eng brd)
           else skip_phase))));
    match r with
    | Return v => ret v
    | Next _ =>
        emit EvRuleStatistics ;;
        do st <- get_trace;
        ret (negb (IsCancelled eng st))
    end.

(** ** Geometry of the example boards *)

Module Geometry.

Definition vsub (a b : VECTOR2I) : VECTOR2I := {| vx := vx a - vx b; vy := vy a - vy b |}.
Definition Cross (a b : VECTOR2I) : Z := vx a * vy b - vy a * vx b.
Definition Dot (a b : VECTOR2I) : Z := vx a * vx b + vy a * vy b.

(** Modelled from the spec: [SEG::Intersect] is declared in geometry/seg.h,
    which is not part of the sources at hand.  It yields the point where two
    segments truly cross and nothing for parallel segments or segments that
    miss each other. *)
Definition Intersect (s t : SEG) : option VECTOR2I :=
  let e := vsub (seg_B s) (seg_A s) in
  let f := vsub (seg_B t) (seg_A t) in
  let ac := vsub (seg_A t) (seg_A s) in
  let d := Cross f e in
  let p := Cross f ac in
  let q := Cross e ac in
  if d =? 0 then None
  else if (0 <? d) && ((q <? 0) || (d <? q) || (p <? 0) || (d <? p)) then None
  else if (d <? 0) && ((q <? d) || (p <? d) || (0 <? p) || (0 <? q)) then None
  else Some {| vx := vx (seg_A t) + q * vx f / d; vy := vy (seg_A t) + q * vy f / d |}.

(** Squared distance from the point [p] to the segment [a b] (rounded down
    when the foot of the perpendicular is not on the grid). *)
Definition dist2_point_segment (p a b : VECTOR2I) : Z :=
  let ab := vsub b a in
  let ap := vsub p a in
  let len2 := Dot ab ab in
  let t := Dot ap ab in
  if (len2 =? 0) || (t <=? 0) then Dot ap ap
  else if len2 <=? t then Dot (vsub p b) (vsub p b)
  else Cross ab ap * Cross ab ap / len2.

(** Whether two segments have a point in common. *)
Definition segments_meet (a1 b1 a2 b2 : VECTOR2I) : bool :=
  let o1 := Z.sgn (Cross (vsub b1 a1) (vsub a2 a1)) in
  let o2 := Z.sgn (Cross (vsub b1 a1) (vsub b2 a1)) in
  let o3 := Z.sgn (Cross (vsub b2 a2) (vsub a1 a2)) in
  let o4 := Z.sgn (Cross (vsub b2 a2) (vsub b1 a2)) in
  (o1 * o2 <=? 0) && (o3 * o4 <=? 0)
  && (Z.min (vx a1) (vx b1) <=? Z.max (vx a2) (vx b2))
  && (Z.min (vx a2) (vx b2) <=? Z.max (vx a1) (vx b1))
  && (Z.min (vy a1) (vy b1) <=? Z.max (vy a2) (vy b2))
  && (Z.min (vy a2) (vy b2) <=? Z.max (vy a1) (vy b1)).

(** Modelled from the spec: [GetClearanceBetweenSegments] is declared in
    math_for_graphics.h, which is not part of the sources at hand.  It is the
    minimum distance between two segments of widths [w1] and [w2]: 0 when
    they meet, else the least distance from an end point of one to the other,
    less the half widths.  The point is written when the segments cross. *)
Definition GetClearanceBetweenSegments (x1i y1i x1f y1f w1 x2i y2i x2f y2f w2 max_cl : Z)
    (pt : VECTOR2I) : Z * VECTOR2I :=
  let a1 := {| vx := x1i; vy := y1i |} in
  let b1 := {| vx := x1f; vy := y1f |} in
  let a2 := {| vx := x2i; vy := y2i |} in
  let b2 := {| vx := x2f; vy := y2f |} in
  if segments_meet a1 b1 a2 b2 then
    (0, default a1 (Intersect {| seg_A := a1; seg_B := b1 |} {| seg_A := a2; seg_B := b2 |}))
  else
    let d2 := Z.min (Z.min (dist2_point_segment a1 a2 b2) (dist2_point_segment b1 a2 b2))
                    (Z.min (dist2_point_segment a2 a1 b1) (dist2_point_segment b2 a1 b1)) in
    (Z.max 0 (Z.sqrt d2 - (w1 + w2) / 2), pt).

(** [BOX2I::Inflate] and [BOX2I::Intersects] of the example boards. *)
Definition Inflate (b : BOX2I) (d : Z) : BOX2I :=
  {| box_x := box_x b - d; box_y := box_y b - d;
     box_w := box_w b + 2 * d; box_h := box_h b + 2 * d |}.

Definition Intersects (a b : BOX2I) : bool :=
  (box_x a <=? box_x b + box_w b) && (box_x b <=? box_x a + box_w a)
  && (box_y a <=? box_y b + box_h b) && (box_y b <=? box_y a + box_h a).

(** The segment an example item is drawn as, and its collision test: items
    are zero-width strokes from [GetStart] to [GetEnd], holes are discs of
    diameter [GetDrill] at [GetPosition]. *)
Definition stroke (s : SHAPE) : SEG * Z :=
  match s with
  | EffectiveShape i _ => ({| seg_A := GetStart i; seg_B := GetEnd i |}, 0)
  | EffectiveHoleShape i => ({| seg_A := GetPosition i; seg_B := GetPosition i |}, GetDrill i)
  end.

Definition Collide (a : SHAPE) (b : option SHAPE) (clearance : Z) : option (Z * VECTOR2I) :=
  match b with
  | None => None
  | Some b =>
      let '(sa, wa) := stroke a in
      let '(sb, wb) := stroke b in
      let (d, pt) :=
        GetClearanceBetweenSegments
          (vx (seg_A sa)) (vy (seg_A sa)) (vx (seg_B sa)) (vy (seg_B sa)) wa
          (vx (seg_A sb)) (vy (seg_A sb)) (vx (seg_B sb)) (vy (seg_B sb)) wb
          clearance (seg_A sa) in
      if (d =? 0) || (d <? clearance) then Some (d, pt) else None
  end.

End Geometry.

(** ** Example boards and engines *)

Module Examples.

Definition pt (x y : Z) : VECTOR2I := {| vx := x; vy := y |}.

Definition bbox (a b : VECTOR2I) : BOX2I :=
  {| box_x := Z.min (vx a) (vx b); box_y := Z.min (vy a) (vy b);
     box_w := Z.abs (vx b - vx a); box_h := Z.abs (vy b - vy a) |}.

(** An item at address [a]: a stroke from [p] to [q] on the layers [ls]. *)
Definition item (a : Z) (t : KICAD_T) (net : Z) (ls : LSET) (hole : bool)
    (p q : VECTOR2I) (parent : Z) (number : string) (drill : Z) : BOARD_ITEM :=
  {| addr := a; Type_ := t; GetParent := parent; GetLayer := F_Cu; GetLayerSet := ls;
     IsOnLayer := LSET_test ls; HasHole := hole; GetNetCode := net;
     GetBoundingBox := bbox p q; GetPosition := p; GetStart := p; GetEnd := q;
     GetDrill := drill; GetAttribute := if hole then PTH else SMD;
     FlashLayer := LSET_test ls; GetDrillSize_x := drill; GetNumber := number;
     IsFreePad := false; IsKnockout := false; GetIsRuleArea := false |}.

Definition trace (a net : Z) (p q : VECTOR2I) : BOARD_ITEM :=
  item a PCB_TRACE_T net (LSET_of F_Cu) false p q 0 "" 0.

Definition via (a net : Z) (p : VECTOR2I) (drill : Z) : BOARD_ITEM :=
  item a PCB_VIA_T net (N.lor (LSET_of F_Cu) (LSET_of B_Cu)) true p p 0 "" drill.

Definition pad (a net : Z) (p : VECTOR2I) (parent : Z) (number : string) (drill : Z)
  : BOARD_ITEM :=
  item a PCB_PAD_T net (N.lor (LSET_of F_Cu) (LSET_of B_Cu)) (0 <? drill) p p parent
       number drill.

Definition zone (a net : Z) (p q : VECTOR2I) : BOARD_ITEM :=
  item a PCB_ZONE_T net (LSET_of F_Cu) false p q 0 "" 0.

Definition rule (value : Z) (severity : SEVERITY) : DRC_CONSTRAINT :=
  {| GetValue_Min := value; GetSeverity := severity; GetName := "rule";
     GetParentRule := Some 1 |}.

(** An engine that is never cancelled: [limits] are the error limits
    reached, [rules] the constraint of each kind for every pair. *)
Definition engine (limits : PCB_DRC_CODE -> bool) (reportAll : bool)
    (rules : DRC_CONSTRAINT_T -> DRC_CONSTRAINT) : DRC_ENGINE :=
  {| IsErrorLimitExceeded := fun _ code => limits code;
     IsCancelled := fun _ => false;
     ReportPhase := fun _ _ => true;
     ReportProgress := fun _ _ _ _ => true;
     GetReportAllTrackErrors := reportAll;
     EvalRules := fun kind _ _ _ => rules kind;
     IsNetTieExclusion := fun _ _ _ _ => false |}.

Definition no_limits (code : PCB_DRC_CODE) : bool := false.

(** The zone tree of an example zone holds the stroke of the zone. *)
Definition zone_query (zone : BOARD_ITEM) (box : BOX2I) (s : SHAPE) (layer : PCB_LAYER_ID)
    (clearance : Z) : option (Z * VECTOR2I) :=
  Geometry.Collide s (Some (EffectiveShape zone layer)) clearance.

(** Modelled from the spec: [SEG::operator<] is declared in geometry/seg.h,
    which is not part of the sources at hand.  The boundary segments are
    sorted by one coordinate: here by the first end point (x, then y), then
    by the second. *)
Definition VECTOR2I_ltb (a b : VECTOR2I) : bool :=
  (vx a <? vx b) || ((vx a =? vx b) && (vy a <? vy b)).

Definition VECTOR2I_eqb (a b : VECTOR2I) : bool := (vx a =? vx b) && (vy a =? vy b).

Definition SEG_ltb (s t : SEG) : bool :=
  if VECTOR2I_eqb (seg_A s) (seg_A t) then VECTOR2I_ltb (seg_B s) (seg_B t)
  else VECTOR2I_ltb (seg_A s) (seg_A t).

Fixpoint insert_segment (s : SEG) (l : list SEG) : list SEG :=
  match l with
  | [] => [s]
  | t :: rest => if SEG_ltb t s then t :: insert_segment s rest else s :: l
  end.

Definition sort_segments (l : list SEG) : list SEG := fold_right insert_segment [] l.

(** A board: its items, the items its copper R-tree yields for a query, and
    the fractured outline of its zones. *)
Definition board (maxClearance : Z) (tracks : list BOARD_ITEM) (footprints : list FOOTPRINT)
    (drawings zones : list BOARD_ITEM)
    (rtree : BOARD_ITEM -> PCB_LAYER_ID -> list BOARD_ITEM)
    (outline : BOARD_ITEM -> PCB_LAYER_ID -> list SEG) : BOARD :=
  {| m_DRCMaxClearance := maxClearance;
     GetDRCEpsilon := 0;
     boardCopperLayers := N.lor (LSET_of F_Cu) (LSET_of B_Cu);
     IsLayerEnabled := fun l => (l =? F_Cu)%N || (l =? B_Cu)%N;
     Tracks := tracks;
     Footprints := footprints;
     Drawings := drawings;
     m_DRCCopperZones := zones;
     Collide := Geometry.Collide;
     SEG_Intersect := Geometry.Intersect;
     SameLogicalPadAs := fun a b =>
       (GetParent a =? GetParent b) && String.eqb (GetNumber a) (GetNumber b);
     MapPadNumbersToNetTieGroups := fun _ => {[ "1" := -1; "2" := -1 ]};
     BOX2I_Inflate := Geometry.Inflate;
     BOX2I_Intersects := Geometry.Intersects;
     CopperItemRTree := rtree;
     HasZoneTree := fun _ => true;
     ZoneTree_QueryColliding := zone_query;
     ZoneTree_Collides := fun zone box s layer => bool_decide (is_Some (zone_query zone box s layer 0));
     IterateSegmentsWithHoles := outline;
     BBoxFromCaches := fun zone _ => GetBoundingBox zone;
     std_sort := sort_segments;
     GetClearanceBetweenSegments := Geometry.GetClearanceBetweenSegments |}.

Definition no_rtree (i : BOARD_ITEM) (l : PCB_LAYER_ID) : list BOARD_ITEM := [].
Definition no_outline (i : BOARD_ITEM) (l : PCB_LAYER_ID) : list SEG := [].

(** Two traces of different nets crossing at (5, 5). *)
Definition trackA : BOARD_ITEM := trace 100 1 (pt 0 0) (pt 10 10).
Definition trackB : BOARD_ITEM := trace 200 2 (pt 0 10) (pt 10 0).

Definition crossing_board : BOARD :=
  board 5 [trackA; trackB] [] [] [] (fun i _ => if addr i =? 100 then [trackB] else [trackA])
        no_outline.

Definition clearance5 (kind : DRC_CONSTRAINT_T) : DRC_CONSTRAINT := rule 5 RPT_SEVERITY_ERROR.

(** A board without clearance constraints. *)
Definition unconstrained_board : BOARD :=
  board 0 [trackA; trackB] [] [] [] (fun i _ => if addr i =? 100 then [trackB] else [trackA])
        no_outline.

(** The horizontal segments of the sweep example: the test segment starts
    one unit after the reference segment ends. *)
Definition refSeg : SEG := {| seg_A := pt 0 0; seg_B := pt 10 0 |}.
Definition testSeg : SEG := {| seg_A := pt 11 0; seg_B := pt 20 0 |}.

(** Two square zones of different nets whose fills overlap in the square
    from (5, 5) to (10, 10). *)
Definition zoneA : BOARD_ITEM := zone 300 1 (pt 0 0) (pt 10 10).
Definition zoneB : BOARD_ITEM := zone 400 2 (pt 5 5) (pt 15 15).

Definition square (p q : VECTOR2I) : list SEG :=
  [ {| seg_A := pt (vx p) (vy p); seg_B := pt (vx q) (vy p) |};
    {| seg_A := pt (vx q) (vy p); seg_B := pt (vx q) (vy q) |};
    {| seg_A := pt (vx q) (vy q); seg_B := pt (vx p) (vy q) |};
    {| seg_A := pt (vx p) (vy q); seg_B := pt (vx p) (vy p) |} ].

Definition overlapping_zones_board : BOARD :=
  board 6 [] [] [] [zoneA; zoneB] no_rtree
        (fun z _ => square (GetStart z) (GetEnd z)).

Definition clearance6 (kind : DRC_CONSTRAINT_T) : DRC_CONSTRAINT := rule 6 RPT_SEVERITY_ERROR.

(** Two square zones whose outlines cross at the first segments the sweep
    compares. *)
Definition zoneC : BOARD_ITEM := zone 500 2 (pt 5 (-5)) (pt 15 5).

Definition crossing_zones_board : BOARD :=
  board 3 [] [] [] [zoneA; zoneC] no_rtree
        (fun z _ => square (GetStart z) (GetEnd z)).

Definition clearance3 (kind : DRC_CONSTRAINT_T) : DRC_CONSTRAINT := rule 3 RPT_SEVERITY_ERROR.

Definition crossing_zones_segments : poly_segments_t :=
  build_poly_segments crossing_zones_board F_Cu
    (indexed (m_DRCCopperZones crossing_zones_board)) (replicate 2 ∅).

Definition crossing_zones_task : zone_task :=
  {| zt_zoneA := 0; zt_zoneB := 1; zt_clearance := 3; zt_layer := F_Cu |}.

(** Two through-hole pads of one footprint carrying the same number, on
    different nets, and a third pad of another number. *)
Definition padA : BOARD_ITEM := pad 600 1 (pt 0 0) 50 "1" 4.
Definition padB : BOARD_ITEM := pad 700 2 (pt 20 0) 50 "1" 4.
Definition padC : BOARD_ITEM := pad 800 3 (pt 40 0) 50 "2" 4.

Definition pads_board : BOARD :=
  board 5 [] [ {| fp_addr := 50; Pads := [padA; padB; padC]; GraphicalItems := [] |} ] [] []
        (fun i _ => List.filter (fun o => negb (addr o =? addr i)) [padA; padB; padC])
        no_outline.

(** A pad of another number lying inside the hole of [padD], and the rules
    under which only the hole clearance, resolved to 0, is enforced. *)
Definition padD : BOARD_ITEM := pad 900 4 (pt 1 0) 50 "2" 4.

Definition hole_clearance0 (kind : DRC_CONSTRAINT_T) : DRC_CONSTRAINT :=
  match kind with
  | CLEARANCE_CONSTRAINT => rule 5 RPT_SEVERITY_IGNORE
  | HOLE_CLEARANCE_CONSTRAINT => rule 0 RPT_SEVERITY_ERROR
  end.

(** A via whose hole the trace [trackA] runs through. *)
Definition viaA : BOARD_ITEM := via 150 3 (pt 5 5) 4.

(** The rules that ignore every pair. *)
Definition ignore_all (kind : DRC_CONSTRAINT_T) : DRC_CONSTRAINT :=
  rule 5 RPT_SEVERITY_IGNORE.

(** The engine whose SHORTING_ITEMS error limit is reached. *)
Definition shorting_limit (code : PCB_DRC_CODE) : bool :=
  PCB_DRC_CODE_eqb code DRCE_SHORTING_ITEMS.

(** An item with its flags set: a free pad, a knockout text, a rule area. *)
Definition flagged (i : BOARD_ITEM) (freePad knockout ruleArea : bool) : BOARD_ITEM :=
  {| addr := addr i; Type_ := Type_ i; GetParent := GetParent i; GetLayer := GetLayer i;
     GetLayerSet := GetLayerSet i; IsOnLayer := IsOnLayer i; HasHole := HasHole i;
     GetNetCode := GetNetCode i; GetBoundingBox := GetBoundingBox i;
     GetPosition := GetPosition i; GetStart := GetStart i; GetEnd := GetEnd i;
     GetDrill := GetDrill i; GetAttribute := GetAttribute i; FlashLayer := FlashLayer i;
     GetDrillSize_x := GetDrillSize_x i; GetNumber := GetNumber i;
     IsFreePad := freePad; IsKnockout := knockout; GetIsRuleArea := ruleArea |}.

(** A pad without a hole, on the outer layers only. *)
Definition smdPad : BOARD_ITEM := pad 970 5 (pt 0 0) 50 "3" 0.

(** A second pad of that footprint; the net-tie map of the example boards
    knows neither number. *)
Definition smdPad2 : BOARD_ITEM := pad 980 6 (pt 30 0) 50 "4" 0.

(** An engine that is cancelled throughout, but whose phase reports are
    answered with [true]. *)
Definition cancelled_engine (rules : DRC_CONSTRAINT_T -> DRC_CONSTRAINT) : DRC_ENGINE :=
  {| IsErrorLimitExceeded := fun _ _ => false;
     IsCancelled := fun _ => true;
     ReportPhase := fun _ _ => true;
     ReportProgress := fun _ _ _ _ => true;
     GetReportAllTrackErrors := false;
     EvalRules := fun kind _ _ _ => rules kind;
     IsNetTieExclusion := fun _ _ _ _ => false |}.

(** A free pad lying on [trackA]. *)
Definition freePad : BOARD_ITEM := flagged (pad 950 0 (pt 5 5) 0 "1" 0) true false false.

(** A knockout text from (0, 15) to (10, 15), 5 away from [zoneA] ... *)
Definition knockoutText : BOARD_ITEM :=
  flagged (item 960 PCB_TEXT_T 0 (LSET_of F_Cu) false (pt 0 15) (pt 10 15) 0 "" 0)
          false true false.

(** ... and the engine for which the CLEARANCE limit is reached and the
    SHORTING_ITEMS limit is not. *)
Definition clearance_limit (code : PCB_DRC_CODE) : bool :=
  PCB_DRC_CODE_eqb code DRCE_CLEARANCE.

(** A track, two pads of other footprints and a zone that carry net 1 and
    lie within the clearance of each other, and a pad of net 2 among them. *)
Definition trackS : BOARD_ITEM := trace 110 1 (pt 0 0) (pt 10 0).
Definition padS1 : BOARD_ITEM := pad 610 1 (pt 5 0) 60 "1" 4.
Definition padS2 : BOARD_ITEM := pad 620 1 (pt 6 0) 61 "1" 4.
Definition padO : BOARD_ITEM := pad 630 2 (pt 8 0) 62 "1" 0.
Definition zoneS : BOARD_ITEM := zone 310 1 (pt 0 0) (pt 10 0).

Definition same_net_board : BOARD :=
  board 5 [trackS]
        [ {| fp_addr := 60; Pads := [padS1]; GraphicalItems := [] |};
          {| fp_addr := 61; Pads := [padS2]; GraphicalItems := [] |};
          {| fp_addr := 62; Pads := [padO]; GraphicalItems := [] |} ]
        [] [zoneS]
        (fun i _ => List.filter (fun o => negb (addr o =? addr i)) [trackS; padS1; padS2; padO])
        no_outline.

(** An item as a pad of the given attribute, flashed on every layer or on
    none. *)
Definition as_pad (i : BOARD_ITEM) (attribute : PAD_ATTRIB) (flashed : bool) : BOARD_ITEM :=
  {| addr := addr i; Type_ := Type_ i; GetParent := GetParent i; GetLayer := GetLayer i;
     GetLayerSet := GetLayerSet i; IsOnLayer := IsOnLayer i; HasHole := HasHole i;
     GetNetCode := GetNetCode i; GetBoundingBox := GetBoundingBox i;
     GetPosition := GetPosition i; GetStart := GetStart i; GetEnd := GetEnd i;
     GetDrill := GetDrill i; GetAttribute := attribute; FlashLayer := fun _ => flashed;
     GetDrillSize_x := GetDrillSize_x i; GetNumber := GetNumber i;
     IsFreePad := IsFreePad i; IsKnockout := IsKnockout i; GetIsRuleArea := GetIsRuleArea i |}.

(** An NPTH pad of net 3 lying on [trackS], flashed on no layer, and the
    same pad flashed. *)
Definition npthPad : BOARD_ITEM := as_pad (pad 640 3 (pt 5 0) 63 "1" 4) NPTH false.
Definition npthPadFlashed : BOARD_ITEM := as_pad (pad 640 3 (pt 5 0) 63 "1" 4) NPTH true.

End Examples.

(** ** The base class [BOARD_ITEM] (include/board_item.h)

    The layer methods the provider calls through its item pointers, as the
    base class implements them for an item that lives on one layer. *)

Module Base.

(** Modelled from the spec: [UNDEFINED_LAYER] is declared in layer_ids.h,
    which is not part of the sources at hand: the value -1 of the enumeration
    [PCB_LAYER_ID], below the layers 0 .. PCB_LAYER_ID_COUNT - 1.  The layer
    of an item is kept as an integer here, so that it can be undefined. *)
Definition UNDEFINED_LAYER : Z := -1.

(** The data members of [BOARD_ITEM]. *)
Record BOARD_ITEM_BASE := {
  m_layer : Z;
  m_isKnockout : bool;
  m_isLocked : bool;
  m_group : option Z
}.

Definition GetLayer (i : BOARD_ITEM_BASE) : Z := m_layer i.

Definition GetLayerSet (i : BOARD_ITEM_BASE) : LSET :=
  if m_layer i =? UNDEFINED_LAYER then LSET_empty
  else LSET_of (Z.to_N (m_layer i)).

Definition SetLayer (aLayer : Z) (i : BOARD_ITEM_BASE) : BOARD_ITEM_BASE :=
  {| m_layer := aLayer; m_isKnockout := m_isKnockout i; m_isLocked := m_isLocked i;
     m_group := m_group i |}.

(** [LSET::count()]: the number of layers in the set. *)
Definition LSET_count (s : LSET) : nat := length (LSET_Seq s).

(** [SetLayerSet]: a set of one layer sets the layer; any other set trips an
    assertion of debug builds and changes nothing. *)
Definition SetLayerSet (aLayers : LSET) (i : BOARD_ITEM_BASE) : BOARD_ITEM_BASE :=
  if Nat.eqb (LSET_count aLayers) 1
  then SetLayer (Z.of_N (hd 0%N (LSET_Seq aLayers))) i
  else i.

Definition IsOnLayer (i : BOARD_ITEM_BASE) (aLayer : Z) : bool := m_layer i =? aLayer.

(** A layer of the enumeration that is a real layer. *)
Definition is_layer (l : Z) : Prop := 0 <= l < Z.of_nat PCB_LAYER_ID_COUNT.

End Base.

(** ** Vocabulary of the properties *)

(** Every event a computation adds to the trace satisfies [P]. *)
Definition emits {A} (P : EVENT -> Prop) (m : DRC A) : Prop :=
  forall st, exists ev, snd (m st) = st ++ ev /\ Forall P ev.

(** Every event a computation adds satisfies [P], and its result [Q]. *)
Definition yields {A} (P : EVENT -> Prop) (Q : A -> Prop) (m : DRC A) : Prop :=
  forall st, exists ev, snd (m st) = st ++ ev /\ Forall P ev /\ Q (fst (m st)).

(** The violations of kind [code] in a trace. *)
Definition is_violation (code : PCB_DRC_CODE) (e : EVENT) : bool :=
  match e with
  | EvViolation item _ _ => PCB_DRC_CODE_eqb (GetErrorCode item) code
  | _ => false
  end.

Definition any_violation (e : EVENT) : bool :=
  match e with EvViolation _ _ _ => true | _ => false end.

(** A geometric test made for a clearance constraint: solid shape against
    solid shape, the crossing test of two traces, a zone sweep. *)
Definition is_clearance_test (e : EVENT) : bool :=
  match e with
  | EvIntersect _ _ => true
  | EvCollide _ (Some (EffectiveShape _ _)) _ => true
  | EvZoneQuery _ (EffectiveShape _ _) _ _ => true
  | EvCheckZones _ _ _ _ => true
  | _ => false
  end.

(** A geometric test made for a hole clearance constraint: a shape against a
    hole shape. *)
Definition is_hole_test (e : EVENT) : bool :=
  match e with
  | EvCollide _ (Some (EffectiveHoleShape _)) _ => true
  | EvCollide _ None _ => true
  | EvZoneQuery _ (EffectiveHoleShape _) _ _ => true
  | _ => false
  end.

(** The pads and the graphic items of a board. *)
Definition all_pads (brd : BOARD) : list BOARD_ITEM := flat_map Pads (Footprints brd).

Definition all_graphics (brd : BOARD) : list BOARD_ITEM :=
  Drawings brd ++ flat_map GraphicalItems (Footprints brd).

(** Two items carry the same non-zero net code: both are connected items,
    and their net codes are equal and not 0. *)
Definition same_nonzero_net (a b : BOARD_ITEM) : bool :=
  IsConnected a && IsConnected b && (GetNetCode a =? GetNetCode b)
  && negb (GetNetCode a =? 0).

(** An event that is not a CLEARANCE or HOLE_CLEARANCE violation between two
    items of the same non-zero net. *)
Definition net_ok (e : EVENT) : Prop :=
  match e with
  | EvViolation item _ _ =>
      PCB_DRC_CODE_eqb (GetErrorCode item) DRCE_CLEARANCE
      || PCB_DRC_CODE_eqb (GetErrorCode item) DRCE_HOLE_CLEARANCE = true ->
      same_nonzero_net (GetMainItem item) (GetAuxItem item) = false
  | _ => True
  end.

(** *** What each pairwise test may emit

    For every test, the events it can add to the trace, each with the guards
    under which the code reaches it. *)

Section EventSpecs.

Variable eng : DRC_ENGINE.
Variable brd : BOARD.

Definition not_ignored (kind : DRC_CONSTRAINT_T) (a b : BOARD_ITEM) (layer : PCB_LAYER_ID)
  : Prop :=
  is_IGNORE (GetSeverity (EvalRules eng kind a b layer)) = false.

Definition positive (kind : DRC_CONSTRAINT_T) (a b : BOARD_ITEM) (layer : PCB_LAYER_ID)
  : Prop :=
  0 < GetValue_Min (EvalRules eng kind a b layer).

(** [testTrackAgainstItem( track, trackShape, layer, other )]. *)
Inductive track_item_event (track : BOARD_ITEM) (trackShape : SHAPE) (layer : PCB_LAYER_ID)
    (other : BOARD_ITEM) : EVENT -> Prop :=
| tie_intersect s :
    not_ignored CLEARANCE_CONSTRAINT track other layer ->
    positive CLEARANCE_CONSTRAINT track other layer ->
    track_item_event track trackShape layer other (EvIntersect s s)
| tie_crossing rule pos :
    not_ignored CLEARANCE_CONSTRAINT track other layer ->
    positive CLEARANCE_CONSTRAINT track other layer ->
    track_item_event track trackShape layer other
      (EvViolation (mkDRC_ITEM DRCE_TRACKS_CROSSING MsgNone track other rule) pos layer)
| tie_collide c :
    not_ignored CLEARANCE_CONSTRAINT track other layer ->
    positive CLEARANCE_CONSTRAINT track other layer ->
    track_item_event track trackShape layer other
      (EvCollide trackShape (Some (EffectiveShape other layer)) c)
| tie_clearance msg rule pos :
    not_ignored CLEARANCE_CONSTRAINT track other layer ->
    positive CLEARANCE_CONSTRAINT track other layer ->
    track_item_event track trackShape layer other
      (EvViolation (mkDRC_ITEM DRCE_CLEARANCE msg track other rule) pos layer)
| tie_hole_collide a b a_shape c :
    a = track /\ b = other \/ a = other /\ b = track ->
    not_ignored HOLE_CLEARANCE_CONSTRAINT b a layer ->
    track_item_event track trackShape layer other (EvCollide a_shape (holeShapeOf b layer) c)
| tie_hole a b msg rule pos :
    a = track /\ b = other \/ a = other /\ b = track ->
    not_ignored HOLE_CLEARANCE_CONSTRAINT b a layer ->
    track_item_event track trackShape layer other
      (EvViolation (mkDRC_ITEM DRCE_HOLE_CLEARANCE msg a b rule) pos layer).

(** [testPadAgainstItem( pad, padShape, aLayer, other )]. *)
Inductive pad_item_event (pad : BOARD_ITEM) (padShape : SHAPE) (aLayer : PCB_LAYER_ID)
    (other : BOARD_ITEM) : EVENT -> Prop :=
| pie_shorting :
    Type_ other = PCB_PAD_T ->
    SameLogicalPadAs brd pad other = true ->
    pad_item_event pad padShape aLayer other
      (EvViolation (mkDRC_ITEM DRCE_SHORTING_ITEMS
                               (MsgNets (GetNetCode pad) (GetNetCode other)) pad other None)
                   (GetPosition other) aLayer)
| pie_collide c :
    is_PCB_TRACK (Type_ other) = false ->
    not_ignored CLEARANCE_CONSTRAINT pad other aLayer ->
    positive CLEARANCE_CONSTRAINT pad other aLayer ->
    pad_item_event pad padShape aLayer other
      (EvCollide padShape (Some (EffectiveShape other aLayer)) c)
| pie_clearance msg rule pos :
    is_PCB_TRACK (Type_ other) = false ->
    (Type_ other = PCB_PAD_T -> GetNetCode other = 0 \/ GetNetCode other <> GetNetCode pad) ->
    not_ignored CLEARANCE_CONSTRAINT pad other aLayer ->
    positive CLEARANCE_CONSTRAINT pad other aLayer ->
    pad_item_event pad padShape aLayer other
      (EvViolation (mkDRC_ITEM DRCE_CLEARANCE msg pad other rule) pos aLayer)
| pie_hole_collide solid hole c :
    not_ignored HOLE_CLEARANCE_CONSTRAINT pad other aLayer ->
    positive HOLE_CLEARANCE_CONSTRAINT pad other aLayer ->
    pad_item_event pad padShape aLayer other
      (EvCollide solid (Some (EffectiveHoleShape hole)) c)
| pie_hole msg rule pos :
    Type_ other = PCB_PAD_T \/ Type_ other = PCB_VIA_T ->
    GetNetCode other = 0 \/ GetNetCode other <> GetNetCode pad ->
    not_ignored HOLE_CLEARANCE_CONSTRAINT pad other aLayer ->
    positive HOLE_CLEARANCE_CONSTRAINT pad other aLayer ->
    pad_item_event pad padShape aLayer other
      (EvViolation (mkDRC_ITEM DRCE_HOLE_CLEARANCE msg pad other rule) pos aLayer).

(** [testItemAgainstZone( aItem, aZone, aLayer )]. *)
Inductive zone_item_event (aItem aZone : BOARD_ITEM) (aLayer : PCB_LAYER_ID)
  : EVENT -> Prop :=
| zie_query c :
    not_ignored CLEARANCE_CONSTRAINT aItem aZone aLayer ->
    positive CLEARANCE_CONSTRAINT aItem aZone aLayer ->
    zone_item_event aItem aZone aLayer
      (EvZoneQuery aZone (EffectiveShape aItem aLayer) aLayer c)
| zie_clearance msg rule pos :
    negb (GetNetCode aZone =? 0) && IsConnected aItem
      && (GetNetCode aZone =? GetNetCode aItem) = false ->
    not_ignored CLEARANCE_CONSTRAINT aItem aZone aLayer ->
    positive CLEARANCE_CONSTRAINT aItem aZone aLayer ->
    zone_item_event aItem aZone aLayer
      (EvViolation (mkDRC_ITEM DRCE_CLEARANCE msg aItem aZone rule) pos aLayer)
| zie_hole_query c :
    not_ignored HOLE_CLEARANCE_CONSTRAINT aItem aZone aLayer ->
    positive HOLE_CLEARANCE_CONSTRAINT aItem aZone aLayer ->
    zone_item_event aItem aZone aLayer
      (EvZoneQuery aZone (EffectiveHoleShape aItem) aLayer c)
| zie_hole msg rule pos :
    negb (GetNetCode aZone =? 0) && IsConnected aItem
      && (GetNetCode aZone =? GetNetCode aItem) = false ->
    not_ignored HOLE_CLEARANCE_CONSTRAINT aItem aZone aLayer ->
    positive HOLE_CLEARANCE_CONSTRAINT aItem aZone aLayer ->
    zone_item_event aItem aZone aLayer
      (EvViolation (mkDRC_ITEM DRCE_HOLE_CLEARANCE msg aItem aZone rule) pos aLayer).

(** [testKnockoutTextAgainstZone( aText, aInheritedNet, aZone )]. *)
Inductive knockout_event (aText aZone : BOARD_ITEM) : EVENT -> Prop :=
| ke_touch :
    knockout_event aText aZone
      (EvZoneTouch aZone (EffectiveShape aText (GetLayer aText)) (GetLayer aText))
| ke_query c :
    not_ignored CLEARANCE_CONSTRAINT aText aZone (GetLayer aText) ->
    knockout_event aText aZone
      (EvZoneQuery aZone (EffectiveShape aText (GetLayer aText)) (GetLayer aText) c)
| ke_shorting msg rule pos :
    not_ignored CLEARANCE_CONSTRAINT aText aZone (GetLayer aText) ->
    knockout_event aText aZone
      (EvViolation (mkDRC_ITEM DRCE_SHORTING_ITEMS msg aText aZone rule) pos (GetLayer aText))
| ke_clearance msg rule pos :
    not_ignored CLEARANCE_CONSTRAINT aText aZone (GetLayer aText) ->
    knockout_event aText aZone
      (EvViolation (mkDRC_ITEM DRCE_CLEARANCE msg aText aZone rule) pos (GetLayer aText)).

End EventSpecs.

(** *** Counting clearance violations *)

(** A clearance violation is counted under the canonical key of its two
    items and its layer. *)
Definition KEY : Type := Z * Z * PCB_LAYER_ID.

Definition pair_key (x y : Z) : Z * Z := if y <? x then (y, x) else (x, y).

Definition item_key (a b : BOARD_ITEM) (layer : PCB_LAYER_ID) : KEY :=
  (canonical_key a b, layer).

Definition clearance_key (e : EVENT) : option KEY :=
  match e with
  | EvViolation item _ layer =>
      if PCB_DRC_CODE_eqb (GetErrorCode item) DRCE_CLEARANCE
      then Some (item_key (GetMainItem item) (GetAuxItem item) layer)
      else None
  | _ => None
  end.

Definition hits (K : KEY) (e : EVENT) : bool := bool_decide (clearance_key e = Some K).

(** The number of CLEARANCE violations of key [K] in a trace. *)
Definition occurrences (K : KEY) (ev : TRACE) : nat := length (List.filter (hits K) ev).

(** The number of CLEARANCE violations between the items at the addresses
    [x] and [y], in either order, on [layer]. *)
Definition clearance_violations_between (x y : Z) (layer : PCB_LAYER_ID) (ev : TRACE) : nat :=
  occurrences (pair_key x y, layer) ev.

Definition one_if (K k0 : KEY) : nat := if bool_decide (K = k0) then 1 else 0.

(** A computation adds at most [B K] CLEARANCE violations of each key [K]. *)
Definition bounded_by {A} (B : KEY -> nat) (m : DRC A) : Prop :=
  forall st, exists ev, snd (m st) = st ++ ev /\ forall K, (occurrences K ev <= B K)%nat.

(** A computation adds at most [n] CLEARANCE violations. *)
Definition at_most {A} (n : nat) (m : DRC A) : Prop :=
  forall st, exists ev,
    snd (m st) = st ++ ev
    /\ (length (List.filter (is_violation DRCE_CLEARANCE) ev) <= n)%nat.

Definition not_clearance (e : EVENT) : Prop := is_violation DRCE_CLEARANCE e = false.

(** Whether the memo of the track phase records the pair of [K] as tested
    on the layer of [K], and whether the memo of the pad phase records the
    pair. *)
Definition layer_tested (cp : gmap (Z * Z) layers_checked) (K : KEY) : bool :=
  match cp !! K.1 with
  | Some it => LSET_test (layers it) K.2
  | None => false
  end.

Definition pair_tested (cp : gmap (Z * Z) Z) (K : KEY) : bool :=
  bool_decide (is_Some (cp !! K.1)).

Definition as_nat (b : bool) : nat := if b then 1%nat else 0%nat.

(** The items indexed by the copper item R-tree. *)
Definition copper_items (brd : BOARD) : list BOARD_ITEM :=
  Tracks brd ++ all_pads brd ++ all_graphics brd.

(** A board whose items are distinct objects, whose tracks are tracks, and
    whose copper item R-tree yields copper items of the board (zones are
    indexed by their own trees). *)
Definition well_formed_board (brd : BOARD) : Prop :=
  List.NoDup (List.map addr (copper_items brd ++ m_DRCCopperZones brd))
  /\ (forall t, In t (Tracks brd) -> is_PCB_TRACK (Type_ t) = true)
  /\ (forall item layer other,
        In other (CopperItemRTree brd item layer) -> In other (copper_items brd)).

(** How often the key [K] stands in a schedule of tests. *)
Definition scheduled (K : KEY) (schedule : list KEY) : nat :=
  list_sum (List.map (one_if K) schedule).

(** The tests of an item against the zones, over the layers given. *)
Definition zone_schedule (zones : list BOARD_ITEM) (item : BOARD_ITEM)
    (layerSeq : list PCB_LAYER_ID) : list KEY :=
  flat_map (fun layer => List.map (fun zone => item_key item zone layer) zones) layerSeq.

(** Whether a key has the address of a track, or of a zone, of the board. *)
Definition is_addr_of (items : list BOARD_ITEM) (x : Z) : bool :=
  existsb (fun i => addr i =? x) items.

Definition has_track (brd : BOARD) (K : KEY) : bool :=
  is_addr_of (Tracks brd) K.1.1 || is_addr_of (Tracks brd) K.1.2.

Definition has_zone (brd : BOARD) (K : KEY) : bool :=
  is_addr_of (m_DRCCopperZones brd) K.1.1 || is_addr_of (m_DRCCopperZones brd) K.1.2.

(** The keys of the pairs tested by the track query and by the pad query. *)
Definition track_class (brd : BOARD) (K : KEY) : bool :=
  has_track brd K && negb (has_zone brd K).

Definition pad_class (brd : BOARD) (K : KEY) : bool :=
  negb (has_track brd K) && negb (has_zone brd K).

(** The result of a computation satisfies [Q], whatever the trace. *)
Definition returns {A} (Q : A -> Prop) (m : DRC A) : Prop := forall st, Q (fst (m st)).

(** The potential of a key in the memo of the track phase and in the memo of
    the pad phase. *)
Definition track_bit (brd : BOARD) (m : track_memo) (K : KEY) : bool :=
  layer_tested (tm_checkedPairs m) K && track_class brd K.

Definition pad_bit (brd : BOARD) (cp : gmap (Z * Z) Z) (K : KEY) : bool :=
  pair_tested cp K && pad_class brd K.

(** The zone tests of a list of items, each with the layers it is tested
    on: tracks and pads on their copper layers, graphic items on their own
    layer. *)
Definition work_schedule (zones : list BOARD_ITEM)
    (work : list (BOARD_ITEM * list PCB_LAYER_ID)) : list KEY :=
  flat_map (fun w => zone_schedule zones w.1 w.2) work.

Definition layered (brd : BOARD) (items : list BOARD_ITEM)
  : list (BOARD_ITEM * list PCB_LAYER_ID) :=
  List.map (fun i => (i, copper_layers_of brd i)) items.

Definition on_own_layer (items : list BOARD_ITEM) : list (BOARD_ITEM * list PCB_LAYER_ID) :=
  List.map (fun i => (i, [GetLayer i])) items.

Definition layered_schedule (brd : BOARD) (items : list BOARD_ITEM) : list KEY :=
  work_schedule (m_DRCCopperZones brd) (layered brd items).

Definition own_layer_schedule (brd : BOARD) (items : list BOARD_ITEM) : list KEY :=
  work_schedule (m_DRCCopperZones brd) (on_own_layer items).

(** The zone pairs tested on a layer, and on all copper layers. *)
Fixpoint pairs_schedule (layer : PCB_LAYER_ID) (zones : list BOARD_ITEM) : list KEY :=
  match zones with
  | [] => []
  | zoneA :: rest =>
      List.map (fun zoneB => item_key zoneA zoneB layer) rest ++ pairs_schedule layer rest
  end.

Definition zone_pair_schedule (brd : BOARD) (layerIds : list PCB_LAYER_ID) : list KEY :=
  flat_map (fun layer => pairs_schedule layer (m_DRCCopperZones brd)) layerIds.

(** The key under which the result of a task is reported. *)
Definition task_key (brd : BOARD) (task : zone_task) : list KEY :=
  match m_DRCCopperZones brd !! zt_zoneA task, m_DRCCopperZones brd !! zt_zoneB task with
  | Some zoneA, Some zoneB => [item_key zoneA zoneB (zt_layer task)]
  | _, _ => []
  end.

Definition task_keys (brd : BOARD) (futures : list zone_task) : list KEY :=
  flat_map (task_key brd) futures.

(** The weight of a candidate of the track query and of the pad query: what
    testing it may add to the violations of a key. *)
Definition track_weight (brd : BOARD) (track : BOARD_ITEM) (layer : PCB_LAYER_ID)
    (other : BOARD_ITEM) (K : KEY) : nat :=
  if track_class brd K then one_if K (item_key track other layer) else 0%nat.

Definition pad_weight (brd : BOARD) (pad other : BOARD_ITEM) (K : KEY) : nat :=
  if pad_class brd K then as_nat (bool_decide (K.1 = canonical_key pad other)) else 0%nat.

(** The potential after a loop of the pad phase that may have returned. *)
Definition pad_bit_after {R} (brd : BOARD) (r : FLOW R (gmap (Z * Z) Z)) (K : KEY) : nat :=
  match r with
  | Next cp => as_nat (pad_bit brd cp K)
  | Return _ => as_nat (pad_class brd K)
  end.

(** All the zone tests of a run, and the bound they give on the CLEARANCE
    violations of a key. *)
Definition run_work (brd : BOARD) : list (BOARD_ITEM * list PCB_LAYER_ID) :=
  layered brd (Tracks brd) ++ layered brd (all_pads brd) ++ on_own_layer (all_graphics brd).

Definition run_schedule (brd : BOARD) : list KEY :=
  work_schedule (m_DRCCopperZones brd) (run_work brd)
  ++ zone_pair_schedule brd copper_layer_ids.

Definition run_bound (brd : BOARD) (K : KEY) : nat :=
  (as_nat (track_class brd K) + as_nat (pad_class brd K) + scheduled K (run_schedule brd))%nat.

(** *** Vocabulary of the further properties *)

(** The error limit of [code] is reached whenever the provider asks. *)
Definition limit_reached (eng : DRC_ENGINE) (code : PCB_DRC_CODE) : Prop :=
  forall st, IsErrorLimitExceeded eng st code = true.

(** A computation started in the trace [st] adds the events [ev] and returns
    [a], with [R st a ev]. *)
Definition delivers {A} (R : TRACE -> A -> TRACE -> Prop) (m : DRC A) : Prop :=
  forall st, exists ev, snd (m st) = st ++ ev /\ R st (fst (m st)) ev.

(** The number of violations in a trace, and whether it holds one. *)
Definition violations (ev : TRACE) : nat := length (List.filter any_violation ev).

Definition reports (ev : TRACE) : bool := existsb any_violation ev.

(** The trace ends with a phase report that the engine answered with
    [false]. *)
Definition stopped_by_phase_report (eng : DRC_ENGINE) (st : TRACE) : Prop :=
  exists st0 msg, st = st0 ++ [EvPhase msg] /\ ReportPhase eng st0 msg = false.

(** What a guarded phase of [Run] leaves: a [return false] right after the
    phase report. *)
Definition phase_post (eng : DRC_ENGINE) (r : FLOW bool unit) (st : TRACE) : Prop :=
  match r with
  | Return v => v = false /\ stopped_by_phase_report eng st
  | Next _ => True
  end.

(** The kinds of the violations in a trace, in the order they were
    reported. *)
Definition reported_codes (ev : TRACE) : list PCB_DRC_CODE :=
  flat_map (fun e => match e with
                     | EvViolation item _ _ => [GetErrorCode item]
                     | _ => []
                     end) ev.

(** The checked pairs of the pad phase after a series of calls of its
    filter. *)
Definition pad_filter_calls (calls : list (BOARD_ITEM * PCB_LAYER_ID * BOARD_ITEM))
    (checkedPairs : gmap (Z * Z) Z) : gmap (Z * Z) Z :=
  fold_left (fun cp c => snd (pad_filter c.1.1 c.1.2 c.2 cp)) calls checkedPairs.

(** What the two lambdas of the track query do to the checked pairs: the
    filter records a layer for a pair, the visitor marks a pair as having an
    error. *)
Inductive track_memo_op :=
| FilterCall (track : BOARD_ITEM) (layer : PCB_LAYER_ID) (other : BOARD_ITEM)
| MarkError (track other : BOARD_ITEM).

Definition track_memo_ops (eng : DRC_ENGINE) (ops : list track_memo_op)
    (checkedPairs : gmap (Z * Z) layers_checked) : gmap (Z * Z) layers_checked :=
  fold_left (fun cp op =>
               match op with
               | FilterCall track layer other => snd (track_filter eng track layer other cp)
               | MarkError track other =>
                   alter set_has_error (canonical_key track other) cp
               end) ops checkedPairs.

(** A pair of zones that the zone phase tests on a layer. *)
Definition zone_pair_tested (eng : DRC_ENGINE) (brd : BOARD) (zoneA zoneB : BOARD_ITEM)
    (layer : PCB_LAYER_ID) : Prop :=
  IsLayerEnabled brd layer = true
  /\ IsOnLayer zoneA layer = true /\ IsOnLayer zoneB layer = true
  /\ (GetNetCode zoneA =? GetNetCode zoneB) && (0 <=? GetNetCode zoneA) = false
  /\ GetIsRuleArea zoneA = false /\ GetIsRuleArea zoneB = false
  /\ BOX2I_Intersects brd (BBoxFromCaches brd zoneA layer) (BBoxFromCaches brd zoneB layer)
     = true
  /\ is_IGNORE (GetSeverity (EvalRules eng CLEARANCE_CONSTRAINT zoneA zoneB layer)) = false
  /\ 0 < GetValue_Min (EvalRules eng CLEARANCE_CONSTRAINT zoneA zoneB layer).

(** A task of the zone phase for such a pair. *)
Definition task_tested (eng : DRC_ENGINE) (brd : BOARD) (task : zone_task) : Prop :=
  exists zoneA zoneB,
    m_DRCCopperZones brd !! zt_zoneA task = Some zoneA
    /\ m_DRCCopperZones brd !! zt_zoneB task = Some zoneB
    /\ zone_pair_tested eng brd zoneA zoneB (zt_layer task).

(** What the zone phase may report: ZONES_INTERSECT and CLEARANCE violations
    between two zones of the board that it tests on the layer. *)
Definition zone_phase_event (eng : DRC_ENGINE) (brd : BOARD) (e : EVENT) : Prop :=
  match e with
  | EvViolation item _ layer =>
      In (GetMainItem item) (m_DRCCopperZones brd)
      /\ In (GetAuxItem item) (m_DRCCopperZones brd)
      /\ zone_pair_tested eng brd (GetMainItem item) (GetAuxItem item) layer
      /\ (GetErrorCode item = DRCE_ZONES_INTERSECT \/ GetErrorCode item = DRCE_CLEARANCE)
  | _ => True
  end.

(** A segment that runs from left to right, a table of segment lists that
    holds such segments only, and a sort that adds no segment. *)
Definition oriented (s : SEG) : Prop := vx (seg_A s) <= vx (seg_B s).

Definition all_oriented (ps : poly_segments_t) : Prop :=
  forall ii layer seg, In seg (poly_segments_at ps ii layer) -> oriented seg.

Definition sort_keeps_members (brd : BOARD) : Prop :=
  forall l seg, In seg (std_sort brd l) -> In seg l.

(** The distance the sweep takes between a reference segment and a test
    segment, and the point it gets with it. *)
Definition segment_distance (brd : BOARD) (clearance : Z) (ref test : SEG) : Z * VECTOR2I :=
  GetClearanceBetweenSegments brd
    (vx (seg_A test)) (vy (seg_A test)) (vx (seg_B test)) (vy (seg_B test)) 0
    (vx (seg_A ref)) (vy (seg_A ref)) (vx (seg_B ref)) (vy (seg_B ref)) 0
    clearance {| vx := 0; vy := 0 |}.

(** The result of a sweep names a pair of segments of the two lists that is
    closer than the clearance. *)
Definition conflict_found (brd : BOARD) (clearance : Z) (refs tests : list SEG)
    (data : report_data) : Prop :=
  exists ref test,
    In ref refs /\ In test tests
    /\ segment_distance brd clearance ref test = (rd_actual data, rd_pt data)
    /\ rd_actual data < clearance.

(** Who may be reported under which kind by a run: crossing tracks are two
    traces, intersecting zones are two zones of the board, shorting items are
    a pad and a pad that is the same logical pad with another net, or a
    knockout text and a zone of the board. *)
Definition run_event (brd : BOARD) (e : EVENT) : Prop :=
  match e with
  | EvViolation item _ _ =>
      let main := GetMainItem item in
      let aux := GetAuxItem item in
      match GetErrorCode item with
      | DRCE_TRACKS_CROSSING => Type_ main = PCB_TRACE_T /\ Type_ aux = PCB_TRACE_T
      | DRCE_ZONES_INTERSECT =>
          In main (m_DRCCopperZones brd) /\ In aux (m_DRCCopperZones brd)
      | DRCE_SHORTING_ITEMS =>
          (Type_ aux = PCB_PAD_T /\ SameLogicalPadAs brd main aux = true
           /\ GetNetCode main <> 0 /\ GetNetCode aux <> 0
           /\ GetNetCode main <> GetNetCode aux)
          \/ (isKnockoutText main = true /\ In aux (m_DRCCopperZones brd))
      | _ => True
      end
  | _ => True
  end.

(** What the graphic phase may report: a graphic item of the board that is
    not a bitmap, on its own layer, which is a copper layer, against a copper
    zone of the board. *)
Definition graphic_phase_event (brd : BOARD) (e : EVENT) : Prop :=
  match e with
  | EvViolation item _ layer =>
      In (GetMainItem item) (all_graphics brd)
      /\ In (GetAuxItem item) (m_DRCCopperZones brd)
      /\ layer = GetLayer (GetMainItem item)
      /\ IsCopperLayer layer = true
      /\ KICAD_T_eqb (Type_ (GetMainItem item)) PCB_BITMAP_T = false
  | _ => True
  end.

(** A layer on which a track or a pad of the board is tested: a layer of the
    item that is a copper layer of the board. *)
Definition tested_layer (brd : BOARD) (item : BOARD_ITEM) (layer : PCB_LAYER_ID) : Prop :=
  LSET_test (GetLayerSet item) layer = true
  /\ LSET_test (boardCopperLayers brd) layer = true.

(** What the track phase may report: a track of the board and a candidate
    of its R-tree query on the layer, in either order for a hole, or the
    track and a copper zone; always on a tested layer of the track. *)
Definition track_phase_event (brd : BOARD) (e : EVENT) : Prop :=
  match e with
  | EvViolation item _ layer =>
      exists track other,
        In track (Tracks brd) /\ tested_layer brd track layer
        /\ (In other (CopperItemRTree brd track layer) \/ In other (m_DRCCopperZones brd))
        /\ (GetMainItem item = track /\ GetAuxItem item = other
            \/ GetMainItem item = other /\ GetAuxItem item = track
               /\ GetErrorCode item = DRCE_HOLE_CLEARANCE)
  | _ => True
  end.

(** What the pad phase may report: a pad of the board, as main item, against
    a candidate of its R-tree query on the layer or a copper zone, on a
    tested layer of the pad. *)
Definition pad_phase_event (brd : BOARD) (e : EVENT) : Prop :=
  match e with
  | EvViolation item _ layer =>
      In (GetMainItem item) (all_pads brd)
      /\ tested_layer brd (GetMainItem item) layer
      /\ (In (GetAuxItem item) (CopperItemRTree brd (GetMainItem item) layer)
          \/ In (GetAuxItem item) (m_DRCCopperZones brd))
  | _ => True
  end.

(** An event that is no test made for a clearance constraint and no
    violation found by one. *)
Definition no_clearance_test (e : EVENT) : Prop :=
  is_clearance_test e = false /\ is_violation DRCE_CLEARANCE e = false
  /\ is_violation DRCE_TRACKS_CROSSING e = false.

(** The engine is cancelled whenever the provider asks. *)
Definition cancelled (eng : DRC_ENGINE) : Prop := forall st, IsCancelled eng st = true.

(** [padToNetTieGroupMap[ pad->GetNumber() ]]: the net-tie group of a pad in
    the map of its footprint; [operator[]] gives 0 for a number the map does
    not hold. *)
Definition net_tie_group (brd : BOARD) (pad : BOARD_ITEM) : Z :=
  default 0 (MapPadNumbersToNetTieGroups brd (GetParent pad) !! GetNumber pad).

(** A zone that an item can be reported against on a layer: the zone is on
    the layer, the zone has an R-tree of its fill, and its bounding box meets
    the bounding box of the item inflated by the largest clearance of the
    board. *)
Definition zone_in_reach (brd : BOARD) (item zone : BOARD_ITEM) (layer : PCB_LAYER_ID)
  : Prop :=
  LSET_test (GetLayerSet zone) layer = true
  /\ HasZoneTree brd zone = true
  /\ BOX2I_Intersects brd (BOX2I_Inflate brd (GetBoundingBox item) (m_DRCMaxClearance brd))
                      (GetBoundingBox zone) = true.

(** The hole test of the track path: the solid shape of [a] against the
    hole of [b], within max(0, clearance - epsilon). *)
Definition hole_test (eng : DRC_ENGINE) (eps : Z) (layer : PCB_LAYER_ID)
    (a : BOARD_ITEM) (a_shape : SHAPE) (b : BOARD_ITEM) : EVENT :=
  EvCollide a_shape (holeShapeOf b layer)
    (Z.max 0 (GetValue_Min (EvalRules eng HOLE_CLEARANCE_CONSTRAINT b a layer) - eps)).

(** The clearance test of a pair has ended the call of
    [testTrackAgainstItem]: a crossing was reported, or a clearance violation
    while not all track errors are reported. *)
Definition ended_by_clearance (eng : DRC_ENGINE) (ev : TRACE) : Prop :=
  reported_codes ev = [DRCE_TRACKS_CROSSING]
  \/ GetReportAllTrackErrors eng = false /\ reported_codes ev = [DRCE_CLEARANCE].

(** The first round of the hole loop has ended the call: it made its test
    and the last violation reported is a hole clearance violation. *)
Definition ended_by_hole (eng : DRC_ENGINE) (eps : Z) (layer : PCB_LAYER_ID)
    (a : BOARD_ITEM) (a_shape : SHAPE) (b : BOARD_ITEM) (ev : TRACE) : Prop :=
  In (hole_test eng eps layer a a_shape b) ev
  /\ last (reported_codes ev) = Some DRCE_HOLE_CLEARANCE.

(** The touch test of a knockout text that has no net yet is reached and
    finds the zone: one of the CLEARANCE and SHORTING_ITEMS error limits is
    not reached, the zone is on the layer of the text and in reach, it has an
    R-tree of its fill, and the text collides with the fill. *)
Definition knockout_touches (eng : DRC_ENGINE) (brd : BOARD) (st : TRACE)
    (aText aZone : BOARD_ITEM) : bool :=
  let layer := GetLayer aText in
  (negb (IsErrorLimitExceeded eng st DRCE_CLEARANCE)
   || negb (IsErrorLimitExceeded eng st DRCE_SHORTING_ITEMS))
  && LSET_test (GetLayerSet aZone) layer
  && BOX2I_Intersects brd (BOX2I_Inflate brd (GetBoundingBox aText) (m_DRCMaxClearance brd))
                      (GetBoundingBox aZone)
  && HasZoneTree brd aZone
  && ZoneTree_Collides brd aZone (GetBoundingBox aText) (EffectiveShape aText layer) layer.

(** The kind and the two items (by address) of the violations in a trace. *)
Definition violation_pairs (ev : TRACE) : list (PCB_DRC_CODE * Z * Z) :=
  flat_map (fun e => match e with
                     | EvViolation item _ _ =>
                         [(GetErrorCode item, addr (GetMainItem item), addr (GetAuxItem item))]
                     | _ => []
                     end) ev.




(** The boundaries cross: a reference segment and a test segment touch
    (distance 0), the test segment starting no later than the reference
    segment ends. *)
Definition crossing (brd : BOARD) (clearance : Z) (ref test : SEG) : Prop :=
  fst (segment_distance brd clearance ref test) = 0 /\ vx (seg_A test) <= vx (seg_B ref).









(** * Properties *)

Local Open Scope drc_scope.

(** ** Run without clearance constraints *)

(** C10: when the board's maximum clearance [m_DRCMaxClearance] is not
    positive, [Run] tests nothing and reports no violation (all it does is the
    auxiliary message) and returns [true], so that the other providers run. *)
Theorem Run_without_clearance_constraints (eng : DRC_ENGINE) (brd : BOARD) (st : TRACE) :
  m_DRCMaxClearance brd <= 0 ->
  Run eng brd st = (true, st ++ [EvAux "No Clearance constraints found. Tests not run."]).
Proof.
  intros Hmax. unfold Run.
  destruct (m_DRCMaxClearance brd <=? 0) eqn:E; [reflexivity | lia].
Qed.

Lemma Run_without_clearance_constraints_witness :
  m_DRCMaxClearance Examples.unconstrained_board <= 0
  /\ Run (Examples.engine Examples.no_limits false Examples.clearance5)
         Examples.unconstrained_board []
     = (true, [EvAux "No Clearance constraints found. Tests not run."]).
Proof.
  split.
  - simpl. lia.
  - apply (Run_without_clearance_constraints
             (Examples.engine Examples.no_limits false Examples.clearance5)
             Examples.unconstrained_board []).
    simpl. lia.
Defined.

(** ** Reasoning about what a computation emits *)

Lemma emits_ret {A} (P : EVENT -> Prop) (a : A) : emits P (ret a).
Proof. intros st. exists []. simpl. rewrite app_nil_r. auto. Qed.

Lemma emits_get (P : EVENT -> Prop) : emits P get_trace.
Proof. intros st. exists []. simpl. rewrite app_nil_r. auto. Qed.

Lemma emits_emit (P : EVENT -> Prop) (e : EVENT) : P e -> emits P (emit e).
Proof. intros He st. exists [e]. simpl. auto. Qed.

Lemma emits_bind {A B} (P : EVENT -> Prop) (m : DRC A) (k : A -> DRC B) :
  emits P m -> (forall a, emits P (k a)) -> emits P (bind m k).
Proof.
  intros Hm Hk st. unfold bind.
  destruct (Hm st) as [ev1 [E1 F1]].
  destruct (m st) as [a st1]. simpl in E1. subst st1.
  destruct (Hk a (st ++ ev1)) as [ev2 [E2 F2]].
  exists (ev1 ++ ev2). rewrite E2, app_assoc. split; [reflexivity |].
  apply Forall_app; auto.
Qed.

Lemma emits_weaken {A} (P Q : EVENT -> Prop) (m : DRC A) :
  (forall e, P e -> Q e) -> emits P m -> emits Q m.
Proof.
  intros HPQ Hm st. destruct (Hm st) as [ev [E F]].
  exists ev. split; [exact E |]. eapply Forall_impl; eauto.
Qed.

Lemma yields_ret {A} (P : EVENT -> Prop) (Q : A -> Prop) (a : A) : Q a -> yields P Q (ret a).
Proof. intros HQ st. exists []. simpl. rewrite app_nil_r. auto. Qed.

Lemma yields_emit (P : EVENT -> Prop) (Q : unit -> Prop) (e : EVENT) :
  P e -> Q tt -> yields P Q (emit e).
Proof. intros He HQ st. exists [e]. simpl. auto. Qed.

Lemma yields_bind {A B} (P : EVENT -> Prop) (Q1 : A -> Prop) (Q : B -> Prop)
    (m : DRC A) (k : A -> DRC B) :
  yields P Q1 m -> (forall a, Q1 a -> yields P Q (k a)) -> yields P Q (bind m k).
Proof.
  intros Hm Hk st. unfold bind.
  destruct (Hm st) as [ev1 [E1 [F1 HQ1]]].
  destruct (m st) as [a st1]. simpl in E1, HQ1. subst st1.
  destruct (Hk a HQ1 (st ++ ev1)) as [ev2 [E2 [F2 HQ]]].
  exists (ev1 ++ ev2). rewrite E2, app_assoc. split; [reflexivity |].
  split; [apply Forall_app; auto | exact HQ].
Qed.

Lemma yields_emits {A} (P : EVENT -> Prop) (Q : A -> Prop) (m : DRC A) :
  yields P Q m -> emits P m.
Proof. intros Hm st. destruct (Hm st) as [ev [E [F _]]]. exists ev. auto. Qed.

Lemma emits_yields {A} (P : EVENT -> Prop) (m : DRC A) :
  emits P m -> yields P (fun _ => True) m.
Proof. intros Hm st. destruct (Hm st) as [ev [E F]]. exists ev. auto. Qed.

Lemma emits_bind_yields {A B} (P : EVENT -> Prop) (Q : A -> Prop)
    (m : DRC A) (k : A -> DRC B) :
  yields P Q m -> (forall a, Q a -> emits P (k a)) -> emits P (bind m k).
Proof.
  intros Hm Hk. apply yields_emits with (Q := fun _ => True).
  eapply yields_bind; [exact Hm |]. intros a Ha. apply emits_yields. auto.
Qed.

(** One step through the syntax of a computation. *)
Ltac emits_step :=
  lazymatch goal with
  | |- emits _ (ret _) => apply emits_ret
  | |- emits _ get_trace => apply emits_get
  | |- emits _ (bind _ _) => apply emits_bind; [| intros ?]
  | |- emits _ (emit _) => apply emits_emit
  | |- emits _ (reportViolation _ _ _) => apply emits_emit
  | |- emits _ (doCollide _ _ _ _) => unfold doCollide
  | |- emits _ (if ?c then _ else _) => destruct c eqn:?
  | |- emits _ (match ?x with _ => _ end) => destruct x eqn:?
  end.

Ltac emits_auto := repeat emits_step.

Ltac yields_step :=
  lazymatch goal with
  | |- yields _ _ (ret _) => apply yields_ret
  | |- yields _ _ (bind _ _) =>
      eapply yields_bind; [apply emits_yields | intros ? _]
  | |- yields _ _ (if ?c then _ else _) => destruct c eqn:?
  | |- yields _ _ (match ?x with _ => _ end) => destruct x eqn:?
  end.

(** ** Crossing tracks *)

(** C1: evaluation of [testTrackAgainstItem] on two traces of different nets
    that cross at (5, 5), with a clearance of 5.  The crossing test is made
    between the first track's segment and itself ([otherSeg] is built from
    [track], not from [other]), finds nothing, and the pair is reported as a
    plain CLEARANCE violation instead of TRACKS_CROSSING. *)
Theorem crossing_tracks_reported_as_clearance :
  let trackSeg := {| seg_A := GetStart Examples.trackA; seg_B := GetEnd Examples.trackA |} in
  let otherSeg := {| seg_A := GetStart Examples.trackB; seg_B := GetEnd Examples.trackB |} in
  SEG_Intersect Examples.crossing_board trackSeg otherSeg = Some (Examples.pt 5 5)
  /\ testTrackAgainstItem (Examples.engine Examples.no_limits false Examples.clearance5)
       Examples.crossing_board 0 Examples.trackA (EffectiveShape Examples.trackA F_Cu) F_Cu
       Examples.trackB []
     = (false,
        [ EvIntersect trackSeg trackSeg;
          EvCollide (EffectiveShape Examples.trackA F_Cu)
                    (Some (EffectiveShape Examples.trackB F_Cu)) 5;
          EvViolation
            (mkDRC_ITEM DRCE_CLEARANCE (MsgClearance "rule" 5 0)
                        Examples.trackA Examples.trackB (Some 1))
            (Examples.pt 5 5) F_Cu ]).
Proof. split; vm_compute; reflexivity. Qed.

(** ** The zone-to-zone sweep *)

(** C3: evaluation of the sweep on a reference segment from (0, 0) to (10, 0)
    and a test segment from (11, 0) to (20, 0), both oriented and each list
    sorted, with a clearance of 5.  The segments are 1 apart, yet the inner
    loop leaves at [ax2 < bx1] before the distance is taken, for every
    distance function, and the sweep returns the invalid result. *)
Theorem sweep_skips_segment_within_clearance (brd : BOARD)
    (testClearance testIntersects cancelled : bool) (zoneA zoneB : Z)
    (layer : PCB_LAYER_ID) :
  fst (Geometry.GetClearanceBetweenSegments 11 0 20 0 0 0 0 10 0 0 5 (Examples.pt 0 0)) = 1
  /\ checkZones brd testClearance testIntersects cancelled zoneA zoneB 5 layer
       [Examples.refSeg] [Examples.testSeg]
     = invalid_result.
Proof. split; reflexivity. Qed.

(** The result of the sweep is either invalid or a conflict of the zone pair
    below the clearance, and of distance 0 when only intersections are
    tested. *)
Lemma checkZones_inner_result (brd : BOARD) (tc ti cancelled : bool) (zoneA zoneB c : Z)
    (layer : PCB_LAYER_ID) (ref : SEG) (tests : list SEG) (data : report_data) :
  checkZones_inner brd tc ti cancelled zoneA zoneB c layer ref tests = Return data ->
  data = invalid_result
  \/ (rd_zoneA data = zoneA /\ rd_zoneB data = zoneB /\ rd_required data = c
      /\ rd_layer data = layer /\ rd_actual data < c
      /\ (rd_actual data = 0 /\ ti = true \/ tc = true)).
Proof.
  induction tests as [| t rest IH]; simpl; [discriminate |].
  destruct (vx (seg_B ref) <? vx (seg_A t)); [discriminate |].
  destruct (GetClearanceBetweenSegments brd _ _ _ _ _ _ _ _ _ _ _ _) as [d pt'].
  destruct (d <? c) eqn:Hd.
  - destruct ((d =? 0) && ti) eqn:Hi.
    + intros [= <-]. right. simpl.
      apply andb_prop in Hi as [Hz Hti].
      repeat (split; [try reflexivity; lia |]). left. split; [lia | exact Hti].
    + destruct tc.
      * intros [= <-]. right. simpl.
        repeat (split; [try reflexivity; lia |]). right; reflexivity.
      * destruct cancelled; [intros [= <-]; left; reflexivity | exact IH].
  - destruct cancelled; [intros [= <-]; left; reflexivity | exact IH].
Qed.

Lemma checkZones_result (brd : BOARD) (tc ti cancelled : bool) (zoneA zoneB c : Z)
    (layer : PCB_LAYER_ID) (refs tests : list SEG) :
  let data := checkZones brd tc ti cancelled zoneA zoneB c layer refs tests in
  data = invalid_result
  \/ (rd_zoneA data = zoneA /\ rd_zoneB data = zoneB /\ rd_required data = c
      /\ rd_layer data = layer /\ rd_actual data < c
      /\ (rd_actual data = 0 /\ ti = true \/ tc = true)).
Proof.
  induction refs as [| r rest IH]; simpl; [left; reflexivity |].
  destruct (checkZones_inner brd tc ti cancelled zoneA zoneB c layer r tests) eqn:E.
  - eapply checkZones_inner_result; eauto.
  - exact IH.
Qed.


(** ** The checked-pair memos *)

Lemma LSET_test_set_other (s : LSET) (l1 l2 : PCB_LAYER_ID) :
  l2 <> l1 -> LSET_test (LSET_set s l1) l2 = LSET_test s l2.
Proof. intros Hne. unfold LSET_test, LSET_set. apply N.setbit_neq. congruence. Qed.

Lemma LSET_test_set_same (s : LSET) (l : PCB_LAYER_ID) :
  LSET_test (LSET_set s l) l = true.
Proof. unfold LSET_test, LSET_set. apply N.setbit_eq. Qed.

Lemma LSET_test_empty (l : PCB_LAYER_ID) : LSET_test LSET_empty l = false.
Proof. unfold LSET_test, LSET_empty. apply N.bits_0. Qed.

(** C5 (amended): the memo of the track phase is keyed per (ordered item
    pair, layer): that a pair was tested on one layer does not change whether
    it is tested on another layer, but once an error is recorded for the pair
    it is tested on another layer in report-all mode only.  The memo of the
    pad phase is keyed per ordered item pair alone: a pair tested on one layer
    is not tested on any other layer. *)
Theorem checked_pair_memo_keys (eng : DRC_ENGINE) (l1 l2 : PCB_LAYER_ID)
    (track other : BOARD_ITEM) (cp cp1 : gmap (Z * Z) layers_checked)
    (pad otherPad : BOARD_ITEM) (cpp cpp1 : gmap (Z * Z) Z) :
  l2 <> l1 ->
  track_filter eng track l1 other cp = (true, cp1) ->
  pad_filter pad l1 otherPad cpp = (true, cpp1) ->
  fst (track_filter eng track l2 other cp1) = fst (track_filter eng track l2 other cp)
  /\ fst (track_filter eng track l2 other
            (alter set_has_error (canonical_key track other) cp1))
     = GetReportAllTrackErrors eng && fst (track_filter eng track l2 other cp)
  /\ fst (pad_filter pad l2 otherPad cpp1) = false.
Proof.
  intros Hne Htrack Hpad. unfold track_filter in *.
  destruct (is_BOARD_CONNECTED_ITEM (Type_ other) && (GetNetCode other =? GetNetCode track));
    [discriminate |].
  set (key := canonical_key track other) in *.
  split; [| split].
  - destruct (cp !! key) as [it |] eqn:Hcp.
    + destruct (LSET_test (layers it) l1 || has_error it && negb (GetReportAllTrackErrors eng));
        [discriminate |].
      injection Htrack as <-. rewrite lookup_insert_eq. cbn [fst layers has_error].
      rewrite LSET_test_set_other by exact Hne.
      destruct (LSET_test (layers it) l2 || has_error it && negb (GetReportAllTrackErrors eng));
        reflexivity.
    + injection Htrack as <-. rewrite lookup_insert_eq. cbn [fst layers has_error].
      rewrite LSET_test_set_other, LSET_test_empty by exact Hne. reflexivity.
  - destruct (cp !! key) as [it |] eqn:Hcp.
    + destruct (LSET_test (layers it) l1 || has_error it && negb (GetReportAllTrackErrors eng));
        [discriminate |].
      injection Htrack as <-. rewrite lookup_alter_eq, lookup_insert_eq. cbn [fst layers has_error fmap option_fmap option_map set_has_error].
      rewrite LSET_test_set_other by exact Hne.
      destruct (LSET_test (layers it) l2), (has_error it), (GetReportAllTrackErrors eng);
        reflexivity.
    + injection Htrack as <-. rewrite lookup_alter_eq, lookup_insert_eq. cbn [fst layers has_error fmap option_fmap option_map set_has_error].
      rewrite LSET_test_set_other, LSET_test_empty by exact Hne.
      destruct (GetReportAllTrackErrors eng); reflexivity.
  - unfold pad_filter in *.
    destruct (cpp !! canonical_key pad otherPad) eqn:Hcpp; [discriminate |].
    injection Hpad as <-. rewrite lookup_insert_eq. reflexivity.
Qed.

Lemma checked_pair_memo_keys_witness :
  fst (track_filter (Examples.engine Examples.no_limits false Examples.clearance5)
         Examples.trackA B_Cu Examples.trackB {[ (100, 200) := {| layers := 1%N; has_error := false |} ]})
  = true
  /\ fst (pad_filter Examples.padA B_Cu Examples.padC {[ (600, 800) := 1 ]}) = false.
Proof.
  destruct (checked_pair_memo_keys
              (Examples.engine Examples.no_limits false Examples.clearance5) F_Cu B_Cu
              Examples.trackA Examples.trackB ∅
              {[ (100, 200) := {| layers := 1%N; has_error := false |} ]}
              Examples.padA Examples.padC ∅ {[ (600, 800) := 1 ]}
              ltac:(discriminate) eq_refl eq_refl) as [Ht [_ Hp]].
  split; [rewrite Ht; reflexivity | exact Hp].
Defined.

(** C5 (as stated) fails in the pad phase: two pads that share F_Cu and B_Cu
    are accepted by the filter on F_Cu and rejected on B_Cu. *)
Lemma pad_pair_not_tested_on_second_layer :
  LSET_test (GetLayerSet Examples.padA) B_Cu = true
  /\ LSET_test (GetLayerSet Examples.padC) B_Cu = true
  /\ fst (pad_filter Examples.padA F_Cu Examples.padC ∅) = true
  /\ fst (pad_filter Examples.padA B_Cu Examples.padC
            (snd (pad_filter Examples.padA F_Cu Examples.padC ∅))) = false.
Proof. repeat split; reflexivity. Qed.

(** ** Pads that are the same logical pad *)

(** C9 (amended): between two pads that are the same logical pad no
    CLEARANCE violation is reported; when both carry non-zero and different
    net codes and the SHORTING_ITEMS error limit is not reached, the one
    thing reported for the pair is a SHORTING_ITEMS violation. *)
Theorem same_logical_pads (eng : DRC_ENGINE) (brd : BOARD) (eps : Z)
    (pad : BOARD_ITEM) (padShape : SHAPE) (aLayer : PCB_LAYER_ID) (other : BOARD_ITEM)
    (st : TRACE) :
  Type_ other = PCB_PAD_T ->
  SameLogicalPadAs brd pad other = true ->
  emits (fun e => is_violation DRCE_CLEARANCE e = false)
        (testPadAgainstItem eng brd eps pad padShape aLayer other)
  /\ (GetNetCode pad <> 0 -> GetNetCode other <> 0 -> GetNetCode pad <> GetNetCode other ->
      IsErrorLimitExceeded eng st DRCE_SHORTING_ITEMS = false ->
      snd (testPadAgainstItem eng brd eps pad padShape aLayer other st)
      = st ++ [EvViolation
                 (mkDRC_ITEM DRCE_SHORTING_ITEMS
                             (MsgNets (GetNetCode pad) (GetNetCode other)) pad other None)
                 (GetPosition other) aLayer]).
Proof.
  intros Htype Hsame. split.
  - unfold testPadAgainstItem.
    apply emits_bind; [apply emits_get | intros st0].
    destruct (testPadAgainstItem_flags brd pad aLayer other _ _) as [tc th].
    rewrite Htype, Hsame. simpl.
    emits_auto; reflexivity.
  - intros Hp Ho Hne Hlimit.
    unfold testPadAgainstItem, bind, get_trace.
    destruct (testPadAgainstItem_flags brd pad aLayer other _ _) as [tc th].
    rewrite Hlimit, Htype, Hsame. simpl.
    apply Z.eqb_neq in Hp, Ho, Hne. rewrite Hp, Ho, Hne.
    destruct tc; reflexivity.
Qed.

Lemma same_logical_pads_witness :
  snd (testPadAgainstItem (Examples.engine Examples.no_limits false Examples.clearance5)
         Examples.pads_board 0 Examples.padA (EffectiveShape Examples.padA F_Cu) F_Cu
         Examples.padB [])
  = [EvViolation
       (mkDRC_ITEM DRCE_SHORTING_ITEMS (MsgNets 1 2) Examples.padA Examples.padB None)
       (Examples.pt 20 0) F_Cu].
Proof.
  apply (proj2 (same_logical_pads
                  (Examples.engine Examples.no_limits false Examples.clearance5)
                  Examples.pads_board 0 Examples.padA (EffectiveShape Examples.padA F_Cu)
                  F_Cu Examples.padB [] eq_refl eq_refl));
    simpl; (discriminate || reflexivity).
Defined.

(** C9 (as stated) fails once the SHORTING_ITEMS error limit is reached: the
    two pads are the same logical pad and carry the nets 1 and 2, and nothing
    is reported for them. *)
Lemma shorting_pads_not_reported_after_limit :
  SameLogicalPadAs Examples.pads_board Examples.padA Examples.padB = true
  /\ GetNetCode Examples.padA = 1 /\ GetNetCode Examples.padB = 2
  /\ testPadAgainstItem (Examples.engine Examples.shorting_limit false Examples.clearance5)
       Examples.pads_board 0 Examples.padA (EffectiveShape Examples.padA F_Cu) F_Cu
       Examples.padB []
     = (true, []).
Proof. repeat split; reflexivity. Qed.

(** ** Hole tests at clearance 0 *)

Ltac case_ifs :=
  repeat match goal with
         | |- context [if ?c then _ else _] => destruct c
         end.

Lemma holeShapeOf_not_clearance_test (a : SHAPE) (b : BOARD_ITEM) (layer : PCB_LAYER_ID)
    (c : Z) :
  is_clearance_test (EvCollide a (holeShapeOf b layer) c) = false.
Proof. unfold holeShapeOf. case_ifs; reflexivity. Qed.

(** A hole block of the pad test makes no test when the clearance is not
    positive. *)
Lemma testPadAgainstItem_hole_skipped (brd : BOARD) (eps : Z) (guard : bool)
    (solid hole : SHAPE) (constraint : DRC_CONSTRAINT) (clearance : Z)
    (pad other : BOARD_ITEM) (aLayer : PCB_LAYER_ID) (testHoles : bool) :
  clearance <= 0 ->
  testPadAgainstItem_hole brd eps guard solid hole constraint clearance pad other aLayer
    testHoles
  = ret testHoles.
Proof.
  intros Hle. unfold testPadAgainstItem_hole.
  assert (E : (0 <? clearance) = false) by (apply Z.ltb_ge; exact Hle).
  rewrite E. destruct guard; reflexivity.
Qed.

(** The clearance block of the pad test makes no hole test. *)
Lemma testPadAgainstItem_no_hole_test (eng : DRC_ENGINE) (brd : BOARD) (eps : Z)
    (pad : BOARD_ITEM) (padShape : SHAPE) (aLayer : PCB_LAYER_ID) (other : BOARD_ITEM) :
  GetValue_Min (EvalRules eng HOLE_CLEARANCE_CONSTRAINT pad other aLayer) <= 0 ->
  emits (fun e => is_hole_test e = false)
        (testPadAgainstItem eng brd eps pad padShape aLayer other).
Proof.
  intros Hle. unfold testPadAgainstItem.
  apply emits_bind; [apply emits_get | intros st0].
  destruct (testPadAgainstItem_flags brd pad aLayer other _ _) as [tc th].
  repeat (emits_step || rewrite testPadAgainstItem_hole_skipped by exact Hle);
    reflexivity.
Qed.

Lemma testItemAgainstZone_no_hole_test (eng : DRC_ENGINE) (brd : BOARD) (eps : Z)
    (aItem aZone : BOARD_ITEM) (aLayer : PCB_LAYER_ID) :
  GetValue_Min (EvalRules eng HOLE_CLEARANCE_CONSTRAINT aItem aZone aLayer) <= 0 ->
  emits (fun e => is_hole_test e = false) (testItemAgainstZone eng brd eps aItem aZone aLayer).
Proof.
  intros Hle. unfold testItemAgainstZone.
  assert (E : (0 <? GetValue_Min (EvalRules eng HOLE_CLEARANCE_CONSTRAINT aItem aZone aLayer))
              = false) by (apply Z.ltb_ge; exact Hle).
  rewrite E, andb_false_r.
  emits_auto; reflexivity.
Qed.

(** C2 (as stated) fails in the pad-vs-item path: [padD] has a hole, the
    HOLE_CLEARANCE constraint of the pair resolves to 0 with a severity that
    is not IGNORE, and [padA] lies inside that hole, yet the test of the pair
    makes no collision test at all. *)
Lemma pad_hole_not_tested_at_zero_clearance :
  let eng := Examples.engine Examples.no_limits false Examples.hole_clearance0 in
  HasHole Examples.padD = true
  /\ GetValue_Min (EvalRules eng HOLE_CLEARANCE_CONSTRAINT Examples.padA Examples.padD F_Cu) = 0
  /\ is_IGNORE (GetSeverity (EvalRules eng HOLE_CLEARANCE_CONSTRAINT Examples.padA
                              Examples.padD F_Cu)) = false
  /\ Collide Examples.pads_board (EffectiveShape Examples.padA F_Cu)
             (Some (EffectiveHoleShape Examples.padD)) 0
     = Some (0, Examples.pt 0 0)
  /\ testPadAgainstItem eng Examples.pads_board 0 Examples.padA
       (EffectiveShape Examples.padA F_Cu) F_Cu Examples.padD []
     = (true, []).
Proof. repeat split; vm_compute; reflexivity. Qed.

(** ** What each pairwise test emits *)

Ltac guards :=
  repeat match goal with
         | H : _ && _ = true |- _ => apply andb_prop in H as [? ?]
         | H : negb _ = true |- _ => apply negb_true_iff in H
         | H : negb _ = false |- _ => apply negb_false_iff in H
         | H : (0 <? _) = true |- _ => apply Z.ltb_lt in H
         end.

Lemma holeShapeOf_Some (i : BOARD_ITEM) (layer : PCB_LAYER_ID) (s : SHAPE) :
  holeShapeOf i layer = Some s -> s = EffectiveHoleShape i.
Proof. unfold holeShapeOf. case_ifs; congruence. Qed.

Ltac hole_shapes :=
  repeat match goal with
         | H : holeShapeOf _ _ = Some _ |- _ => apply holeShapeOf_Some in H; subst
         end.

Section Events.

Variable eng : DRC_ENGINE.
Variable brd : BOARD.
Variable eps : Z.

Lemma testTrackAgainstItem_hole_events (track : BOARD_ITEM) (trackShape : SHAPE)
    (layer : PCB_LAYER_ID) (other a b : BOARD_ITEM) (a_shape : SHAPE) :
  a = track /\ b = other \/ a = other /\ b = track ->
  emits (track_item_event eng track trackShape layer other)
        (testTrackAgainstItem_hole eng brd eps layer a b a_shape).
Proof.
  intros Hround. unfold testTrackAgainstItem_hole.
  emits_auto; guards; econstructor; eauto.
Qed.

Lemma testTrackAgainstItem_events (track : BOARD_ITEM) (trackShape : SHAPE)
    (layer : PCB_LAYER_ID) (other : BOARD_ITEM) :
  emits (track_item_event eng track trackShape layer other)
        (testTrackAgainstItem eng brd eps track trackShape layer other).
Proof.
  unfold testTrackAgainstItem.
  apply emits_bind; [apply emits_get | intros st0].
  cbv zeta.
  match goal with
  | |- context [if ?c then false else ?t] => destruct (if c then false else t) eqn:Htc
  end.
  - apply emits_bind.
    + unfold testTrackAgainstItem_clearance.
      emits_auto; guards; econstructor; eauto.
    + intros r. destruct r as [v | has_error]; [apply emits_ret |].
      destruct (negb (IsErrorLimitExceeded eng st0 DRCE_HOLE_CLEARANCE)
                && (HasHole track || HasHole other)); [| apply emits_ret].
      apply emits_bind; [| intros h; destruct h; apply emits_ret].
      simpl. apply emits_bind.
      * apply testTrackAgainstItem_hole_events. left; auto.
      * intros r1. destruct r1; [apply emits_ret |].
        apply emits_bind; [| intros r2; destruct r2; apply emits_ret].
        apply testTrackAgainstItem_hole_events. right; auto.
  - apply emits_bind.
    + unfold testTrackAgainstItem_clearance. simpl. apply emits_ret.
    + intros r. destruct r as [v | has_error]; [apply emits_ret |].
      destruct (negb (IsErrorLimitExceeded eng st0 DRCE_HOLE_CLEARANCE)
                && (HasHole track || HasHole other)); [| apply emits_ret].
      apply emits_bind; [| intros h; destruct h; apply emits_ret].
      simpl. apply emits_bind.
      * apply testTrackAgainstItem_hole_events. left; auto.
      * intros r1. destruct r1; [apply emits_ret |].
        apply emits_bind; [| intros r2; destruct r2; apply emits_ret].
        apply testTrackAgainstItem_hole_events. right; auto.
Qed.

Lemma testItemAgainstZone_events (aItem aZone : BOARD_ITEM) (aLayer : PCB_LAYER_ID) :
  emits (zone_item_event eng aItem aZone aLayer)
        (testItemAgainstZone eng brd eps aItem aZone aLayer).
Proof.
  unfold testItemAgainstZone.
  destruct (negb (LSET_test (GetLayerSet aZone) aLayer)); [apply emits_ret |].
  destruct (negb (GetNetCode aZone =? 0) && IsConnected aItem
            && (GetNetCode aZone =? GetNetCode aItem)) eqn:Hnet; [apply emits_ret |].
  destruct (negb (BOX2I_Intersects brd _ _)); [apply emits_ret |].
  apply emits_bind; [apply emits_get | intros st0].
  destruct (negb (negb (IsErrorLimitExceeded eng st0 DRCE_CLEARANCE))
            && negb (negb (IsErrorLimitExceeded eng st0 DRCE_HOLE_CLEARANCE)));
    [apply emits_ret |].
  destruct (negb (HasZoneTree brd aZone)); [apply emits_ret |].
  cbv zeta.
  match goal with
  | |- context [if ?t then EvalRules _ _ _ _ _ else _] => destruct t eqn:Htc
  end.
  - apply emits_bind.
    + emits_auto; guards; econstructor; eauto.
    + intros _.
      emits_auto; guards; hole_shapes; econstructor; eauto.
  - apply emits_bind.
    + simpl. apply emits_ret.
    + intros _.
      emits_auto; guards; hole_shapes; econstructor; eauto.
Qed.

Lemma testKnockoutTextAgainstZone_events (aText : BOARD_ITEM) (aInheritedNet : option Z)
    (aZone : BOARD_ITEM) :
  emits (knockout_event eng aText aZone)
        (testKnockoutTextAgainstZone eng brd eps aText aInheritedNet aZone).
Proof.
  unfold testKnockoutTextAgainstZone.
  emits_auto; guards; econstructor; eauto.
Qed.

Lemma KICAD_T_eqb_eq (a b : KICAD_T) : KICAD_T_eqb a b = true <-> a = b.
Proof. destruct a, b; simpl; split; congruence. Qed.

(** What the prologue of the pad test leaves true. *)
Lemma testPadAgainstItem_flags_clearance (pad : BOARD_ITEM) (aLayer : PCB_LAYER_ID)
    (other : BOARD_ITEM) (tc th : bool) :
  fst (testPadAgainstItem_flags brd pad aLayer other tc th) = true ->
  is_PCB_TRACK (Type_ other) = false
  /\ (Type_ other = PCB_PAD_T ->
      GetNetCode other = 0 \/ GetNetCode other <> GetNetCode pad).
Proof.
  unfold testPadAgainstItem_flags.
  match goal with
  | |- context [let '(a, b) := ?blk in _] => destruct blk as [tc1 th1]
  end.
  cbv zeta.
  destruct (is_PCB_TRACK (Type_ other)) eqn:Htrack.
  { case_ifs; simpl; discriminate. }
  intros H. split; [reflexivity |]. intros Hpad.
  apply KICAD_T_eqb_eq in Hpad. rewrite Hpad in H.
  destruct (GetNetCode other =? 0) eqn:Hz; [left; lia |].
  destruct (GetNetCode other =? GetNetCode pad) eqn:Hs; [| right; lia].
  exfalso. simpl in H. revert H. case_ifs; simpl; discriminate.
Qed.

Lemma testPadAgainstItem_flags_holes (pad : BOARD_ITEM) (aLayer : PCB_LAYER_ID)
    (other : BOARD_ITEM) (tc th : bool) :
  snd (testPadAgainstItem_flags brd pad aLayer other tc th) = true ->
  Type_ other = PCB_PAD_T \/ Type_ other = PCB_VIA_T ->
  GetNetCode other = 0 \/ GetNetCode other <> GetNetCode pad.
Proof.
  unfold testPadAgainstItem_flags.
  match goal with
  | |- context [let '(a, b) := ?blk in _] => destruct blk as [tc1 th1]
  end.
  cbv zeta. intros H Htype.
  destruct (GetNetCode other =? 0) eqn:Hz; [left; lia |].
  destruct (GetNetCode other =? GetNetCode pad) eqn:Hs; [| right; lia].
  exfalso. destruct Htype as [Ht | Ht]; rewrite Ht in H; simpl in H;
    rewrite ?Hz, ?Hs in H; simpl in H; revert H; rewrite ?orb_true_r;
    case_ifs; simpl; discriminate.
Qed.

Lemma testPadAgainstItem_hole_yields (pad : BOARD_ITEM) (padShape : SHAPE)
    (aLayer : PCB_LAYER_ID) (other : BOARD_ITEM) (guard : bool) (solid : SHAPE)
    (hole : BOARD_ITEM) (th : bool) :
  (guard = true ->
   th = true
   /\ (Type_ other = PCB_PAD_T \/ Type_ other = PCB_VIA_T)
   /\ (GetNetCode other = 0 \/ GetNetCode other <> GetNetCode pad)
   /\ not_ignored eng HOLE_CLEARANCE_CONSTRAINT pad other aLayer) ->
  yields (pad_item_event eng brd pad padShape aLayer other) (fun r => r = true -> th = true)
    (testPadAgainstItem_hole brd eps guard solid (EffectiveHoleShape hole)
       (EvalRules eng HOLE_CLEARANCE_CONSTRAINT pad other aLayer)
       (GetValue_Min (EvalRules eng HOLE_CLEARANCE_CONSTRAINT pad other aLayer))
       pad other aLayer th).
Proof.
  intros Hguard. unfold testPadAgainstItem_hole.
  destruct guard; [| apply yields_ret; auto].
  destruct Hguard as (Hth & Htype & Hnet & Hsev); [reflexivity |].
  destruct (0 <? _) eqn:Hpos; [| apply yields_ret; auto].
  apply Z.ltb_lt in Hpos.
  eapply yields_bind with (Q1 := fun _ => True).
  - apply emits_yields. emits_auto. econstructor; eauto.
  - intros hit _. destruct hit as [[actual pos] |]; [| apply yields_ret; auto].
    eapply yields_bind with (Q1 := fun _ => True).
    + apply emits_yields. emits_auto. econstructor; eauto.
    + intros _ _. apply yields_ret. discriminate.
Qed.

Lemma testPadAgainstItem_events (pad : BOARD_ITEM) (padShape : SHAPE) (aLayer : PCB_LAYER_ID)
    (other : BOARD_ITEM) :
  emits (pad_item_event eng brd pad padShape aLayer other)
        (testPadAgainstItem eng brd eps pad padShape aLayer other).
Proof.
  unfold testPadAgainstItem.
  apply emits_bind; [apply emits_get | intros st0].
  destruct (testPadAgainstItem_flags brd pad aLayer other _ _) as [tc th] eqn:Hflags.
  assert (Hc := testPadAgainstItem_flags_clearance pad aLayer other
                  (negb (IsErrorLimitExceeded eng st0 DRCE_CLEARANCE))
                  (negb (IsErrorLimitExceeded eng st0 DRCE_HOLE_CLEARANCE))).
  assert (Hh := testPadAgainstItem_flags_holes pad aLayer other
                  (negb (IsErrorLimitExceeded eng st0 DRCE_CLEARANCE))
                  (negb (IsErrorLimitExceeded eng st0 DRCE_HOLE_CLEARANCE))).
  rewrite Hflags in Hc, Hh. simpl in Hc, Hh.
  destruct (negb tc && _ && negb th); [apply emits_ret |].
  destruct (KICAD_T_eqb (Type_ other) PCB_PAD_T && SameLogicalPadAs brd pad other) eqn:Hsame.
  { apply andb_prop in Hsame as [Hp Hs]. apply KICAD_T_eqb_eq in Hp.
    emits_auto; econstructor; eauto. }
  eapply emits_bind_yields with (Q := fun r => r = true -> th = true).
  { destruct tc; [| apply yields_ret; auto].
    destruct Hc as [Htrack Hnets]; [reflexivity |].
    cbv zeta.
    destruct (negb _ && (0 <? _)) eqn:G; [| apply yields_ret; auto].
    guards.
    eapply yields_bind with (Q1 := fun _ => True).
    - apply emits_yields. emits_auto. econstructor; eauto.
    - intros hit _. destruct hit as [[actual pos] |]; [| apply yields_ret; auto].
      destruct (IsNetTieExclusion eng _ _ _ _); [apply yields_ret; auto |].
      eapply yields_bind with (Q1 := fun _ => True).
      + apply emits_yields. emits_auto. econstructor; eauto.
      + intros _ _. apply yields_ret. discriminate. }
  intros th1 Hth1. cbv zeta.
  set (th2 := if th1 then negb (is_IGNORE _) else false).
  assert (Hth2 : th2 = true ->
                 th = true /\ not_ignored eng HOLE_CLEARANCE_CONSTRAINT pad other aLayer).
  { subst th2. destruct th1; [| discriminate]. intros Hs. apply negb_true_iff in Hs. auto. }
  eapply emits_bind_yields with (Q := fun r => r = true -> th2 = true).
  { apply testPadAgainstItem_hole_yields. intros G. guards.
    apply KICAD_T_eqb_eq in H2. destruct Hth2 as [Hth Hsev]; auto 6. }
  intros th3 Hth3.
  eapply emits_bind_yields with (Q := fun r => r = true -> th3 = true).
  { apply testPadAgainstItem_hole_yields. intros G. guards.
    apply KICAD_T_eqb_eq in H2. destruct Hth2 as [Hth Hsev]; auto 6. }
  intros th4 Hth4.
  eapply emits_bind_yields with (Q := fun r => r = true -> th4 = true).
  { apply testPadAgainstItem_hole_yields. intros G. guards.
    apply KICAD_T_eqb_eq in H1. destruct Hth2 as [Hth Hsev]; auto 6. }
  intros _ _. emits_auto.
Qed.

End Events.

(** ** Ignored constraints *)

Lemma holeShapeOf_hole_test (a : SHAPE) (b : BOARD_ITEM) (layer : PCB_LAYER_ID) (c : Z) :
  is_hole_test (EvCollide a (holeShapeOf b layer) c) = true.
Proof. unfold holeShapeOf. case_ifs; reflexivity. Qed.

Ltac contradict_guard :=
  match goal with
  | H : not_ignored _ _ _ _ _, I : is_IGNORE _ = true |- _ =>
      unfold not_ignored in H; congruence
  end.

(** C8: when the rule evaluator returns severity IGNORE for (itemA, itemB,
    layer, kind), the geometric test made for that constraint is not
    performed, and nothing is reported for it, in every path that evaluates
    a CLEARANCE or HOLE_CLEARANCE constraint: track-vs-item (CLEARANCE, and
    HOLE_CLEARANCE per round of the hole loop), pad-vs-item, item-vs-zone,
    knockout text against a zone, and zone against zone, where no sweep is
    submitted.  The tests are total functions: they return normally. *)
Theorem ignored_constraint_disables_test (eng : DRC_ENGINE) (brd : BOARD) (eps : Z)
    (a b : BOARD_ITEM) (shape : SHAPE) (layer : PCB_LAYER_ID) (inherited : option Z)
    (ia ia2 : nat) (st : TRACE) :
  let no_clearance_test e :=
    is_clearance_test e = false /\ is_violation DRCE_CLEARANCE e = false
    /\ is_violation DRCE_TRACKS_CROSSING e = false in
  let no_hole_test e :=
    is_hole_test e = false /\ is_violation DRCE_HOLE_CLEARANCE e = false in
  (is_IGNORE (GetSeverity (EvalRules eng CLEARANCE_CONSTRAINT a b layer)) = true ->
   emits no_clearance_test (testTrackAgainstItem eng brd eps a shape layer b)
   /\ emits no_clearance_test (testPadAgainstItem eng brd eps a shape layer b)
   /\ emits no_clearance_test (testItemAgainstZone eng brd eps a b layer)
   /\ submit_pair eng brd layer ia a ia2 b st = (None, st))
  /\ (is_IGNORE (GetSeverity (EvalRules eng CLEARANCE_CONSTRAINT a b (GetLayer a))) = true ->
      emits (fun e => is_clearance_test e = false /\ any_violation e = false)
            (testKnockoutTextAgainstZone eng brd eps a inherited b))
  /\ (is_IGNORE (GetSeverity (EvalRules eng HOLE_CLEARANCE_CONSTRAINT a b layer)) = true ->
      emits no_hole_test (testPadAgainstItem eng brd eps a shape layer b)
      /\ emits no_hole_test (testItemAgainstZone eng brd eps a b layer)
      /\ testTrackAgainstItem_hole eng brd eps layer b a shape st = (Next tt, st)
      /\ (is_IGNORE (GetSeverity (EvalRules eng HOLE_CLEARANCE_CONSTRAINT b a layer)) = true ->
          emits no_hole_test (testTrackAgainstItem eng brd eps a shape layer b))).
Proof.
  intros no_clearance_test no_hole_test. subst no_clearance_test no_hole_test.
  split; [| split].
  - intros Hign. repeat split.
    + eapply emits_weaken; [| apply testTrackAgainstItem_events].
      intros e He. inversion He; subst; try contradict_guard;
        repeat split; auto using holeShapeOf_not_clearance_test.
    + eapply emits_weaken; [| apply testPadAgainstItem_events].
      intros e He. inversion He; subst; try contradict_guard; repeat split; auto.
    + eapply emits_weaken; [| apply testItemAgainstZone_events].
      intros e He. inversion He; subst; try contradict_guard; repeat split; auto.
    + unfold submit_pair. rewrite Hign. simpl. case_ifs; reflexivity.
  - intros Hign.
    eapply emits_weaken; [| apply testKnockoutTextAgainstZone_events].
    intros e He. inversion He; subst; try contradict_guard; repeat split; auto.
  - intros Hign. repeat split.
    + eapply emits_weaken; [| apply testPadAgainstItem_events].
      intros e He. inversion He; subst; try contradict_guard; repeat split; auto.
    + eapply emits_weaken; [| apply testItemAgainstZone_events].
      intros e He. inversion He; subst; try contradict_guard; repeat split; auto.
    + unfold testTrackAgainstItem_hole. rewrite Hign. simpl. case_ifs; reflexivity.
    + intros Hign'.
      eapply emits_weaken; [| apply testTrackAgainstItem_events].
      intros e He. inversion He; subst; try contradict_guard; try (repeat split; auto; fail);
        match goal with
        | H : _ /\ _ \/ _ /\ _ |- _ => destruct H as [[-> ->] | [-> ->]]
        end; contradict_guard.
Qed.

Lemma ignored_constraint_disables_test_witness :
  testTrackAgainstItem (Examples.engine Examples.no_limits false Examples.ignore_all)
    Examples.crossing_board 0 Examples.trackA (EffectiveShape Examples.trackA F_Cu) F_Cu
    Examples.trackB []
  = (true, [])
  /\ submit_pair (Examples.engine Examples.no_limits false Examples.ignore_all)
       Examples.overlapping_zones_board F_Cu 0 Examples.zoneA 1 Examples.zoneB []
     = (None, []).
Proof.
  destruct (ignored_constraint_disables_test
              (Examples.engine Examples.no_limits false Examples.ignore_all)
              Examples.overlapping_zones_board 0 Examples.zoneA Examples.zoneB
              (EffectiveShape Examples.zoneA F_Cu) F_Cu None 0 1 []) as [Hclr _].
  destruct (Hclr eq_refl) as (_ & _ & _ & Hsubmit).
  split; [reflexivity | exact Hsubmit].
Defined.

(** ** What the phases emit *)

Section Phases.

Variable eng : DRC_ENGINE.
Variable brd : BOARD.
Variable eps : Z.

(** A property of events that every event other than a violation has. *)
Variable P : EVENT -> Prop.
Hypothesis P_benign : forall e, any_violation e = false -> P e.

Lemma QueryColliding_emits {S : Type} (candidates : list BOARD_ITEM)
    (filter : BOARD_ITEM -> S -> bool * S) (visitor : BOARD_ITEM -> S -> DRC (bool * S))
    (s : S) :
  (forall other s0 s1, In other candidates -> filter other s0 = (true, s1) ->
                       emits P (visitor other s1)) ->
  emits P (QueryColliding candidates filter visitor s).
Proof.
  revert s. induction candidates as [| other rest IH]; intros s Hvisit; simpl.
  - apply emits_ret.
  - destruct (filter other s) as [accepted s1] eqn:Hf.
    assert (Hrest : forall s', emits P (QueryColliding rest filter visitor s')).
    { intros s'. apply IH. intros o s0 s2 Hin. apply Hvisit. right; exact Hin. }
    destruct accepted; [| apply Hrest].
    apply emits_bind.
    + eapply Hvisit; [left; reflexivity | exact Hf].
    + intros r. destruct (fst r); [apply Hrest | apply emits_ret].
Qed.

Lemma reportProgress_emits (count size delta : Z) :
  emits P (reportProgress eng count size delta).
Proof. unfold reportProgress. emits_auto. apply P_benign. reflexivity. Qed.

Lemma testItemAgainstZones_emits (item : BOARD_ITEM) (layer : PCB_LAYER_ID)
    (zones : list BOARD_ITEM) :
  (forall zone, In zone zones -> emits P (testItemAgainstZone eng brd eps item zone layer)) ->
  emits P (testItemAgainstZones eng brd eps item layer zones).
Proof.
  induction zones as [| zone rest IH]; intros Hzone; simpl.
  - apply emits_ret.
  - apply emits_bind; [apply Hzone; left; reflexivity | intros _].
    apply emits_bind; [apply emits_get | intros st].
    destruct (IsCancelled eng st); [apply emits_ret |].
    apply IH. intros z Hin. apply Hzone. right; exact Hin.
Qed.

(** *** The track phase *)

Lemma track_visitor_emits (track : BOARD_ITEM) (trackShape : SHAPE) (layer : PCB_LAYER_ID)
    (other : BOARD_ITEM) (m : track_memo) :
  emits P (testTrackAgainstItem eng brd eps track trackShape layer other) ->
  emits P (track_visitor eng brd eps track trackShape layer other m).
Proof.
  intros Htest. unfold track_visitor.
  apply emits_bind; [apply emits_get | intros st].
  destruct (IsCancelled eng st); [apply emits_ret |].
  apply emits_bind.
  - unfold track_visitor_freePad. emits_auto. apply P_benign. reflexivity.
  - intros [[v | []] fpm]; [apply emits_ret |].
    apply emits_bind; [exact Htest | intros ok].
    emits_auto.
Qed.

Lemma track_filter_accepted (track : BOARD_ITEM) (layer : PCB_LAYER_ID) (other : BOARD_ITEM)
    (m m1 : track_memo) :
  track_filter_memo eng track layer other m = (true, m1) ->
  is_BOARD_CONNECTED_ITEM (Type_ other) && (GetNetCode other =? GetNetCode track) = false.
Proof.
  unfold track_filter_memo, track_filter.
  destruct (is_BOARD_CONNECTED_ITEM (Type_ other) && (GetNetCode other =? GetNetCode track));
    [discriminate | reflexivity].
Qed.

Lemma testTrackClearances_emits :
  (forall track layer other,
     In track (Tracks brd) -> In other (CopperItemRTree brd track layer) ->
     is_BOARD_CONNECTED_ITEM (Type_ other) && (GetNetCode other =? GetNetCode track) = false ->
     emits P (testTrackAgainstItem eng brd eps track (EffectiveShape track layer) layer
                other)) ->
  (forall track layer zone,
     In track (Tracks brd) -> In zone (m_DRCCopperZones brd) ->
     emits P (testItemAgainstZone eng brd eps track zone layer)) ->
  emits P (testTrackClearances eng brd eps).
Proof.
  intros Hitem Hzone. unfold testTrackClearances.
  apply emits_bind; [apply emits_emit, P_benign; reflexivity | intros _].
  generalize {| tm_checkedPairs := ∅; tm_freePadsUsageMap := ∅ |}.
  generalize 0. generalize (Z.of_nat (length (Tracks brd))).
  assert (Hin : forall t, In t (Tracks brd) -> In t (Tracks brd)) by auto.
  revert Hin. generalize (Tracks brd) at 1 3.
  induction l as [| track rest IH]; intros Hin size ii m; simpl.
  - apply emits_ret.
  - apply emits_bind; [apply reportProgress_emits | intros continue].
    destruct (negb continue); [apply emits_ret |].
    apply emits_bind.
    + generalize (copper_layers_of brd track).
      intros layerSeq. revert m.
      induction layerSeq as [| layer more IHl]; intros m; simpl; [apply emits_ret |].
      apply emits_bind.
      * apply QueryColliding_emits. intros other s0 s1 Hother Hf.
        apply track_visitor_emits.
        apply Hitem; [apply Hin; left; reflexivity | exact Hother |].
        eapply track_filter_accepted; eauto.
      * intros m1. apply emits_bind; [| intros _; apply IHl].
        apply testItemAgainstZones_emits. intros zone Hz.
        apply Hzone; [apply Hin; left; reflexivity | exact Hz].
    + intros m1. apply IH. intros t Ht. apply Hin. right; exact Ht.
Qed.

(** *** The pad phase *)

Lemma testPadClearances_emits :
  (forall pad layer other,
     In pad (all_pads brd) -> In other (CopperItemRTree brd pad layer) ->
     emits P (testPadAgainstItem eng brd eps pad (EffectiveShape pad layer) layer other)) ->
  (forall pad layer zone,
     In pad (all_pads brd) -> In zone (m_DRCCopperZones brd) ->
     emits P (testItemAgainstZone eng brd eps pad zone layer)) ->
  emits P (testPadClearances eng brd eps).
Proof.
  intros Hitem Hzone. unfold testPadClearances.
  apply emits_bind; [apply emits_emit, P_benign; reflexivity | intros _].
  generalize (∅ : gmap (Z * Z) Z). generalize 0.
  generalize (count_pads (Footprints brd)).
  unfold all_pads in *.
  assert (Hin : forall p, In p (flat_map Pads (Footprints brd)) ->
                          In p (flat_map Pads (Footprints brd))) by auto.
  revert Hin. generalize (Footprints brd) at 1 3.
  induction l as [| footprint rest IH]; intros Hin count ii cp; simpl.
  - apply emits_ret.
  - apply emits_bind.
    + assert (Hpads : forall p, In p (Pads footprint) ->
                                In p (flat_map Pads (Footprints brd))).
      { intros p Hp. apply Hin. simpl. apply in_or_app. left; exact Hp. }
      revert Hpads ii cp. generalize (Pads footprint).
      induction l as [| pad more IHp]; intros Hpads ii cp; simpl; [apply emits_ret |].
      apply emits_bind.
      * generalize (copper_layers_of brd pad).
        intros layerSeq. revert cp.
        induction layerSeq as [| layer others IHl]; intros cp; simpl; [apply emits_ret |].
        apply emits_bind.
        -- apply QueryColliding_emits. intros other s0 s1 Hother Hf.
           unfold pad_visitor. apply emits_bind; [| intros; apply emits_ret].
           apply Hitem; [apply Hpads; left; reflexivity | exact Hother].
        -- intros cp1. apply emits_bind.
           ++ apply testItemAgainstZones_emits. intros zone Hz.
              apply Hzone; [apply Hpads; left; reflexivity | exact Hz].
           ++ intros finished. destruct finished; [apply IHl | apply emits_ret].
      * intros r. destruct r as [[] | cp1]; [apply emits_ret |].
        apply emits_bind; [apply reportProgress_emits | intros continue].
        destruct (negb continue); [apply emits_ret |].
        apply IHp. intros p Hp. apply Hpads. right; exact Hp.
    + intros r. destruct r as [[] | [ii' cp1]]; [apply emits_ret |].
      apply emits_bind; [apply emits_get | intros st].
      destruct (IsCancelled eng st); [apply emits_ret |].
      apply IH. intros p Hp. apply Hin. simpl. apply in_or_app. right; exact Hp.
Qed.

(** *** The graphic phase *)

Lemma testGraphicAgainstZone_emits (item : BOARD_ITEM) :
  (forall zone inherited,
     In zone (m_DRCCopperZones brd) -> isKnockoutText item = true ->
     emits P (testKnockoutTextAgainstZone eng brd eps item inherited zone)) ->
  (forall zone,
     In zone (m_DRCCopperZones brd) -> isKnockoutText item = false ->
     emits P (testItemAgainstZone eng brd eps item zone (GetLayer item))) ->
  emits P (testGraphicAgainstZone eng brd eps item).
Proof.
  intros Hknock Hzone. unfold testGraphicAgainstZone.
  destruct (KICAD_T_eqb (Type_ item) PCB_BITMAP_T); [apply emits_ret |].
  destruct (negb (IsCopperLayer (GetLayer item))); [apply emits_ret |].
  generalize (@None Z).
  assert (Hin : forall z, In z (m_DRCCopperZones brd) -> In z (m_DRCCopperZones brd)) by auto.
  revert Hin. generalize (m_DRCCopperZones brd) at 1 3.
  induction l as [| zone rest IH]; intros Hin inherited; simpl; [apply emits_ret |].
  apply emits_bind.
  - destruct (isKnockoutText item) eqn:Hk.
    + apply Hknock; [apply Hin; left; reflexivity | reflexivity].
    + apply emits_bind; [| intros; apply emits_ret].
      apply Hzone; [apply Hin; left; reflexivity | reflexivity].
  - intros inherited'. apply emits_bind; [apply emits_get | intros st].
    destruct (IsCancelled eng st); [apply emits_ret |].
    apply IH. intros z Hz. apply Hin. right; exact Hz.
Qed.

Lemma testGraphicClearances_items_emits (items : list BOARD_ITEM) (ii count : Z) :
  (forall item, In item items -> emits P (testGraphicAgainstZone eng brd eps item)) ->
  emits P (testGraphicClearances_items eng brd eps items ii count).
Proof.
  revert ii. induction items as [| item rest IH]; intros ii Hitem; simpl.
  - apply emits_ret.
  - apply emits_bind; [apply Hitem; left; reflexivity | intros _].
    apply emits_bind; [apply reportProgress_emits | intros continue].
    destruct (negb continue); [apply emits_ret |].
    apply IH. intros i Hi. apply Hitem. right; exact Hi.
Qed.

Lemma testGraphicClearances_emits :
  (forall item, In item (all_graphics brd) -> emits P (testGraphicAgainstZone eng brd eps item)) ->
  emits P (testGraphicClearances eng brd eps).
Proof.
  intros Hitem. unfold testGraphicClearances, all_graphics in *.
  apply emits_bind; [apply emits_emit, P_benign; reflexivity | intros _].
  apply emits_bind.
  - apply testGraphicClearances_items_emits. intros i Hi. apply Hitem.
    apply in_or_app. left; exact Hi.
  - intros r. destruct r as [[] | ii]; [apply emits_ret |].
    generalize (count_graphics (Drawings brd) (Footprints brd)). revert ii.
    assert (Hin : forall i, In i (flat_map GraphicalItems (Footprints brd)) ->
                            In i (flat_map GraphicalItems (Footprints brd))) by auto.
    revert Hin. generalize (Footprints brd) at 1 3.
    induction l as [| footprint rest IH]; intros Hin ii count; simpl; [apply emits_ret |].
    apply emits_bind.
    + apply testGraphicClearances_items_emits. intros i Hi. apply Hitem.
      apply in_or_app. right. apply Hin. simpl. apply in_or_app. left; exact Hi.
    + intros r. destruct r as [[] | ii']; [apply emits_ret |].
      apply IH. intros i Hi. apply Hin. simpl. apply in_or_app. right; exact Hi.
Qed.

End Phases.

(** ** Items of the same net *)

Lemma same_nonzero_net_filtered (a b : BOARD_ITEM) :
  is_BOARD_CONNECTED_ITEM (Type_ b) && (GetNetCode b =? GetNetCode a) = false ->
  same_nonzero_net a b = false /\ same_nonzero_net b a = false.
Proof.
  unfold same_nonzero_net, IsConnected. intros H.
  rewrite (Z.eqb_sym (GetNetCode a) (GetNetCode b)).
  destruct (is_BOARD_CONNECTED_ITEM (Type_ b)); simpl in *.
  - rewrite H. rewrite !andb_false_r. auto.
  - rewrite !andb_false_r. auto.
Qed.

Lemma same_nonzero_net_distinct (a b : BOARD_ITEM) :
  GetNetCode b = 0 \/ GetNetCode b <> GetNetCode a -> same_nonzero_net a b = false.
Proof.
  unfold same_nonzero_net. intros [Hz | Hne].
  - destruct (GetNetCode a =? GetNetCode b) eqn:E.
    + apply Z.eqb_eq in E. rewrite E, Hz. simpl. apply andb_false_r.
    + rewrite andb_false_r. reflexivity.
  - assert (E : (GetNetCode a =? GetNetCode b) = false) by (apply Z.eqb_neq; congruence).
    rewrite E, andb_false_r. reflexivity.
Qed.

Lemma track_item_event_net_ok (eng : DRC_ENGINE) (track : BOARD_ITEM) (trackShape : SHAPE)
    (layer : PCB_LAYER_ID) (other : BOARD_ITEM) (e : EVENT) :
  is_BOARD_CONNECTED_ITEM (Type_ other) && (GetNetCode other =? GetNetCode track) = false ->
  track_item_event eng track trackShape layer other e -> net_ok e.
Proof.
  intros Hfilter He.
  destruct (same_nonzero_net_filtered track other Hfilter) as [H1 H2].
  inversion He; subst; simpl; auto; try discriminate.
  match goal with
  | H : _ /\ _ \/ _ /\ _ |- _ => destruct H as [[-> ->] | [-> ->]]
  end; auto.
Qed.

Lemma pad_item_event_net_ok (eng : DRC_ENGINE) (brd : BOARD) (pad : BOARD_ITEM)
    (padShape : SHAPE) (aLayer : PCB_LAYER_ID) (other : BOARD_ITEM) (e : EVENT) :
  Type_ other <> PCB_ZONE_T ->
  pad_item_event eng brd pad padShape aLayer other e -> net_ok e.
Proof.
  intros Hzone He. inversion He; subst; simpl; auto; try discriminate; intros _.
  - destruct (Type_ other) eqn:Ht; try discriminate; try congruence;
      try (apply same_nonzero_net_distinct; auto; fail);
      unfold same_nonzero_net, IsConnected; rewrite Ht; simpl;
      rewrite andb_false_r; reflexivity.
  - apply same_nonzero_net_distinct; assumption.
Qed.

Lemma zone_item_event_net_ok (eng : DRC_ENGINE) (aItem aZone : BOARD_ITEM)
    (aLayer : PCB_LAYER_ID) (e : EVENT) :
  zone_item_event eng aItem aZone aLayer e -> net_ok e.
Proof.
  intros He.
  assert (Hnet : negb (GetNetCode aZone =? 0) && IsConnected aItem
                 && (GetNetCode aZone =? GetNetCode aItem) = false ->
                 same_nonzero_net aItem aZone = false).
  { unfold same_nonzero_net. intros H.
    destruct (IsConnected aItem), (IsConnected aZone); simpl in *; try reflexivity;
      destruct (Z.eqb_spec (GetNetCode aItem) (GetNetCode aZone)),
               (Z.eqb_spec (GetNetCode aItem) 0),
               (Z.eqb_spec (GetNetCode aZone) 0),
               (Z.eqb_spec (GetNetCode aZone) (GetNetCode aItem));
      simpl in *; try reflexivity; try discriminate; exfalso; lia. }
  inversion He; subst; simpl; auto.
Qed.

Lemma knockout_event_net_ok (eng : DRC_ENGINE) (aText aZone : BOARD_ITEM) (e : EVENT) :
  isKnockoutText aText = true ->
  knockout_event eng aText aZone e -> net_ok e.
Proof.
  intros Hk He.
  assert (Hconn : same_nonzero_net aText aZone = false).
  { unfold same_nonzero_net, IsConnected. unfold isKnockoutText in Hk.
    destruct (Type_ aText); simpl in *; try discriminate; reflexivity. }
  inversion He; subst; simpl; auto.
Qed.

Lemma net_ok_benign (e : EVENT) : any_violation e = false -> net_ok e.
Proof. destruct e; simpl; auto; discriminate. Qed.

(** C6: provided the copper item R-tree holds no zones (zones are tested
    through their own trees), no CLEARANCE and no HOLE_CLEARANCE violation
    reported by the track phase, the pad phase or the graphic phase (the
    track-vs-item, pad-vs-item and item-vs-zone tests) is between two items
    that carry the same non-zero net code. *)
Theorem no_violation_between_same_net (eng : DRC_ENGINE) (brd : BOARD) (eps : Z) :
  (forall item layer other,
     In other (CopperItemRTree brd item layer) -> Type_ other <> PCB_ZONE_T) ->
  emits net_ok (testTrackClearances eng brd eps)
  /\ emits net_ok (testPadClearances eng brd eps)
  /\ emits net_ok (testGraphicClearances eng brd eps).
Proof.
  intros Hrtree. split; [| split].
  - apply testTrackClearances_emits; [exact net_ok_benign | |].
    + intros track layer other _ _ Hfilter.
      eapply emits_weaken; [| apply testTrackAgainstItem_events].
      intros e. apply track_item_event_net_ok. exact Hfilter.
    + intros track layer zone _ _.
      eapply emits_weaken; [| apply testItemAgainstZone_events].
      intros e. apply zone_item_event_net_ok.
  - apply testPadClearances_emits; [exact net_ok_benign | |].
    + intros pad layer other _ Hother.
      eapply emits_weaken; [| apply testPadAgainstItem_events].
      intros e. apply pad_item_event_net_ok. eapply Hrtree; eauto.
    + intros pad layer zone _ _.
      eapply emits_weaken; [| apply testItemAgainstZone_events].
      intros e. apply zone_item_event_net_ok.
  - apply testGraphicClearances_emits; [exact net_ok_benign |].
    intros item _. apply testGraphicAgainstZone_emits.
    + intros zone inherited _ Hk.
      eapply emits_weaken; [| apply testKnockoutTextAgainstZone_events].
      intros e. apply knockout_event_net_ok. exact Hk.
    + intros zone _ _.
      eapply emits_weaken; [| apply testItemAgainstZone_events].
      intros e. apply zone_item_event_net_ok.
Qed.

Lemma no_violation_between_same_net_witness :
  let eng := Examples.engine Examples.no_limits false Examples.clearance5 in
  let brd := Examples.same_net_board in
  (emits net_ok (testTrackClearances eng brd 0)
   /\ emits net_ok (testPadClearances eng brd 0)
   /\ emits net_ok (testGraphicClearances eng brd 0))
  /\ same_nonzero_net Examples.trackS Examples.padS1 = true
  /\ same_nonzero_net Examples.padS1 Examples.padS2 = true
  /\ same_nonzero_net Examples.padS1 Examples.zoneS = true
  /\ Collide brd (EffectiveShape Examples.trackS F_Cu) (Some (EffectiveShape Examples.padS1 F_Cu)) 5
     = Some (0, Examples.pt 0 0)
  /\ Collide brd (EffectiveShape Examples.padS1 F_Cu) (Some (EffectiveShape Examples.padS2 F_Cu)) 5
     = Some (1, Examples.pt 5 0)
  /\ ZoneTree_QueryColliding brd Examples.zoneS (GetBoundingBox Examples.padS1)
       (EffectiveShape Examples.padS1 F_Cu) F_Cu 5 = Some (0, Examples.pt 5 0)
  /\ violation_pairs (snd (testTrackClearances eng brd 0 []))
     = [(DRCE_CLEARANCE, 110, 630)]
  /\ violation_pairs (snd (testPadClearances eng brd 0 []))
     = [(DRCE_CLEARANCE, 610, 630); (DRCE_CLEARANCE, 620, 630); (DRCE_CLEARANCE, 630, 310)].
Proof.
  split; [| repeat split; vm_compute; reflexivity].
  apply (no_violation_between_same_net
           (Examples.engine Examples.no_limits false Examples.clearance5)
           Examples.same_net_board 0).
  intros item layer other Hin. simpl in Hin.
  repeat match goal with
         | H : context [if ?c then _ else _] |- _ => destruct c
         end;
    simpl in Hin; intuition (subst; discriminate).
Defined.

(** ** Counting clearance violations *)

Lemma at_most_ret {A} (n : nat) (a : A) : at_most n (ret a).
Proof. intros st. exists []. simpl. rewrite app_nil_r. split; [reflexivity | lia]. Qed.

Lemma at_most_emit (e : EVENT) : at_most 1 (emit e).
Proof.
  intros st. exists [e]. split; [reflexivity |].
  simpl. destruct (is_violation DRCE_CLEARANCE e); simpl; lia.
Qed.

Lemma filter_none {A} (f : A -> bool) (l : list A) :
  Forall (fun x => f x = false) l -> List.filter f l = [].
Proof.
  induction 1 as [| x l Hx Hl IH]; simpl; [reflexivity |].
  rewrite Hx. exact IH.
Qed.

Lemma at_most_emits {A} (n : nat) (m : DRC A) : emits not_clearance m -> at_most n m.
Proof.
  intros Hm st. destruct (Hm st) as [ev [E F]]. exists ev. split; [exact E |].
  rewrite filter_none by exact F. simpl. lia.
Qed.

Lemma at_most_bind0 {A B} (n : nat) (m : DRC A) (k : A -> DRC B) :
  emits not_clearance m -> (forall a, at_most n (k a)) -> at_most n (bind m k).
Proof.
  intros Hm Hk st. unfold bind.
  destruct (Hm st) as [ev1 [E1 F1]].
  destruct (m st) as [a st1]. simpl in E1. subst st1.
  destruct (Hk a (st ++ ev1)) as [ev2 [E2 L2]].
  exists (ev1 ++ ev2). rewrite E2, app_assoc. split; [reflexivity |].
  rewrite List.filter_app, length_app, (filter_none _ ev1) by exact F1. simpl. exact L2.
Qed.

Lemma at_most_bind1 {A B} (n : nat) (m : DRC A) (k : A -> DRC B) :
  at_most n m -> (forall a, emits not_clearance (k a)) -> at_most n (bind m k).
Proof.
  intros Hm Hk st. unfold bind.
  destruct (Hm st) as [ev1 [E1 L1]].
  destruct (m st) as [a st1]. simpl in E1. subst st1.
  destruct (Hk a (st ++ ev1)) as [ev2 [E2 F2]].
  exists (ev1 ++ ev2). rewrite E2, app_assoc. split; [reflexivity |].
  rewrite List.filter_app, length_app, (filter_none _ ev2) by exact F2. simpl. lia.
Qed.

Ltac not_clearance_auto := solve [emits_auto; reflexivity].

Ltac at_most_step :=
  lazymatch goal with
  | |- at_most _ (ret _) => apply at_most_ret
  | |- at_most _ (emit _) => apply at_most_emit
  | |- at_most _ (reportViolation _ _ _) => apply at_most_emit
  | |- at_most _ (bind _ _) =>
      first [ apply at_most_bind0; [not_clearance_auto | intros ?]
            | apply at_most_bind1; [| intros ?; not_clearance_auto] ]
  | |- at_most _ (if ?c then _ else _) => destruct c eqn:?
  | |- at_most _ (match ?x with _ => _ end) => destruct x eqn:?
  end.

Section AtMostOne.

Variable eng : DRC_ENGINE.
Variable brd : BOARD.
Variable eps : Z.

Lemma testTrackAgainstItem_hole_not_clearance (layer : PCB_LAYER_ID) (a b : BOARD_ITEM)
    (a_shape : SHAPE) :
  emits not_clearance (testTrackAgainstItem_hole eng brd eps layer a b a_shape).
Proof. unfold testTrackAgainstItem_hole. not_clearance_auto. Qed.

Lemma testTrackAgainstItem_at_most_one (track : BOARD_ITEM) (trackShape : SHAPE)
    (layer : PCB_LAYER_ID) (other : BOARD_ITEM) :
  at_most 1 (testTrackAgainstItem eng brd eps track trackShape layer other).
Proof.
  unfold testTrackAgainstItem.
  apply at_most_bind0; [apply emits_get | intros st0]. cbv zeta.
  apply at_most_bind1.
  - unfold testTrackAgainstItem_clearance. repeat at_most_step.
  - intros r. destruct r as [v | has_error]; [apply emits_ret |].
    destruct (_ && _); [| apply emits_ret].
    apply emits_bind; [| intros h; destruct h; apply emits_ret].
    simpl. apply emits_bind; [apply testTrackAgainstItem_hole_not_clearance | intros r1].
    destruct r1; [apply emits_ret |].
    apply emits_bind; [apply testTrackAgainstItem_hole_not_clearance | intros r2].
    destruct r2; apply emits_ret.
Qed.

Lemma testPadAgainstItem_hole_not_clearance (guard : bool) (solid hole : SHAPE)
    (constraint : DRC_CONSTRAINT) (clearance : Z) (pad other : BOARD_ITEM)
    (aLayer : PCB_LAYER_ID) (testHoles : bool) :
  emits not_clearance
        (testPadAgainstItem_hole brd eps guard solid hole constraint clearance pad other
           aLayer testHoles).
Proof. unfold testPadAgainstItem_hole. not_clearance_auto. Qed.

Lemma testPadAgainstItem_at_most_one (pad : BOARD_ITEM) (padShape : SHAPE)
    (aLayer : PCB_LAYER_ID) (other : BOARD_ITEM) :
  at_most 1 (testPadAgainstItem eng brd eps pad padShape aLayer other).
Proof.
  unfold testPadAgainstItem.
  apply at_most_bind0; [apply emits_get | intros st0].
  destruct (testPadAgainstItem_flags brd pad aLayer other _ _) as [tc th].
  destruct (negb tc && _ && negb th); [apply at_most_ret |].
  destruct (_ && SameLogicalPadAs brd pad other).
  { apply at_most_emits. not_clearance_auto. }
  apply at_most_bind1.
  - repeat at_most_step.
  - intros th1. cbv zeta.
    repeat (apply emits_bind;
            [apply testPadAgainstItem_hole_not_clearance || apply emits_get | intros ?]).
    apply emits_ret.
Qed.

Lemma testItemAgainstZone_at_most_one (aItem aZone : BOARD_ITEM) (aLayer : PCB_LAYER_ID) :
  at_most 1 (testItemAgainstZone eng brd eps aItem aZone aLayer).
Proof.
  unfold testItemAgainstZone.
  repeat at_most_step.
Qed.

Lemma testKnockoutTextAgainstZone_at_most_one (aText : BOARD_ITEM)
    (aInheritedNet : option Z) (aZone : BOARD_ITEM) :
  at_most 1 (testKnockoutTextAgainstZone eng brd eps aText aInheritedNet aZone).
Proof.
  unfold testKnockoutTextAgainstZone.
  repeat at_most_step.
Qed.

End AtMostOne.

(** ** Bounds on the clearance violations of a key *)

Lemma occurrences_app (K : KEY) (ev1 ev2 : TRACE) :
  occurrences K (ev1 ++ ev2) = (occurrences K ev1 + occurrences K ev2)%nat.
Proof. unfold occurrences. rewrite List.filter_app, length_app. reflexivity. Qed.

Lemma hits_clearance (K : KEY) (e : EVENT) :
  hits K e = true -> is_violation DRCE_CLEARANCE e = true.
Proof.
  unfold hits. intros H. apply bool_decide_eq_true in H.
  destruct e; simpl in *; try discriminate.
  destruct (PCB_DRC_CODE_eqb (GetErrorCode item) DRCE_CLEARANCE); [reflexivity | discriminate].
Qed.

Lemma filter_length_le {A} (f g : A -> bool) (l : list A) :
  (forall x, f x = true -> g x = true) ->
  (length (List.filter f l) <= length (List.filter g l))%nat.
Proof.
  intros Hfg. induction l as [| x l IH]; simpl; [lia |].
  destruct (f x) eqn:Hf.
  - rewrite (Hfg x Hf). simpl. lia.
  - destruct (g x); simpl; lia.
Qed.

Lemma bounded_by_ret {A} (a : A) : bounded_by (fun _ => 0%nat) (ret a).
Proof.
  intros st. exists []. simpl. rewrite app_nil_r. split; [reflexivity |].
  intros K. unfold occurrences. simpl. lia.
Qed.

Lemma bounded_by_done {A} (B : KEY -> nat) (a : A) : bounded_by B (ret a).
Proof.
  intros st. exists []. simpl. rewrite app_nil_r. split; [reflexivity |].
  intros K. unfold occurrences. simpl. lia.
Qed.

Lemma bounded_by_weaken {A} (B B' : KEY -> nat) (m : DRC A) :
  (forall K, (B K <= B' K)%nat) -> bounded_by B m -> bounded_by B' m.
Proof.
  intros HB Hm st. destruct (Hm st) as [ev [E L]]. exists ev. split; [exact E |].
  intros K. specialize (L K). specialize (HB K). lia.
Qed.

Lemma bounded_by_emits {A} (m : DRC A) :
  emits not_clearance m -> bounded_by (fun _ => 0%nat) m.
Proof.
  intros Hm st. destruct (Hm st) as [ev [E F]]. exists ev. split; [exact E |].
  intros K. unfold occurrences. rewrite filter_none; [simpl; lia |].
  eapply List.Forall_impl; [| exact F]. intros e He. simpl in He.
  destruct (hits K e) eqn:Hh; [| reflexivity].
  apply hits_clearance in Hh. unfold not_clearance in He. congruence.
Qed.

Lemma bounded_by_bind {A B} (B1 B2 : KEY -> nat) (m : DRC A) (k : A -> DRC B) :
  bounded_by B1 m -> (forall a, bounded_by B2 (k a)) ->
  bounded_by (fun K => (B1 K + B2 K)%nat) (bind m k).
Proof.
  intros Hm Hk st. unfold bind.
  destruct (Hm st) as [ev1 [E1 L1]].
  destruct (m st) as [a st1]. simpl in E1. subst st1.
  destruct (Hk a (st ++ ev1)) as [ev2 [E2 L2]].
  exists (ev1 ++ ev2). rewrite E2, app_assoc. split; [reflexivity |].
  intros K. rewrite occurrences_app. specialize (L1 K). specialize (L2 K). lia.
Qed.

(** A computation that stays silent about clearance, before one that is
    bounded. *)
Lemma bounded_by_bind0 {A B} (B2 : KEY -> nat) (m : DRC A) (k : A -> DRC B) :
  emits not_clearance m -> (forall a, bounded_by B2 (k a)) -> bounded_by B2 (bind m k).
Proof.
  intros Hm Hk.
  eapply bounded_by_weaken; [| apply bounded_by_bind; [apply bounded_by_emits, Hm | exact Hk]].
  intros K. simpl. lia.
Qed.

Lemma bounded_by_bind_silent {A B} (B2 : KEY -> nat) (m : DRC A) (k : A -> DRC B) :
  bounded_by (fun _ => 0%nat) m -> (forall a, bounded_by B2 (k a)) -> bounded_by B2 (bind m k).
Proof.
  intros Hm Hk.
  eapply bounded_by_weaken; [| apply bounded_by_bind; [exact Hm | exact Hk]].
  intros K. simpl. lia.
Qed.

Lemma scheduled_app (K : KEY) (l1 l2 : list KEY) :
  scheduled K (l1 ++ l2) = (scheduled K l1 + scheduled K l2)%nat.
Proof. unfold scheduled. rewrite List.map_app, list_sum_app. reflexivity. Qed.

Lemma returns_ret {A} (Q : A -> Prop) (a : A) : Q a -> returns Q (ret a).
Proof. intros HQ st. exact HQ. Qed.

Lemma returns_bind {A B} (Q : B -> Prop) (m : DRC A) (k : A -> DRC B) :
  (forall a, returns Q (k a)) -> returns Q (bind m k).
Proof. intros Hk st. unfold bind. destruct (m st) as [a st1]. apply Hk. Qed.

(** A test that reports at most one clearance violation, and that one under
    the key [k0]. *)
Lemma bounded_by_one {A} (m : DRC A) (S : EVENT -> Prop) (k0 : KEY) :
  at_most 1 m -> emits S m ->
  (forall e K, S e -> hits K e = true -> K = k0) ->
  bounded_by (fun K => one_if K k0) m.
Proof.
  intros Hone Hspec Hkey st.
  destruct (Hone st) as [ev [E L]]. destruct (Hspec st) as [ev' [E' F]].
  rewrite E in E'. apply app_inv_head in E'. subst ev'.
  exists ev. split; [exact E |]. intros K. unfold one_if.
  case_bool_decide as HK.
  - etransitivity; [| exact L]. apply filter_length_le. apply hits_clearance.
  - unfold occurrences. rewrite filter_none; [simpl; lia |].
    eapply List.Forall_impl; [| exact F]. intros e He. simpl in He.
    destruct (hits K e) eqn:Hh; [| reflexivity].
    exfalso. apply HK. eapply Hkey; eauto.
Qed.

Ltac hits_key :=
  match goal with
  | H : hits _ _ = true |- _ =>
      unfold hits in H; apply bool_decide_eq_true in H; simpl in H;
      try discriminate; injection H as <-; reflexivity
  end.

Section Bounds.

Variable eng : DRC_ENGINE.
Variable brd : BOARD.
Variable eps : Z.

Lemma testTrackAgainstItem_bound (track : BOARD_ITEM) (trackShape : SHAPE)
    (layer : PCB_LAYER_ID) (other : BOARD_ITEM) :
  bounded_by (fun K => one_if K (item_key track other layer))
             (testTrackAgainstItem eng brd eps track trackShape layer other).
Proof.
  eapply bounded_by_one;
    [apply testTrackAgainstItem_at_most_one | apply testTrackAgainstItem_events |].
  intros e K He Hh. inversion He; subst; hits_key.
Qed.

Lemma testPadAgainstItem_bound (pad : BOARD_ITEM) (padShape : SHAPE)
    (aLayer : PCB_LAYER_ID) (other : BOARD_ITEM) :
  bounded_by (fun K => if is_PCB_TRACK (Type_ other) then 0%nat
                       else one_if K (item_key pad other aLayer))
             (testPadAgainstItem eng brd eps pad padShape aLayer other).
Proof.
  destruct (is_PCB_TRACK (Type_ other)) eqn:Htrack.
  - apply bounded_by_emits.
    eapply emits_weaken; [| apply testPadAgainstItem_events].
    intros e He. inversion He; subst; try reflexivity; congruence.
  - eapply bounded_by_one;
      [apply testPadAgainstItem_at_most_one | apply testPadAgainstItem_events |].
    intros e K He Hh. inversion He; subst; hits_key.
Qed.

Lemma testItemAgainstZone_bound (aItem aZone : BOARD_ITEM) (aLayer : PCB_LAYER_ID) :
  bounded_by (fun K => one_if K (item_key aItem aZone aLayer))
             (testItemAgainstZone eng brd eps aItem aZone aLayer).
Proof.
  eapply bounded_by_one;
    [apply testItemAgainstZone_at_most_one | apply testItemAgainstZone_events |].
  intros e K He Hh. inversion He; subst; hits_key.
Qed.

Lemma testKnockoutTextAgainstZone_bound (aText : BOARD_ITEM) (aInheritedNet : option Z)
    (aZone : BOARD_ITEM) :
  bounded_by (fun K => one_if K (item_key aText aZone (GetLayer aText)))
             (testKnockoutTextAgainstZone eng brd eps aText aInheritedNet aZone).
Proof.
  eapply bounded_by_one;
    [apply testKnockoutTextAgainstZone_at_most_one
    | apply testKnockoutTextAgainstZone_events |].
  intros e K He Hh. inversion He; subst; hits_key.
Qed.

Lemma reportProgress_bound (count size delta : Z) :
  bounded_by (fun _ => 0%nat) (reportProgress eng count size delta).
Proof. apply bounded_by_emits. unfold reportProgress. not_clearance_auto. Qed.

(** The zone loop of one item on one layer. *)
Lemma testItemAgainstZones_bound (item : BOARD_ITEM) (layer : PCB_LAYER_ID)
    (zones : list BOARD_ITEM) :
  bounded_by (fun K => scheduled K (List.map (fun zone => item_key item zone layer) zones))
             (testItemAgainstZones eng brd eps item layer zones).
Proof.
  induction zones as [| zone rest IH]; simpl.
  - apply bounded_by_ret.
  - apply bounded_by_bind; [apply testItemAgainstZone_bound | intros _].
    apply bounded_by_bind0; [apply emits_get | intros st].
    destruct (IsCancelled eng st); [apply bounded_by_done | exact IH].
Qed.

End Bounds.

(** ** A query of the copper item R-tree against a memo *)

Section Query.

(** The memo [S] of the two lambdas, and the potential [bit] of a key in it:
    whether the memo accounts for a clearance violation of that key. *)
Context {S : Type}.
Variable bit : S -> KEY -> bool.
Variable filter : BOARD_ITEM -> S -> bool * S.
Variable visitor : BOARD_ITEM -> S -> DRC (bool * S).
Variable weight : BOARD_ITEM -> KEY -> nat.
Variable candidates : list BOARD_ITEM.

Hypothesis filter_accepts : forall other s s1,
  filter other s = (true, s1) ->
  forall K, as_nat (bit s1 K) = (as_nat (bit s K) + weight other K)%nat.
Hypothesis filter_rejects : forall other s s1,
  filter other s = (false, s1) -> forall K, bit s1 K = bit s K.
Hypothesis visitor_bound : forall other s,
  In other candidates -> bounded_by (weight other) (visitor other s).
Hypothesis visitor_memo : forall other s,
  returns (fun r => forall K, bit (snd r) K = bit s K) (visitor other s).

Lemma QueryColliding_bound (s : S) (st : TRACE) :
  exists ev,
    snd (QueryColliding candidates filter visitor s st) = st ++ ev
    /\ forall K,
        (occurrences K ev + as_nat (bit s K)
         <= as_nat (bit (fst (QueryColliding candidates filter visitor s st)) K))%nat.
Proof.
  revert visitor_bound s st.
  induction candidates as [| other rest IH]; intros Hbound s st; simpl.
  - exists []. rewrite app_nil_r. split; [reflexivity |]. intros K.
    unfold occurrences. simpl. lia.
  - assert (Hrest : forall o s0, In o rest -> bounded_by (weight o) (visitor o s0)).
    { intros o s0 Ho. apply Hbound. right; exact Ho. }
    destruct (filter other s) as [accepted s1] eqn:Hf. destruct accepted.
    + unfold bind.
      destruct (Hbound other s1 (or_introl eq_refl) st) as [ev1 [E1 L1]].
      assert (Hmemo := visitor_memo other s1 st).
      destruct (visitor other s1 st) as [[continue s2] st1].
      simpl in E1, Hmemo. subst st1. simpl.
      destruct continue.
      * destruct (IH Hrest s2 (st ++ ev1)) as [ev2 [E2 L2]].
        exists (ev1 ++ ev2). rewrite E2, app_assoc. split; [reflexivity |].
        intros K. rewrite occurrences_app.
        specialize (L1 K). specialize (L2 K).
        assert (Hacc := filter_accepts other s s1 Hf K).
        rewrite (Hmemo K) in L2. lia.
      * exists ev1. split; [reflexivity |]. intros K. simpl.
        specialize (L1 K). assert (Hacc := filter_accepts other s s1 Hf K).
        rewrite (Hmemo K). lia.
    + destruct (IH Hrest s1 st) as [ev [E L]].
      exists ev. split; [exact E |]. intros K. specialize (L K).
      rewrite (filter_rejects other s s1 Hf K) in L. exact L.
Qed.

End Query.

(** ** The track phase reports a key at most once *)

Lemma is_addr_of_In (items : list BOARD_ITEM) (x : Z) :
  is_addr_of items x = true <-> In x (List.map addr items).
Proof.
  unfold is_addr_of. rewrite existsb_exists, in_map_iff.
  split; intros [i [H1 H2]]; exists i.
  - apply Z.eqb_eq in H2. auto.
  - split; [exact H2 | apply Z.eqb_eq; exact H1].
Qed.

Lemma canonical_key_cases (a b : BOARD_ITEM) :
  canonical_key a b = (addr a, addr b) \/ canonical_key a b = (addr b, addr a).
Proof. unfold canonical_key. destruct (addr b <? addr a); auto. Qed.

Section WellFormed.

Variable brd : BOARD.
Hypothesis wf : well_formed_board brd.

Lemma copper_item_not_zone (i : BOARD_ITEM) :
  In i (copper_items brd) -> is_addr_of (m_DRCCopperZones brd) (addr i) = false.
Proof.
  intros Hi. destruct wf as [Hnodup _].
  rewrite List.map_app in Hnodup.
  destruct (is_addr_of (m_DRCCopperZones brd) (addr i)) eqn:E; [| reflexivity].
  apply is_addr_of_In in E. exfalso.
  apply NoDup_ListNoDup, NoDup_app in Hnodup as (_ & Hdisj & _).
  apply (Hdisj (addr i)).
  - apply list_elem_of_In. apply in_map. exact Hi.
  - apply list_elem_of_In. exact E.
Qed.

Lemma track_is_copper_item (t : BOARD_ITEM) : In t (Tracks brd) -> In t (copper_items brd).
Proof. intros Ht. unfold copper_items. apply in_or_app. left; exact Ht. Qed.

Lemma track_class_key (track other : BOARD_ITEM) (layer : PCB_LAYER_ID) :
  In track (Tracks brd) -> In other (copper_items brd) ->
  track_class brd (item_key track other layer) = true.
Proof.
  intros Ht Ho. unfold track_class, has_track, has_zone, item_key. simpl.
  assert (Haddr : is_addr_of (Tracks brd) (addr track) = true).
  { apply is_addr_of_In. apply in_map. exact Ht. }
  assert (Hz1 := copper_item_not_zone track (track_is_copper_item track Ht)).
  assert (Hz2 := copper_item_not_zone other Ho).
  destruct (canonical_key_cases track other) as [-> | ->]; simpl;
    rewrite Haddr, Hz1, Hz2; simpl; rewrite ?orb_true_r; reflexivity.
Qed.

End WellFormed.

Section TrackPhase.

Variable eng : DRC_ENGINE.
Variable brd : BOARD.
Variable eps : Z.
Hypothesis wf : well_formed_board brd.

Lemma track_filter_bits (track : BOARD_ITEM) (layer : PCB_LAYER_ID) (other : BOARD_ITEM)
    (cp cp1 : gmap (Z * Z) layers_checked) (K : KEY) :
  track_filter eng track layer other cp = (true, cp1) ->
  as_nat (layer_tested cp1 K)
  = (as_nat (layer_tested cp K) + one_if K (item_key track other layer))%nat.
Proof.
  unfold track_filter.
  destruct (is_BOARD_CONNECTED_ITEM (Type_ other) && (GetNetCode other =? GetNetCode track));
    [discriminate |].
  destruct K as [kp kl]. unfold layer_tested, one_if, item_key. simpl.
  set (key := canonical_key track other).
  destruct (cp !! key) as [it |] eqn:Hcp.
  - destruct (LSET_test (layers it) layer || has_error it && negb (GetReportAllTrackErrors eng))
      eqn:Hc; [discriminate |].
    apply orb_false_elim in Hc as [Hbit _].
    intros [= <-].
    destruct (decide (kp = key)) as [-> | Hkp].
    + rewrite lookup_insert_eq, Hcp. simpl.
      destruct (decide (kl = layer)) as [-> | Hkl].
      * rewrite LSET_test_set_same, Hbit, bool_decide_eq_true_2 by reflexivity. reflexivity.
      * rewrite LSET_test_set_other by exact Hkl.
        rewrite bool_decide_eq_false_2 by congruence. simpl. lia.
    + rewrite lookup_insert_ne by congruence.
      rewrite bool_decide_eq_false_2 by congruence. simpl. lia.
  - intros [= <-].
    destruct (decide (kp = key)) as [-> | Hkp].
    + rewrite lookup_insert_eq, Hcp. simpl.
      destruct (decide (kl = layer)) as [-> | Hkl].
      * rewrite LSET_test_set_same, bool_decide_eq_true_2 by reflexivity. reflexivity.
      * rewrite LSET_test_set_other, LSET_test_empty by exact Hkl.
        rewrite bool_decide_eq_false_2 by congruence. reflexivity.
    + rewrite lookup_insert_ne by congruence.
      rewrite bool_decide_eq_false_2 by congruence. simpl. lia.
Qed.

Lemma track_filter_rejected (track : BOARD_ITEM) (layer : PCB_LAYER_ID) (other : BOARD_ITEM)
    (cp cp1 : gmap (Z * Z) layers_checked) :
  track_filter eng track layer other cp = (false, cp1) -> cp1 = cp.
Proof.
  unfold track_filter. case_ifs; try congruence.
  destruct (cp !! canonical_key track other); case_ifs; congruence.
Qed.

Lemma layer_tested_alter (key : Z * Z) (cp : gmap (Z * Z) layers_checked) (K : KEY) :
  layer_tested (alter set_has_error key cp) K = layer_tested cp K.
Proof.
  unfold layer_tested. destruct (decide (K.1 = key)) as [<- | Hne].
  - rewrite lookup_alter_eq. destruct (cp !! K.1); reflexivity.
  - rewrite lookup_alter_ne by congruence. reflexivity.
Qed.

Lemma track_visitor_memo (track : BOARD_ITEM) (trackShape : SHAPE) (layer : PCB_LAYER_ID)
    (other : BOARD_ITEM) (m : track_memo) :
  returns (fun r => forall K, track_bit brd (snd r) K = track_bit brd m K)
          (track_visitor eng brd eps track trackShape layer other m).
Proof.
  unfold track_visitor.
  apply returns_bind; intros st.
  destruct (IsCancelled eng st); [apply returns_ret; reflexivity |].
  apply returns_bind; intros [[v | []] fpm]; [apply returns_ret; reflexivity |].
  apply returns_bind; intros ok.
  destruct (negb ok).
  - destruct (negb (GetReportAllTrackErrors eng));
      [| apply returns_bind; intros st'];
      apply returns_ret; intros K; unfold track_bit; simpl;
      rewrite layer_tested_alter; reflexivity.
  - apply returns_bind; intros st'. apply returns_ret. reflexivity.
Qed.

Lemma track_visitor_bound (track : BOARD_ITEM) (trackShape : SHAPE) (layer : PCB_LAYER_ID)
    (other : BOARD_ITEM) (m : track_memo) :
  bounded_by (fun K => one_if K (item_key track other layer))
             (track_visitor eng brd eps track trackShape layer other m).
Proof.
  unfold track_visitor.
  apply bounded_by_bind0; [apply emits_get | intros st].
  destruct (IsCancelled eng st).
  { apply bounded_by_done. }
  apply bounded_by_bind0.
  { unfold track_visitor_freePad. not_clearance_auto. }
  intros [[v | []] fpm].
  { apply bounded_by_done. }
  eapply bounded_by_weaken;
    [| apply bounded_by_bind with (B2 := fun _ => 0%nat);
       [apply testTrackAgainstItem_bound |]].
  { intros K. simpl. lia. }
  intros ok. apply bounded_by_emits. not_clearance_auto.
Qed.

Lemma track_query_bound (track : BOARD_ITEM) (layer : PCB_LAYER_ID) (m : track_memo)
    (st : TRACE) :
  In track (Tracks brd) ->
  let query :=
    QueryColliding (CopperItemRTree brd track layer) (track_filter_memo eng track layer)
      (track_visitor eng brd eps track (EffectiveShape track layer) layer) m st in
  exists ev,
    snd query = st ++ ev
    /\ forall K, (occurrences K ev + as_nat (track_bit brd m K)
                  <= as_nat (track_bit brd (fst query) K))%nat.
Proof.
  intros Htrack. simpl.
  apply QueryColliding_bound with (weight := track_weight brd track layer).
  - intros other s s1 Hf K. unfold track_filter_memo in Hf.
    destruct (track_filter eng track layer other (tm_checkedPairs s)) as [acc cp1] eqn:Hf'.
    injection Hf as -> <-. unfold track_bit, track_weight. simpl.
    assert (Hbits := track_filter_bits track layer other _ _ K Hf').
    destruct (track_class brd K); rewrite ?andb_true_r, ?andb_false_r; simpl; lia.
  - intros other s s1 Hf K. unfold track_filter_memo in Hf.
    destruct (track_filter eng track layer other (tm_checkedPairs s)) as [acc cp1] eqn:Hf'.
    injection Hf as -> <-. unfold track_bit. simpl.
    apply track_filter_rejected in Hf'. subst cp1. reflexivity.
  - intros other s Hother.
    eapply bounded_by_weaken; [| apply track_visitor_bound].
    intros K. unfold track_weight, one_if. case_bool_decide as HK; [| lia].
    subst K. rewrite track_class_key; [lia | exact wf | exact Htrack |].
    destruct wf as (_ & _ & Hrtree). eapply Hrtree; eauto.
  - intros other s. apply track_visitor_memo.
Qed.

Lemma testTrackClearances_layers_bound (track : BOARD_ITEM) (layerSeq : list PCB_LAYER_ID)
    (m : track_memo) (st : TRACE) :
  In track (Tracks brd) ->
  let run := testTrackClearances_layers eng brd eps track layerSeq m st in
  exists ev,
    snd run = st ++ ev
    /\ forall K, (occurrences K ev + as_nat (track_bit brd m K)
                  <= as_nat (track_bit brd (fst run) K)
                     + scheduled K (zone_schedule (m_DRCCopperZones brd) track layerSeq))%nat.
Proof.
  intros Htrack. revert m st.
  induction layerSeq as [| layer rest IH]; intros m st; simpl.
  - exists []. rewrite app_nil_r. split; [reflexivity |]. intros K.
    unfold occurrences, scheduled. simpl. lia.
  - unfold bind.
    destruct (track_query_bound track layer m st Htrack) as [ev1 [E1 L1]].
    destruct (QueryColliding _ _ _ m st) as [m1 st1]. simpl in E1, L1. subst st1.
    destruct (testItemAgainstZones_bound eng brd eps track layer (m_DRCCopperZones brd)
                (st ++ ev1)) as [ev2 [E2 L2]].
    destruct (testItemAgainstZones eng brd eps track layer _ (st ++ ev1)) as [fin st2].
    simpl in E2. subst st2.
    destruct (IH m1 ((st ++ ev1) ++ ev2)) as [ev3 [E3 L3]].
    exists (ev1 ++ ev2 ++ ev3). rewrite E3, !app_assoc. split; [reflexivity |].
    intros K. rewrite !occurrences_app, scheduled_app.
    specialize (L1 K). specialize (L2 K). specialize (L3 K). lia.
Qed.

Lemma testTrackClearances_tracks_bound (tracks : list BOARD_ITEM) (ii size : Z)
    (m : track_memo) (st : TRACE) :
  (forall t, In t tracks -> In t (Tracks brd)) ->
  exists ev,
    snd (testTrackClearances_tracks eng brd eps tracks ii size m st) = st ++ ev
    /\ forall K, (occurrences K ev + as_nat (track_bit brd m K)
                  <= as_nat (track_class brd K)
                     + scheduled K (layered_schedule brd tracks))%nat.
Proof.
  revert ii m st.
  induction tracks as [| track rest IH]; intros ii m st Hin; simpl.
  - exists []. rewrite app_nil_r. split; [reflexivity |]. intros K.
    unfold occurrences, scheduled, track_bit. simpl.
    destruct (layer_tested _ K), (track_class brd K); simpl; lia.
  - unfold bind.
    destruct (reportProgress_bound eng ii size 100 st) as [ev0 [E0 L0]].
    destruct (reportProgress eng ii size 100 st) as [continue st0].
    simpl in E0. subst st0.
    destruct (negb continue).
    + exists ev0. split; [reflexivity |]. intros K. specialize (L0 K).
      unfold track_bit. destruct (layer_tested _ K), (track_class brd K); simpl; lia.
    + destruct (testTrackClearances_layers_bound track (copper_layers_of brd track) m
                  (st ++ ev0) (Hin track (or_introl eq_refl))) as [ev1 [E1 L1]].
      destruct (testTrackClearances_layers eng brd eps track _ m (st ++ ev0)) as [m1 st1].
      simpl in E1, L1. subst st1.
      destruct (IH (ii + 1) m1 ((st ++ ev0) ++ ev1)) as [ev2 [E2 L2]].
      { intros t Ht. apply Hin. right; exact Ht. }
      exists (ev0 ++ ev1 ++ ev2). rewrite E2, !app_assoc. split; [reflexivity |].
      intros K. rewrite !occurrences_app.
      change (layered_schedule brd (track :: rest))
        with (zone_schedule (m_DRCCopperZones brd) track (copper_layers_of brd track)
              ++ layered_schedule brd rest).
      rewrite scheduled_app.
      specialize (L0 K). specialize (L1 K). specialize (L2 K). lia.
Qed.

Lemma testTrackClearances_bound :
  bounded_by (fun K => (as_nat (track_class brd K)
                        + scheduled K (layered_schedule brd (Tracks brd)))%nat)
             (testTrackClearances eng brd eps).
Proof.
  unfold testTrackClearances.
  apply bounded_by_bind0; [not_clearance_auto | intros _].
  intros st.
  destruct (testTrackClearances_tracks_bound (Tracks brd) 0
              (Z.of_nat (length (Tracks brd)))
              {| tm_checkedPairs := ∅; tm_freePadsUsageMap := ∅ |} st) as [ev [E L]];
    [auto |].
  exists ev. split; [exact E |]. intros K. specialize (L K). lia.
Qed.

End TrackPhase.

(** ** The pad phase reports a key at most once *)

Lemma same_address_same_item (items : list BOARD_ITEM) (x y : BOARD_ITEM) :
  List.NoDup (List.map addr items) -> In x items -> In y items -> addr x = addr y -> x = y.
Proof.
  induction items as [| i rest IH]; simpl; [contradiction |].
  intros Hnd Hx Hy Haddr. apply NoDup_cons_iff in Hnd as [Hfresh Hnd].
  destruct Hx as [-> | Hx], Hy as [-> | Hy]; auto.
  - exfalso. apply Hfresh. rewrite Haddr. apply in_map. exact Hy.
  - exfalso. apply Hfresh. rewrite <- Haddr. apply in_map. exact Hx.
Qed.

Section WellFormedPads.

Variable brd : BOARD.
Hypothesis wf : well_formed_board brd.

Lemma copper_items_distinct : List.NoDup (List.map addr (copper_items brd)).
Proof.
  destruct wf as [Hnodup _]. rewrite List.map_app in Hnodup.
  eapply NoDup_app_remove_r. exact Hnodup.
Qed.

Lemma pad_is_copper_item (p : BOARD_ITEM) : In p (all_pads brd) -> In p (copper_items brd).
Proof.
  intros Hp. unfold copper_items. apply in_or_app. right. apply in_or_app. left; exact Hp.
Qed.

Lemma pad_not_track (p : BOARD_ITEM) :
  In p (all_pads brd) -> is_addr_of (Tracks brd) (addr p) = false.
Proof.
  intros Hp. destruct (is_addr_of (Tracks brd) (addr p)) eqn:E; [| reflexivity].
  exfalso. apply is_addr_of_In in E.
  assert (Hnd := copper_items_distinct). unfold copper_items in Hnd.
  rewrite List.map_app in Hnd.
  apply NoDup_ListNoDup, NoDup_app in Hnd as (_ & Hdisj & _).
  apply (Hdisj (addr p)).
  - apply list_elem_of_In. exact E.
  - apply list_elem_of_In. apply in_map. apply in_or_app. left; exact Hp.
Qed.

Lemma not_track_type_not_track (o : BOARD_ITEM) :
  In o (copper_items brd) -> is_PCB_TRACK (Type_ o) = false ->
  is_addr_of (Tracks brd) (addr o) = false.
Proof.
  intros Ho Htype. destruct (is_addr_of (Tracks brd) (addr o)) eqn:E; [| reflexivity].
  exfalso. apply is_addr_of_In in E. apply in_map_iff in E as [t [Haddr Ht]].
  assert (t = o).
  { eapply same_address_same_item;
      [apply copper_items_distinct | apply track_is_copper_item; exact Ht | exact Ho
      | exact Haddr]. }
  subst t. destruct wf as (_ & Htracks & _). rewrite (Htracks o Ht) in Htype. discriminate.
Qed.

Lemma pad_class_key (pad other : BOARD_ITEM) (layer : PCB_LAYER_ID) :
  In pad (all_pads brd) -> In other (copper_items brd) ->
  is_PCB_TRACK (Type_ other) = false ->
  pad_class brd (item_key pad other layer) = true.
Proof.
  intros Hp Ho Htype. unfold pad_class, has_track, has_zone, item_key. simpl.
  assert (Ht1 := pad_not_track pad Hp).
  assert (Ht2 := not_track_type_not_track other Ho Htype).
  assert (Hz1 := copper_item_not_zone brd wf pad (pad_is_copper_item pad Hp)).
  assert (Hz2 := copper_item_not_zone brd wf other Ho).
  destruct (canonical_key_cases pad other) as [-> | ->]; simpl;
    rewrite Ht1, Ht2, Hz1, Hz2; reflexivity.
Qed.

End WellFormedPads.

Section PadPhase.

Variable eng : DRC_ENGINE.
Variable brd : BOARD.
Variable eps : Z.
Hypothesis wf : well_formed_board brd.

Lemma pad_filter_bits (pad : BOARD_ITEM) (layer : PCB_LAYER_ID) (other : BOARD_ITEM)
    (cp cp1 : gmap (Z * Z) Z) (K : KEY) :
  pad_filter pad layer other cp = (true, cp1) ->
  as_nat (pair_tested cp1 K)
  = (as_nat (pair_tested cp K) + as_nat (bool_decide (K.1 = canonical_key pad other)))%nat.
Proof.
  unfold pad_filter, pair_tested.
  destruct (cp !! canonical_key pad other) eqn:Hcp; [discriminate |].
  intros [= <-].
  destruct (decide (K.1 = canonical_key pad other)) as [HK | HK].
  - rewrite (bool_decide_eq_true_2 (K.1 = _)) by exact HK.
    rewrite HK, lookup_insert_eq, Hcp.
    rewrite bool_decide_eq_true_2 by eauto.
    rewrite bool_decide_eq_false_2 by (intros [? ?]; discriminate). reflexivity.
  - rewrite (bool_decide_eq_false_2 (K.1 = _)) by exact HK.
    rewrite lookup_insert_ne by congruence. simpl. lia.
Qed.

Lemma pad_filter_rejected (pad : BOARD_ITEM) (layer : PCB_LAYER_ID) (other : BOARD_ITEM)
    (cp cp1 : gmap (Z * Z) Z) :
  pad_filter pad layer other cp = (false, cp1) -> cp1 = cp.
Proof.
  unfold pad_filter. destruct (cp !! canonical_key pad other); congruence.
Qed.

Lemma pad_query_bound (pad : BOARD_ITEM) (layer : PCB_LAYER_ID) (cp : gmap (Z * Z) Z)
    (st : TRACE) :
  In pad (all_pads brd) ->
  let query :=
    QueryColliding (CopperItemRTree brd pad layer) (pad_filter pad layer)
      (pad_visitor eng brd eps pad (EffectiveShape pad layer) layer) cp st in
  exists ev,
    snd query = st ++ ev
    /\ forall K, (occurrences K ev + as_nat (pad_bit brd cp K)
                  <= as_nat (pad_bit brd (fst query) K))%nat.
Proof.
  intros Hpad. simpl.
  apply QueryColliding_bound with (weight := pad_weight brd pad).
  - intros other s s1 Hf K. unfold pad_bit, pad_weight.
    assert (Hbits := pad_filter_bits pad layer other _ _ K Hf).
    destruct (pad_class brd K); rewrite ?andb_true_r, ?andb_false_r; simpl; lia.
  - intros other s s1 Hf K. apply pad_filter_rejected in Hf. subst s1. reflexivity.
  - intros other s Hother. unfold pad_visitor.
    eapply bounded_by_weaken;
      [| apply bounded_by_bind with (B2 := fun _ => 0%nat);
         [apply testPadAgainstItem_bound | intros r; apply bounded_by_done]].
    intros K. simpl. unfold pad_weight, one_if.
    destruct (is_PCB_TRACK (Type_ other)) eqn:Htype; [lia |].
    case_bool_decide as HK; [| lia].
    subst K. rewrite pad_class_key; [| exact wf | exact Hpad | | exact Htype].
    + simpl. rewrite bool_decide_eq_true_2 by reflexivity. simpl. lia.
    + destruct wf as (_ & _ & Hrtree). eapply Hrtree; eauto.
  - intros other s. unfold pad_visitor.
    apply returns_bind; intros r. apply returns_ret. reflexivity.
Qed.

Lemma pad_bit_le (cp : gmap (Z * Z) Z) (K : KEY) :
  (as_nat (pad_bit brd cp K) <= as_nat (pad_class brd K))%nat.
Proof. unfold pad_bit. destruct (pair_tested cp K), (pad_class brd K); simpl; lia. Qed.

Lemma testPadClearances_layers_bound (pad : BOARD_ITEM) (layerSeq : list PCB_LAYER_ID)
    (cp : gmap (Z * Z) Z) (st : TRACE) :
  In pad (all_pads brd) ->
  let run := testPadClearances_layers eng brd eps pad layerSeq cp st in
  exists ev,
    snd run = st ++ ev
    /\ forall K, (occurrences K ev + as_nat (pad_bit brd cp K)
                  <= pad_bit_after brd (fst run) K
                     + scheduled K (zone_schedule (m_DRCCopperZones brd) pad layerSeq))%nat.
Proof.
  intros Hpad. revert cp st.
  induction layerSeq as [| layer rest IH]; intros cp st; simpl.
  - exists []. rewrite app_nil_r. split; [reflexivity |]. intros K.
    unfold occurrences, scheduled. simpl. lia.
  - unfold bind.
    destruct (pad_query_bound pad layer cp st Hpad) as [ev1 [E1 L1]].
    destruct (QueryColliding _ _ _ cp st) as [cp1 st1]. simpl in E1, L1. subst st1.
    destruct (testItemAgainstZones_bound eng brd eps pad layer (m_DRCCopperZones brd)
                (st ++ ev1)) as [ev2 [E2 L2]].
    destruct (testItemAgainstZones eng brd eps pad layer _ (st ++ ev1)) as [fin st2].
    simpl in E2. subst st2.
    destruct fin.
    + destruct (IH cp1 ((st ++ ev1) ++ ev2)) as [ev3 [E3 L3]].
      exists (ev1 ++ ev2 ++ ev3). rewrite E3, !app_assoc. split; [reflexivity |].
      intros K. rewrite !occurrences_app, scheduled_app.
      specialize (L1 K). specialize (L2 K). specialize (L3 K). lia.
    + exists (ev1 ++ ev2). rewrite !app_assoc. split; [reflexivity |].
      intros K. rewrite !occurrences_app, scheduled_app. simpl.
      specialize (L1 K). specialize (L2 K).
      assert (Hle := pad_bit_le cp1 K). lia.
Qed.

Lemma testPadClearances_pads_bound (pads : list BOARD_ITEM) (ii count : Z)
    (cp : gmap (Z * Z) Z) (st : TRACE) :
  (forall p, In p pads -> In p (all_pads brd)) ->
  let run := testPadClearances_pads eng brd eps pads ii count cp st in
  exists ev,
    snd run = st ++ ev
    /\ forall K, (occurrences K ev + as_nat (pad_bit brd cp K)
                  <= match fst run with
                     | Next (_, cp') => as_nat (pad_bit brd cp' K)
                     | Return _ => as_nat (pad_class brd K)
                     end
                     + scheduled K (layered_schedule brd pads))%nat.
Proof.
  revert ii cp st.
  induction pads as [| pad rest IH]; intros ii cp st Hin; simpl.
  - exists []. rewrite app_nil_r. split; [reflexivity |]. intros K.
    unfold occurrences, scheduled. simpl. lia.
  - unfold bind.
    destruct (testPadClearances_layers_bound pad (copper_layers_of brd pad) cp st
                (Hin pad (or_introl eq_refl))) as [ev1 [E1 L1]].
    destruct (testPadClearances_layers eng brd eps pad _ cp st) as [r st1].
    simpl in E1, L1. subst st1.
    change (layered_schedule brd (pad :: rest))
      with (zone_schedule (m_DRCCopperZones brd) pad (copper_layers_of brd pad)
            ++ layered_schedule brd rest).
    destruct r as [[] | cp1]; cbv beta iota.
    + exists ev1. split; [reflexivity |]. intros K. rewrite scheduled_app.
      specialize (L1 K). simpl in *. lia.
    + destruct (reportProgress_bound eng ii count 100 (st ++ ev1)) as [ev0 [E0 L0]].
      destruct (reportProgress eng ii count 100 (st ++ ev1)) as [continue st0].
      simpl in E0. subst st0.
      destruct (negb continue); simpl.
      * exists (ev1 ++ ev0). rewrite !app_assoc. split; [reflexivity |].
        intros K. rewrite occurrences_app, scheduled_app.
        specialize (L1 K). specialize (L0 K). simpl in L1.
        assert (Hle := pad_bit_le cp1 K). lia.
      * destruct (IH (ii + 1) cp1 ((st ++ ev1) ++ ev0)) as [ev2 [E2 L2]].
        { intros p Hp. apply Hin. right; exact Hp. }
        exists (ev1 ++ ev0 ++ ev2). rewrite E2, !app_assoc. split; [reflexivity |].
        intros K. rewrite !occurrences_app, scheduled_app.
        specialize (L1 K). specialize (L0 K). specialize (L2 K). simpl in L1. lia.
Qed.

Lemma layered_schedule_app (l1 l2 : list BOARD_ITEM) :
  layered_schedule brd (l1 ++ l2) = layered_schedule brd l1 ++ layered_schedule brd l2.
Proof.
  unfold layered_schedule, work_schedule, layered.
  rewrite List.map_app, flat_map_app. reflexivity.
Qed.

Lemma testPadClearances_footprints_bound (footprints : list FOOTPRINT) (ii count : Z)
    (cp : gmap (Z * Z) Z) (st : TRACE) :
  (forall p, In p (flat_map Pads footprints) -> In p (all_pads brd)) ->
  exists ev,
    snd (testPadClearances_footprints eng brd eps footprints ii count cp st) = st ++ ev
    /\ forall K, (occurrences K ev + as_nat (pad_bit brd cp K)
                  <= as_nat (pad_class brd K)
                     + scheduled K (layered_schedule brd (flat_map Pads footprints)))%nat.
Proof.
  revert ii cp st.
  induction footprints as [| footprint rest IH]; intros ii cp st Hin; simpl.
  - exists []. rewrite app_nil_r. split; [reflexivity |]. intros K.
    unfold occurrences, scheduled. simpl. assert (Hle := pad_bit_le cp K). lia.
  - unfold bind.
    destruct (testPadClearances_pads_bound (Pads footprint) ii count cp st) as [ev1 [E1 L1]].
    { intros p Hp. apply Hin. simpl. apply in_or_app. left; exact Hp. }
    destruct (testPadClearances_pads eng brd eps (Pads footprint) ii count cp st)
      as [r st1].
    simpl in E1, L1. subst st1.
    rewrite layered_schedule_app.
    destruct r as [[] | [ii' cp1]]; simpl.
    + exists ev1. split; [reflexivity |]. intros K. rewrite scheduled_app.
      specialize (L1 K). lia.
    + destruct (IsCancelled eng (st ++ ev1)); simpl.
      * exists ev1. split; [reflexivity |]. intros K. rewrite scheduled_app.
        specialize (L1 K). assert (Hle := pad_bit_le cp1 K). lia.
      * destruct (IH ii' cp1 (st ++ ev1)) as [ev2 [E2 L2]].
        { intros p Hp. apply Hin. simpl. apply in_or_app. right; exact Hp. }
        exists (ev1 ++ ev2). rewrite E2, !app_assoc. split; [reflexivity |].
        intros K. rewrite !occurrences_app, scheduled_app.
        specialize (L1 K). specialize (L2 K). lia.
Qed.

Lemma testPadClearances_bound :
  bounded_by (fun K => (as_nat (pad_class brd K)
                        + scheduled K (layered_schedule brd (all_pads brd)))%nat)
             (testPadClearances eng brd eps).
Proof.
  unfold testPadClearances.
  apply bounded_by_bind0; [not_clearance_auto | intros _].
  intros st.
  destruct (testPadClearances_footprints_bound (Footprints brd) 0
              (count_pads (Footprints brd)) ∅ st) as [ev [E L]]; [auto |].
  exists ev. split; [exact E |]. intros K. specialize (L K).
  unfold all_pads. lia.
Qed.

End PadPhase.

(** ** The graphic phase reports a key at most once *)

Section GraphicPhase.

Variable eng : DRC_ENGINE.
Variable brd : BOARD.
Variable eps : Z.

Lemma testGraphicAgainstZone_zones_bound (item : BOARD_ITEM) (inherited : option Z)
    (zones : list BOARD_ITEM) :
  bounded_by (fun K => scheduled K (List.map (fun zone => item_key item zone (GetLayer item))
                                             zones))
             (testGraphicAgainstZone_zones eng brd eps item inherited zones).
Proof.
  revert inherited. induction zones as [| zone rest IH]; intros inherited; simpl.
  - apply bounded_by_done.
  - apply bounded_by_bind.
    + destruct (isKnockoutText item).
      * apply testKnockoutTextAgainstZone_bound.
      * eapply bounded_by_weaken;
          [| apply bounded_by_bind with (B2 := fun _ => 0%nat);
             [apply testItemAgainstZone_bound | intros; apply bounded_by_done]].
        intros K. simpl. lia.
    + intros inherited'. apply bounded_by_bind0; [apply emits_get | intros st].
      destruct (IsCancelled eng st); [apply bounded_by_done | apply IH].
Qed.

Lemma testGraphicAgainstZone_bound (item : BOARD_ITEM) :
  bounded_by (fun K => scheduled K (zone_schedule (m_DRCCopperZones brd) item
                                      [GetLayer item]))
             (testGraphicAgainstZone eng brd eps item).
Proof.
  unfold testGraphicAgainstZone.
  destruct (KICAD_T_eqb (Type_ item) PCB_BITMAP_T); [apply bounded_by_done |].
  destruct (negb (IsCopperLayer (GetLayer item))); [apply bounded_by_done |].
  eapply bounded_by_weaken; [| apply testGraphicAgainstZone_zones_bound].
  intros K. unfold zone_schedule. simpl. rewrite app_nil_r. lia.
Qed.

Lemma testGraphicClearances_items_bound (items : list BOARD_ITEM) (ii count : Z) :
  bounded_by (fun K => scheduled K (own_layer_schedule brd items))
             (testGraphicClearances_items eng brd eps items ii count).
Proof.
  revert ii. induction items as [| item rest IH]; intros ii; simpl.
  - apply bounded_by_done.
  - eapply bounded_by_weaken;
      [| apply bounded_by_bind; [apply testGraphicAgainstZone_bound | intros _]].
    + intros K.
      change (own_layer_schedule brd (item :: rest))
        with (zone_schedule (m_DRCCopperZones brd) item [GetLayer item]
              ++ own_layer_schedule brd rest).
      rewrite scheduled_app. apply Nat.le_refl.
    + apply bounded_by_bind_silent; [apply reportProgress_bound | intros c].
      destruct (negb c); [apply bounded_by_done | apply IH].
Qed.

Lemma own_layer_schedule_app (l1 l2 : list BOARD_ITEM) :
  own_layer_schedule brd (l1 ++ l2) = own_layer_schedule brd l1 ++ own_layer_schedule brd l2.
Proof.
  unfold own_layer_schedule, work_schedule, on_own_layer.
  rewrite List.map_app, flat_map_app. reflexivity.
Qed.

Lemma testGraphicClearances_footprints_bound (footprints : list FOOTPRINT) (ii count : Z) :
  bounded_by (fun K => scheduled K (own_layer_schedule brd
                                      (flat_map GraphicalItems footprints)))
             (testGraphicClearances_footprints eng brd eps footprints ii count).
Proof.
  revert ii. induction footprints as [| footprint rest IH]; intros ii; simpl.
  - apply bounded_by_done.
  - eapply bounded_by_weaken;
      [| apply bounded_by_bind with
           (B2 := fun K => scheduled K (own_layer_schedule brd
                                          (flat_map GraphicalItems rest)));
         [apply testGraphicClearances_items_bound | intros r]].
    + intros K. rewrite own_layer_schedule_app, scheduled_app. apply Nat.le_refl.
    + destruct r as [[] | ii']; [apply bounded_by_done | apply IH].
Qed.

Lemma testGraphicClearances_bound :
  bounded_by (fun K => scheduled K (own_layer_schedule brd (all_graphics brd)))
             (testGraphicClearances eng brd eps).
Proof.
  unfold testGraphicClearances.
  apply bounded_by_bind0; [not_clearance_auto | intros _].
  eapply bounded_by_weaken;
    [| apply bounded_by_bind with
         (B2 := fun K => scheduled K (own_layer_schedule brd
                                        (flat_map GraphicalItems (Footprints brd))));
       [apply testGraphicClearances_items_bound | intros r]].
  - intros K. unfold all_graphics. rewrite own_layer_schedule_app, scheduled_app.
    apply Nat.le_refl.
  - destruct r as [[] | ii']; [apply bounded_by_done |].
    apply testGraphicClearances_footprints_bound.
Qed.

End GraphicPhase.

(** ** The zone phase reports a key at most once per task *)

Lemma bounded_by_emit_key (e : EVENT) (k0 : KEY) :
  clearance_key e = Some k0 -> bounded_by (fun K => one_if K k0) (emit e).
Proof.
  intros Hkey st. exists [e]. split; [reflexivity |]. intros K.
  unfold occurrences, one_if, hits. simpl. rewrite Hkey.
  destruct (decide (K = k0)) as [-> | Hne].
  - rewrite !bool_decide_eq_true_2 by reflexivity. simpl. lia.
  - rewrite (bool_decide_eq_false_2 (Some k0 = Some K)) by congruence. simpl. lia.
Qed.

Lemma returns_bind_strong {A B} (Q1 : A -> Prop) (Q : B -> Prop) (m : DRC A)
    (k : A -> DRC B) :
  returns Q1 m -> (forall a, Q1 a -> returns Q (k a)) -> returns Q (bind m k).
Proof.
  intros Hm Hk st. unfold bind. specialize (Hm st).
  destruct (m st) as [a st1]. apply Hk. exact Hm.
Qed.

Lemma returns_weaken {A} (Q Q' : A -> Prop) (m : DRC A) :
  (forall a, Q a -> Q' a) -> returns Q m -> returns Q' m.
Proof. intros HQ Hm st. apply HQ, Hm. Qed.

Lemma indexed_lookup_from {A} (l : list A) (n i : nat) (x : A) :
  In (i, x) (List.combine (List.seq n (length l)) l) -> (n <= i)%nat /\ l !! (i - n)%nat = Some x.
Proof.
  revert n. induction l as [| y l IH]; intros n; simpl; [tauto |].
  intros [[= <- <-] | Hin].
  - split; [lia |]. rewrite Nat.sub_diag. reflexivity.
  - apply IH in Hin as [Hle Hl]. split; [lia |].
    replace (i - n)%nat with (S (i - S n)) by lia. exact Hl.
Qed.

Lemma indexed_lookup {A} (l : list A) (i : nat) (x : A) :
  In (i, x) (indexed l) -> l !! i = Some x.
Proof.
  intros Hin. apply indexed_lookup_from in Hin as [_ Hl].
  rewrite Nat.sub_0_r in Hl. exact Hl.
Qed.

Lemma indexed_items_from {A} (l : list A) (n : nat) :
  List.map snd (List.combine (List.seq n (length l)) l) = l.
Proof.
  revert n. induction l as [| y l IH]; intros n; simpl; [reflexivity |].
  rewrite IH. reflexivity.
Qed.

Lemma indexed_items {A} (l : list A) : List.map snd (indexed l) = l.
Proof. apply indexed_items_from. Qed.

Section ZonePhase.

Variable eng : DRC_ENGINE.
Variable brd : BOARD.

Lemma report_zone_result_bound (tc ti cancelled : bool) (ps : poly_segments_t)
    (task : zone_task) :
  bounded_by (fun K => scheduled K (task_key brd task))
             (report_zone_result eng brd tc ti (run_zone_task brd tc ti cancelled ps task)).
Proof.
  unfold run_zone_task.
  assert (Hres := checkZones_result brd tc ti cancelled (Z.of_nat (zt_zoneA task))
                    (Z.of_nat (zt_zoneB task)) (zt_clearance task) (zt_layer task)
                    (poly_segments_at ps (zt_zoneA task) (zt_layer task))
                    (poly_segments_at ps (zt_zoneB task) (zt_layer task))).
  cbv zeta in Hres.
  destruct Hres as [Hinv | (HA & HB & _ & HL & _)].
  - rewrite Hinv. unfold report_zone_result. simpl. apply bounded_by_done.
  - unfold report_zone_result, task_key. rewrite HA, HB, HL, !Nat2Z.id.
    destruct (negb _); [| apply bounded_by_done].
    destruct (m_DRCCopperZones brd !! zt_zoneA task) as [zoneA |]; [| apply bounded_by_done].
    destruct (m_DRCCopperZones brd !! zt_zoneB task) as [zoneB |]; [| apply bounded_by_done].
    destruct (_ && ti).
    + eapply bounded_by_weaken; [| apply bounded_by_emits].
      * intros K. apply Nat.le_0_l.
      * unfold reportViolation. not_clearance_auto.
    + destruct tc; [| apply bounded_by_done].
      eapply bounded_by_weaken; [| apply bounded_by_emit_key; reflexivity].
      intros K. unfold scheduled. simpl. lia.
Qed.

Lemma collect_futures_bound (tc ti : bool) (ps : poly_segments_t)
    (futures : list zone_task) (cancelled : bool) :
  bounded_by (fun K => scheduled K (task_keys brd futures))
             (collect_futures eng brd tc ti ps futures cancelled).
Proof.
  revert cancelled. induction futures as [| task rest IH]; intros cancelled; simpl.
  - apply bounded_by_done.
  - apply bounded_by_bind0; [apply emits_get | intros st].
    destruct (IsCancelled eng st).
    + eapply bounded_by_weaken; [| apply IH].
      intros K. rewrite scheduled_app. unfold task_keys. lia.
    + eapply bounded_by_weaken;
        [| apply bounded_by_bind; [apply report_zone_result_bound | intros _; apply IH]].
      intros K. rewrite scheduled_app. apply Nat.le_refl.
Qed.

Lemma submit_pair_silent (layer : PCB_LAYER_ID) (ia : nat) (zoneA : BOARD_ITEM) (ia2 : nat)
    (zoneB : BOARD_ITEM) :
  bounded_by (fun _ => 0%nat) (submit_pair eng brd layer ia zoneA ia2 zoneB).
Proof.
  apply bounded_by_emits. unfold submit_pair.
  repeat match goal with
         | |- emits _ (if ?c then _ else _) => destruct c
         end; not_clearance_auto.
Qed.

Lemma submit_pairs_silent (layer : PCB_LAYER_ID) (ia : nat) (zoneA : BOARD_ITEM)
    (others : list (nat * BOARD_ITEM)) :
  bounded_by (fun _ => 0%nat) (submit_pairs eng brd layer ia zoneA others).
Proof.
  induction others as [| [ia2 zoneB] rest IH]; simpl; [apply bounded_by_ret |].
  apply bounded_by_bind_silent; [apply submit_pair_silent | intros task].
  apply bounded_by_bind_silent; [exact IH | intros more]. apply bounded_by_ret.
Qed.

Lemma submit_zones_silent (layer : PCB_LAYER_ID) (size : Z) (zs : list (nat * BOARD_ITEM))
    (futures : list zone_task) :
  bounded_by (fun _ => 0%nat) (submit_zones eng brd layer size zs futures).
Proof.
  revert futures. induction zs as [| [ia zoneA] rest IH]; intros futures; simpl;
    [apply bounded_by_ret |].
  apply bounded_by_bind_silent; [apply reportProgress_bound | intros c].
  destruct (negb c); [apply bounded_by_ret |].
  destruct (negb _); [apply IH |].
  apply bounded_by_bind_silent; [apply submit_pairs_silent | intros more]. apply IH.
Qed.

Lemma submit_layers_silent (layerIds : list PCB_LAYER_ID) (zs : list (nat * BOARD_ITEM))
    (ps : poly_segments_t) (futures : list zone_task) :
  bounded_by (fun _ => 0%nat) (submit_layers eng brd layerIds zs ps futures).
Proof.
  revert ps futures. induction layerIds as [| layer rest IH]; intros ps futures; simpl;
    [apply bounded_by_ret |].
  destruct (negb _); [apply IH |].
  apply bounded_by_bind_silent; [apply submit_zones_silent | intros r].
  destruct r as [[] | futures']; [apply bounded_by_ret | apply IH].
Qed.

Lemma submit_pair_returns (layer : PCB_LAYER_ID) (ia : nat) (zoneA : BOARD_ITEM) (ia2 : nat)
    (zoneB : BOARD_ITEM) :
  returns (fun r => forall t, r = Some t ->
                    zt_zoneA t = ia /\ zt_zoneB t = ia2 /\ zt_layer t = layer)
          (submit_pair eng brd layer ia zoneA ia2 zoneB).
Proof.
  intros st. unfold submit_pair.
  repeat match goal with
         | |- context [if ?c then _ else _] => destruct c
         end; simpl; intros t [= <-] || (intros t; discriminate).
  simpl. auto.
Qed.

Lemma submit_pairs_returns (layer : PCB_LAYER_ID) (ia : nat) (zoneA : BOARD_ITEM)
    (others : list (nat * BOARD_ITEM)) :
  m_DRCCopperZones brd !! ia = Some zoneA ->
  (forall i z, In (i, z) others -> m_DRCCopperZones brd !! i = Some z) ->
  returns (fun tasks => forall K,
             (scheduled K (task_keys brd tasks)
              <= scheduled K (List.map (fun zoneB => item_key zoneA zoneB layer)
                                       (List.map snd others)))%nat)
          (submit_pairs eng brd layer ia zoneA others).
Proof.
  intros Hia. induction others as [| [ia2 zoneB] rest IH]; intros Hothers; simpl.
  - apply returns_ret. intros K. apply Nat.le_refl.
  - eapply returns_bind_strong; [apply submit_pair_returns | intros task Htask].
    eapply returns_bind_strong;
      [apply IH; intros i z Hin; apply Hothers; right; exact Hin | intros more Hmore].
    apply returns_ret. intros K. specialize (Hmore K).
    change (scheduled K (?x :: ?l)) with (one_if K x + scheduled K l)%nat.
    destruct task as [t |]; [| lia].
    destruct (Htask t eq_refl) as (HA & HB & HL).
    change (task_keys brd (t :: more)) with (task_key brd t ++ task_keys brd more).
    rewrite scheduled_app. unfold task_key. rewrite HA, HB, HL, Hia.
    rewrite (Hothers ia2 zoneB) by (left; reflexivity).
    change (scheduled K [?x]) with (one_if K x + 0)%nat. lia.
Qed.

Lemma submit_zones_returns (layer : PCB_LAYER_ID) (size : Z) (zs : list (nat * BOARD_ITEM))
    (futures : list zone_task) :
  (forall i z, In (i, z) zs -> m_DRCCopperZones brd !! i = Some z) ->
  returns (fun r => forall fs, r = Next fs -> forall K,
             (scheduled K (task_keys brd fs)
              <= scheduled K (task_keys brd futures)
                 + scheduled K (pairs_schedule layer (List.map snd zs)))%nat)
          (submit_zones eng brd layer size zs futures).
Proof.
  revert futures. induction zs as [| [ia zoneA] rest IH]; intros futures Hzs; simpl.
  - apply returns_ret. intros fs [= <-] K. lia.
  - assert (Hrest : forall i z, In (i, z) rest -> m_DRCCopperZones brd !! i = Some z)
      by (intros i z Hin; apply Hzs; right; exact Hin).
    apply returns_bind. intros c.
    destruct (negb c); [apply returns_ret; discriminate |].
    destruct (negb _).
    + eapply returns_weaken; [| apply IH; exact Hrest].
      intros r Hr fs Hfs K. specialize (Hr fs Hfs K). rewrite scheduled_app. lia.
    + eapply returns_bind_strong;
        [apply submit_pairs_returns;
           [apply Hzs; left; reflexivity | exact Hrest] | intros more Hmore].
      eapply returns_weaken; [| apply IH; exact Hrest].
      intros r Hr fs Hfs K. specialize (Hr fs Hfs K). specialize (Hmore K).
      unfold task_keys in *. rewrite flat_map_app in Hr.
      rewrite !scheduled_app in *. lia.
Qed.

Lemma submit_layers_returns (layerIds : list PCB_LAYER_ID) (zs : list (nat * BOARD_ITEM))
    (ps : poly_segments_t) (futures : list zone_task) :
  (forall i z, In (i, z) zs -> m_DRCCopperZones brd !! i = Some z) ->
  returns (fun r => forall ps' fs, r = Next (ps', fs) -> forall K,
             (scheduled K (task_keys brd fs)
              <= scheduled K (task_keys brd futures)
                 + scheduled K (flat_map (fun layer => pairs_schedule layer (List.map snd zs))
                                         layerIds))%nat)
          (submit_layers eng brd layerIds zs ps futures).
Proof.
  intros Hzs. revert ps futures.
  induction layerIds as [| layer rest IH]; intros ps futures; simpl.
  - apply returns_ret. intros ps' fs [= <- <-] K. lia.
  - destruct (negb _).
    + eapply returns_weaken; [| apply IH].
      intros r Hr ps' fs Hfs K. specialize (Hr ps' fs Hfs K). rewrite scheduled_app. lia.
    + eapply returns_bind_strong; [apply submit_zones_returns; exact Hzs | intros r Hr].
      destruct r as [[] | futures']; [apply returns_ret; discriminate |].
      eapply returns_weaken; [| apply IH].
      intros r Hr' ps' fs Hfs K. specialize (Hr' ps' fs Hfs K).
      specialize (Hr futures' eq_refl K). rewrite scheduled_app. lia.
Qed.

Lemma testZonesToZones_bound :
  bounded_by (fun K => scheduled K (zone_pair_schedule brd copper_layer_ids))
             (testZonesToZones eng brd).
Proof.
  unfold testZonesToZones.
  apply bounded_by_bind0; [apply emits_get | intros st0]. intros st. unfold bind.
  destruct (submit_layers_silent copper_layer_ids (indexed (m_DRCCopperZones brd))
              (replicate (length (m_DRCCopperZones brd)) ∅) [] st) as [ev1 [E1 L1]].
  assert (R := submit_layers_returns copper_layer_ids (indexed (m_DRCCopperZones brd))
                 (replicate (length (m_DRCCopperZones brd)) ∅) []
                 (fun i z => indexed_lookup (m_DRCCopperZones brd) i z) st).
  destruct (submit_layers eng brd copper_layer_ids _ _ _ st) as [r st1].
  simpl in E1, R. subst st1.
  destruct r as [[] | [ps fs]]; simpl.
  - exists ev1. split; [reflexivity |]. intros K. specialize (L1 K). lia.
  - destruct (collect_futures_bound
                (negb (IsErrorLimitExceeded eng st0 DRCE_CLEARANCE))
                (negb (IsErrorLimitExceeded eng st0 DRCE_ZONES_INTERSECT))
                ps fs false (st ++ ev1)) as [ev2 [E2 L2]].
    exists (ev1 ++ ev2). rewrite E2, app_assoc. split; [reflexivity |].
    intros K. rewrite occurrences_app.
    specialize (L1 K). specialize (L2 K). specialize (R ps fs eq_refl K).
    rewrite indexed_items in R. unfold zone_pair_schedule.
    change (scheduled K (task_keys brd [])) with 0%nat in R. lia.
Qed.

End ZonePhase.

(** ** The whole run *)

Section RunBound.

Variable eng : DRC_ENGINE.
Variable brd : BOARD.
Hypothesis wf : well_formed_board brd.

Lemma run_phase_bound (B : KEY -> nat) (msg : string) (test : DRC unit) :
  bounded_by B test -> bounded_by B (run_phase eng msg test).
Proof.
  intros Htest. unfold run_phase, reportPhase.
  apply bounded_by_bind0; [not_clearance_auto | intros c].
  destruct (negb c); [apply bounded_by_done |].
  eapply bounded_by_weaken;
    [| apply bounded_by_bind with (B2 := fun _ => 0%nat);
       [exact Htest | intros; apply bounded_by_done]].
  intros K. simpl. lia.
Qed.

Lemma and_then_bound {R A B} (B1 B2 : KEY -> nat) (m : DRC (FLOW R A))
    (k : A -> DRC (FLOW R B)) :
  bounded_by B1 m -> (forall a, bounded_by B2 (k a)) ->
  bounded_by (fun K => (B1 K + B2 K)%nat) (and_then m k).
Proof.
  intros Hm Hk. unfold and_then. apply bounded_by_bind; [exact Hm | intros r].
  destruct r as [v | a]; [apply bounded_by_done | apply Hk].
Qed.

Ltac guarded_phase test :=
  repeat first
    [ apply run_phase_bound; test
    | apply bounded_by_done
    | apply bounded_by_bind0; [not_clearance_auto | intros ?]
    | match goal with |- bounded_by _ (if ?c then _ else _) => destruct c end ].

Lemma Run_bound : bounded_by (run_bound brd) (Run eng brd).
Proof.
  unfold Run. destruct (m_DRCMaxClearance brd <=? 0).
  { eapply bounded_by_weaken; [| apply bounded_by_emits; not_clearance_auto].
    intros K. apply Nat.le_0_l. }
  cbv zeta.
  eapply bounded_by_weaken;
    [| apply bounded_by_bind with
         (B1 := fun K =>
            ((as_nat (track_class brd K) + scheduled K (layered_schedule brd (Tracks brd)))
             + ((as_nat (pad_class brd K)
                 + scheduled K (layered_schedule brd (all_pads brd)))
                + (scheduled K (own_layer_schedule brd (all_graphics brd))
                   + scheduled K (zone_pair_schedule brd copper_layer_ids))))%nat)
         (B2 := fun _ => 0%nat)].
  - intros K. unfold run_bound, run_schedule, run_work, work_schedule.
    rewrite !flat_map_app, !scheduled_app.
    unfold layered_schedule, own_layer_schedule, work_schedule. lia.
  - apply and_then_bound; [| intros _; apply and_then_bound; [| intros _;
      apply and_then_bound with (B1 := fun K =>
        scheduled K (own_layer_schedule brd (all_graphics brd))); [| intros _]]].
    + guarded_phase ltac:(apply testTrackClearances_bound; exact wf).
    + guarded_phase ltac:(apply testPadClearances_bound; exact wf).
    + guarded_phase ltac:(apply testGraphicClearances_bound).
    + guarded_phase ltac:(apply testZonesToZones_bound).
  - intros r. destruct r as [v | []]; [apply bounded_by_done |].
    apply bounded_by_emits. not_clearance_auto.
Qed.

End RunBound.

(** ** No test of the run is scheduled twice *)

Lemma scheduled_cons (K k0 : KEY) (l : list KEY) :
  scheduled K (k0 :: l) = (one_if K k0 + scheduled K l)%nat.
Proof. reflexivity. Qed.

Lemma scheduled_absent (K : KEY) (l : list KEY) : ~ In K l -> scheduled K l = 0%nat.
Proof.
  induction l as [| k0 l IH]; intros Hout; [reflexivity |].
  rewrite scheduled_cons, IH by (intros Hin; apply Hout; right; exact Hin).
  unfold one_if. rewrite bool_decide_eq_false_2; [reflexivity |].
  intros ->. apply Hout. left; reflexivity.
Qed.

Lemma scheduled_NoDup (K : KEY) (l : list KEY) : List.NoDup l -> (scheduled K l <= 1)%nat.
Proof.
  induction 1 as [| k0 l Hfresh Hnd IH]; [unfold scheduled; simpl; lia |].
  rewrite scheduled_cons. unfold one_if. case_bool_decide as HK; [| lia].
  subst k0. rewrite scheduled_absent by exact Hfresh. lia.
Qed.

Lemma NoDup_flat_map {A B} (f : A -> list B) (l : list A) :
  List.NoDup l ->
  (forall x, In x l -> List.NoDup (f x)) ->
  (forall x y b, In x l -> In y l -> In b (f x) -> In b (f y) -> x = y) ->
  List.NoDup (flat_map f l).
Proof.
  induction 1 as [| x l Hfresh Hnd IH]; intros Heach Hcross; simpl; [constructor |].
  apply List.NoDup_app.
  - apply Heach. left; reflexivity.
  - apply IH.
    + intros y Hy. apply Heach. right; exact Hy.
    + intros y z b Hy Hz. apply Hcross; right; assumption.
  - intros b Hb Hin. apply in_flat_map in Hin as [y [Hy Hby]].
    apply Hfresh. rewrite (Hcross x y b); auto; [left; reflexivity | right; exact Hy].
Qed.

Lemma NoDup_map_injective {A B} (f : A -> B) (l : list A) (x y : A) :
  List.NoDup (List.map f l) -> In x l -> In y l -> f x = f y -> x = y.
Proof.
  induction l as [| i rest IH]; simpl; [contradiction |].
  intros Hnd Hx Hy Hf. apply NoDup_cons_iff in Hnd as [Hfresh Hnd].
  destruct Hx as [-> | Hx], Hy as [-> | Hy]; auto.
  - exfalso. apply Hfresh. rewrite Hf. apply in_map. exact Hy.
  - exfalso. apply Hfresh. rewrite <- Hf. apply in_map. exact Hx.
Qed.

Lemma canonical_key_inj (a b a' b' : BOARD_ITEM) :
  canonical_key a b = canonical_key a' b' ->
  addr a = addr a' /\ addr b = addr b' \/ addr a = addr b' /\ addr b = addr a'.
Proof.
  unfold canonical_key.
  destruct (addr b <? addr a), (addr b' <? addr a'); intros [= -> ->]; auto.
Qed.

Lemma LSET_Seq_NoDup (s : LSET) : List.NoDup (LSET_Seq s).
Proof.
  unfold LSET_Seq. apply List.NoDup_filter.
  apply NoDup_map_NoDup_ForallPairs; [| apply seq_NoDup].
  intros x y _ _. apply Nat2N.inj.
Qed.

Lemma copper_layer_ids_NoDup : List.NoDup copper_layer_ids.
Proof.
  unfold copper_layer_ids.
  apply NoDup_map_NoDup_ForallPairs; [| apply seq_NoDup].
  intros x y _ _. apply Nat2N.inj.
Qed.

Lemma In_zone_schedule (zones : list BOARD_ITEM) (item : BOARD_ITEM)
    (layerSeq : list PCB_LAYER_ID) (K : KEY) :
  In K (zone_schedule zones item layerSeq) ->
  exists layer zone, In layer layerSeq /\ In zone zones /\ K = item_key item zone layer.
Proof.
  unfold zone_schedule. intros Hin.
  apply in_flat_map in Hin as [layer [Hlayer Hin]].
  apply in_map_iff in Hin as [zone [<- Hzone]]. eauto.
Qed.

Lemma In_pairs_schedule (layer : PCB_LAYER_ID) (zs : list BOARD_ITEM) (K : KEY) :
  In K (pairs_schedule layer zs) ->
  exists a b, In a zs /\ In b zs /\ K = item_key a b layer.
Proof.
  induction zs as [| zoneA rest IH]; simpl; [contradiction |].
  intros Hin. apply in_app_or in Hin as [Hin | Hin].
  - apply in_map_iff in Hin as [zoneB [<- HB]]. exists zoneA, zoneB. auto.
  - destruct (IH Hin) as (a & b & Ha & Hb & ->). exists a, b. auto.
Qed.

Lemma NoDup_pairs_schedule (layer : PCB_LAYER_ID) (zs : list BOARD_ITEM) :
  List.NoDup (List.map addr zs) -> List.NoDup (pairs_schedule layer zs).
Proof.
  induction zs as [| zoneA rest IH]; simpl; intros Hnd; [constructor |].
  apply NoDup_cons_iff in Hnd as [Hfresh Hnd].
  assert (Hapart : forall z, In z rest -> addr zoneA <> addr z).
  { intros z Hz Heq. apply Hfresh. rewrite Heq. apply in_map. exact Hz. }
  apply List.NoDup_app.
  - apply NoDup_map_NoDup_ForallPairs; [| eapply NoDup_map_inv; exact Hnd].
    intros a b Ha Hb [= Hkey].
    apply canonical_key_inj in Hkey as [[_ Hkey] | [Hkey _]].
    + eapply same_address_same_item; eauto.
    + exfalso. apply (Hapart b Hb). exact Hkey.
  - apply IH. exact Hnd.
  - intros K Hin Hrest.
    apply in_map_iff in Hin as [zoneB [<- HB]].
    apply In_pairs_schedule in Hrest as (a & b & Ha & Hb & [= Hkey]).
    apply canonical_key_inj in Hkey as [[Hkey _] | [Hkey _]].
    + apply (Hapart a Ha). exact Hkey.
    + apply (Hapart b Hb). exact Hkey.
Qed.

Section Schedules.

Variable brd : BOARD.
Hypothesis wf : well_formed_board brd.

Lemma zones_distinct : List.NoDup (List.map addr (m_DRCCopperZones brd)).
Proof.
  destruct wf as [Hnodup _]. rewrite List.map_app in Hnodup.
  eapply NoDup_app_remove_l. exact Hnodup.
Qed.

Lemma copper_item_apart_from_zone (i z : BOARD_ITEM) :
  In i (copper_items brd) -> In z (m_DRCCopperZones brd) -> addr i <> addr z.
Proof.
  intros Hi Hz Heq. assert (H := copper_item_not_zone brd wf i Hi).
  assert (H' : is_addr_of (m_DRCCopperZones brd) (addr i) = true).
  { apply is_addr_of_In. rewrite Heq. apply in_map. exact Hz. }
  congruence.
Qed.

Lemma work_key_inj (i i' z z' : BOARD_ITEM) (l l' : PCB_LAYER_ID) :
  In i (copper_items brd) -> In i' (copper_items brd) ->
  In z (m_DRCCopperZones brd) -> In z' (m_DRCCopperZones brd) ->
  item_key i z l = item_key i' z' l' ->
  addr i = addr i' /\ z = z' /\ l = l'.
Proof.
  intros Hi Hi' Hz Hz' [= Hkey Hl].
  apply canonical_key_inj in Hkey as [[Hii Hzz] | [Hiz _]].
  - repeat split; [exact Hii | | exact Hl].
    eapply same_address_same_item; [apply zones_distinct | | | exact Hzz]; assumption.
  - exfalso. eapply copper_item_apart_from_zone; [exact Hi | exact Hz' | exact Hiz].
Qed.

Lemma NoDup_zone_schedule (item : BOARD_ITEM) (layerSeq : list PCB_LAYER_ID) :
  In item (copper_items brd) -> List.NoDup layerSeq ->
  List.NoDup (zone_schedule (m_DRCCopperZones brd) item layerSeq).
Proof.
  intros Hitem Hlayers. unfold zone_schedule. apply NoDup_flat_map; [exact Hlayers | |].
  - intros layer _.
    apply NoDup_map_NoDup_ForallPairs; [| eapply NoDup_map_inv; apply zones_distinct].
    intros a b Ha Hb Hkey.
    apply (work_key_inj item item a b layer layer) in Hkey; tauto.
  - intros x y K _ _ Hx Hy.
    apply in_map_iff in Hx as [a [<- _]]. apply in_map_iff in Hy as [b [[= _ Hl] _]].
    congruence.
Qed.

Lemma NoDup_work_schedule (work : list (BOARD_ITEM * list PCB_LAYER_ID)) :
  (forall w, In w work -> In w.1 (copper_items brd) /\ List.NoDup w.2) ->
  List.NoDup (List.map (fun w => addr w.1) work) ->
  List.NoDup (work_schedule (m_DRCCopperZones brd) work).
Proof.
  intros Hwork Hnd. unfold work_schedule. apply NoDup_flat_map.
  - eapply NoDup_map_inv. exact Hnd.
  - intros w Hw. destruct (Hwork w Hw). apply NoDup_zone_schedule; assumption.
  - intros w w' K Hw Hw' HK HK'.
    apply In_zone_schedule in HK as (l & z & Hl & Hz & ->).
    apply In_zone_schedule in HK' as (l' & z' & Hl' & Hz' & Hkey).
    apply work_key_inj in Hkey as [Haddr _];
      [| apply Hwork; assumption | apply Hwork; assumption | assumption | assumption].
    eapply (NoDup_map_injective (fun w => addr w.1)); eauto.
Qed.

Lemma run_work_items :
  List.map (fun w => addr w.1) (run_work brd) = List.map addr (copper_items brd).
Proof.
  unfold run_work, layered, on_own_layer, copper_items.
  rewrite !List.map_app, !List.map_map. reflexivity.
Qed.

Lemma run_work_sound (w : BOARD_ITEM * list PCB_LAYER_ID) :
  In w (run_work brd) -> In w.1 (copper_items brd) /\ List.NoDup w.2.
Proof.
  unfold run_work, layered, on_own_layer, copper_items. intros Hw.
  apply in_app_or in Hw as [Hw | Hw]; [| apply in_app_or in Hw as [Hw | Hw]];
    apply in_map_iff in Hw as [i [<- Hi]]; simpl; split;
    try apply LSET_Seq_NoDup; try (repeat constructor; simpl; tauto).
  - apply in_or_app. left; exact Hi.
  - apply in_or_app. right. apply in_or_app. left; exact Hi.
  - apply in_or_app. right. apply in_or_app. right; exact Hi.
Qed.

Lemma NoDup_zone_pair_schedule (layerIds : list PCB_LAYER_ID) :
  List.NoDup layerIds -> List.NoDup (zone_pair_schedule brd layerIds).
Proof.
  intros Hlayers. unfold zone_pair_schedule. apply NoDup_flat_map; [exact Hlayers | |].
  - intros layer _. apply NoDup_pairs_schedule. apply zones_distinct.
  - intros x y K _ _ Hx Hy.
    apply In_pairs_schedule in Hx as (a & b & _ & _ & ->).
    apply In_pairs_schedule in Hy as (a' & b' & _ & _ & [= _ Hl]). exact Hl.
Qed.

Lemma NoDup_run_schedule : List.NoDup (run_schedule brd).
Proof.
  unfold run_schedule. apply List.NoDup_app.
  - apply NoDup_work_schedule; [apply run_work_sound |].
    rewrite run_work_items. apply copper_items_distinct. exact wf.
  - apply NoDup_zone_pair_schedule. apply copper_layer_ids_NoDup.
  - intros K HK Hpairs. unfold work_schedule in HK.
    apply in_flat_map in HK as [w [Hw HK]].
    apply In_zone_schedule in HK as (l & z & _ & Hz & ->).
    unfold zone_pair_schedule in Hpairs.
    apply in_flat_map in Hpairs as [l' [_ Hpairs]].
    apply In_pairs_schedule in Hpairs as (a & b & Ha & Hb & [= Hkey _]).
    destruct (run_work_sound w Hw) as [Hitem _].
    apply canonical_key_inj in Hkey as [[Hkey _] | [Hkey _]].
    + exact (copper_item_apart_from_zone w.1 a Hitem Ha Hkey).
    + exact (copper_item_apart_from_zone w.1 b Hitem Hb Hkey).
Qed.

Lemma zone_key_has_zone (a z : BOARD_ITEM) (layer : PCB_LAYER_ID) :
  In z (m_DRCCopperZones brd) -> has_zone brd (item_key a z layer) = true.
Proof.
  intros Hz. unfold has_zone, item_key. simpl.
  assert (Haddr : is_addr_of (m_DRCCopperZones brd) (addr z) = true).
  { apply is_addr_of_In. apply in_map. exact Hz. }
  destruct (canonical_key_cases a z) as [-> | ->]; simpl; rewrite Haddr;
    rewrite ?orb_true_r; reflexivity.
Qed.

Lemma run_schedule_has_zone (K : KEY) : In K (run_schedule brd) -> has_zone brd K = true.
Proof.
  unfold run_schedule. intros HK. apply in_app_or in HK as [HK | HK].
  - unfold work_schedule in HK. apply in_flat_map in HK as [w [_ HK]].
    apply In_zone_schedule in HK as (l & z & _ & Hz & ->).
    apply zone_key_has_zone. exact Hz.
  - unfold zone_pair_schedule in HK. apply in_flat_map in HK as [l [_ HK]].
    apply In_pairs_schedule in HK as (a & b & _ & Hb & ->).
    apply zone_key_has_zone. exact Hb.
Qed.

Lemma run_bound_le_one (K : KEY) : (run_bound brd K <= 1)%nat.
Proof.
  unfold run_bound, track_class, pad_class.
  destruct (has_zone brd K) eqn:Hzone.
  - rewrite !andb_false_r. simpl.
    apply scheduled_NoDup. apply NoDup_run_schedule.
  - rewrite scheduled_absent.
    + destruct (has_track brd K); simpl; lia.
    + intros HK. apply run_schedule_has_zone in HK. congruence.
Qed.

End Schedules.

(** ** At most one clearance violation per pair and layer *)

Lemma crossing_board_well_formed : well_formed_board Examples.crossing_board.
Proof.
  repeat split.
  - vm_compute. repeat constructor; simpl; intuition discriminate.
  - intros t [<- | [<- | []]]; reflexivity.
  - intros item layer other. simpl.
    destruct (addr item =? 100); intros [<- | []]; simpl; auto.
Qed.

(** C4: on a board whose items are distinct objects, a run of the provider
    reports, for every unordered pair of items (given by their addresses [x]
    and [y]) and every layer, at most one CLEARANCE violation between the two
    on that layer.  The track memo admits a pair once per layer, the pad memo
    once, every item meets every zone once per layer and every zone pair
    gives one task per layer; the bound holds whether or not all track errors
    are reported. *)
Theorem at_most_one_clearance_violation_per_pair_and_layer (eng : DRC_ENGINE) (brd : BOARD)
    (x y : Z) (layer : PCB_LAYER_ID) (st : TRACE) :
  well_formed_board brd ->
  exists ev,
    snd (Run eng brd st) = st ++ ev
    /\ (clearance_violations_between x y layer ev <= 1)%nat.
Proof.
  intros wf. destruct (Run_bound eng brd wf st) as [ev [E L]].
  exists ev. split; [exact E |]. unfold clearance_violations_between.
  etransitivity; [apply L | apply run_bound_le_one; exact wf].
Qed.

Lemma at_most_one_clearance_violation_per_pair_and_layer_witness :
  well_formed_board Examples.crossing_board
  /\ exists ev,
       snd (Run (Examples.engine Examples.no_limits false Examples.clearance5)
                Examples.crossing_board []) = [] ++ ev
       /\ (clearance_violations_between 100 200 F_Cu ev <= 1)%nat.
Proof.
  split; [exact crossing_board_well_formed |].
  apply (at_most_one_clearance_violation_per_pair_and_layer
           (Examples.engine Examples.no_limits false Examples.clearance5)
           Examples.crossing_board 100 200 F_Cu []).
  exact crossing_board_well_formed.
Defined.

(** * Further properties of the provider *)

(** ** The phases of a run *)

Lemma run_phase_post (eng : DRC_ENGINE) (msg : string) (test : DRC unit) (st : TRACE) :
  phase_post eng (fst (run_phase eng msg test st)) (snd (run_phase eng msg test st)).
Proof.
  unfold run_phase, reportPhase, bind, get_trace, emit, ret. simpl.
  destruct (ReportPhase eng st msg) eqn:Hreport; simpl.
  - destruct (test (st ++ [EvPhase msg])); simpl. exact I.
  - split; [reflexivity |]. exists st, msg. auto.
Qed.

Ltac run_phases eng :=
  repeat match goal with
         | |- context [IsErrorLimitExceeded eng ?s ?c] =>
             destruct (IsErrorLimitExceeded eng s c); simpl
         | |- context [run_phase eng ?msg ?t ?s] =>
             let H := fresh "Hphase" in
             pose proof (run_phase_post eng msg t s) as H;
             destruct (run_phase eng msg t s) as [[? | []] ?]; simpl in H |- *
         end.

Lemma Run_ends (eng : DRC_ENGINE) (brd : BOARD) (st : TRACE) :
  0 < m_DRCMaxClearance brd ->
  let run := Run eng brd st in
  (fst run = false /\ stopped_by_phase_report eng (snd run))
  \/ (exists st0, snd run = st0 ++ [EvRuleStatistics]
                  /\ fst run = negb (IsCancelled eng (snd run))).
Proof.
  intros Hmax. unfold Run.
  assert (E : (m_DRCMaxClearance brd <=? 0) = false) by (apply Z.leb_gt; exact Hmax).
  rewrite E. cbv zeta.
  generalize (testTrackClearances eng brd (GetDRCEpsilon brd)).
  generalize (testPadClearances eng brd (GetDRCEpsilon brd)).
  generalize (testGraphicClearances eng brd (GetDRCEpsilon brd)).
  generalize (testZonesToZones eng brd).
  intros zones graphics pads tracks.
  unfold and_then, skip_phase, bind, get_trace, ret, emit. simpl.
  run_phases eng;
    first [ left;
            match goal with
            | H : _ = false /\ stopped_by_phase_report _ _ |- _ => destruct H as [-> Hstop]
            end;
            split; [reflexivity | exact Hstop]
          | right; eexists; split; reflexivity ].
Qed.

(** X1: when the board has clearance constraints, a run ends in one of two
    ways.  Either a phase report was answered with [false]: the run returns
    [false] right after that report, without running the phase or anything
    after it.  Or the run ends with the rule statistics and returns whether
    the engine is not cancelled at that moment. *)
Theorem Run_result (eng : DRC_ENGINE) (brd : BOARD) (st : TRACE) :
  0 < m_DRCMaxClearance brd ->
  let run := Run eng brd st in
  (fst run = false /\ stopped_by_phase_report eng (snd run))
  \/ (exists st0, snd run = st0 ++ [EvRuleStatistics]
                  /\ fst run = negb (IsCancelled eng (snd run))).
Proof. apply Run_ends. Qed.

Lemma Run_result_witness :
  0 < m_DRCMaxClearance Examples.crossing_board
  /\ let run := Run (Examples.engine Examples.no_limits false Examples.clearance5)
                    Examples.crossing_board [] in
     ((fst run = false
       /\ stopped_by_phase_report
            (Examples.engine Examples.no_limits false Examples.clearance5) (snd run))
      \/ (exists st0, snd run = st0 ++ [EvRuleStatistics]
                      /\ fst run = negb (IsCancelled
                                           (Examples.engine Examples.no_limits false
                                              Examples.clearance5) (snd run)))).
Proof.
  split; [reflexivity |].
  apply (Run_result (Examples.engine Examples.no_limits false Examples.clearance5)
           Examples.crossing_board []).
  reflexivity.
Defined.

(** X2: when the error limits of CLEARANCE, HOLE_CLEARANCE, SHORTING_ITEMS
    and ZONES_INTERSECT are all reached, a run on a board with clearance
    constraints enters no phase: it reports no phase, makes no test, reports
    the rule statistics and returns whether the engine is not cancelled. *)
Theorem Run_with_all_limits_reached (eng : DRC_ENGINE) (brd : BOARD) (st : TRACE) :
  0 < m_DRCMaxClearance brd ->
  limit_reached eng DRCE_CLEARANCE ->
  limit_reached eng DRCE_HOLE_CLEARANCE ->
  limit_reached eng DRCE_SHORTING_ITEMS ->
  limit_reached eng DRCE_ZONES_INTERSECT ->
  Run eng brd st
  = (negb (IsCancelled eng (st ++ [EvRuleStatistics])), st ++ [EvRuleStatistics]).
Proof.
  intros Hmax Hclr Hhole Hshort Hinter. unfold Run.
  assert (E : (m_DRCMaxClearance brd <=? 0) = false) by (apply Z.leb_gt; exact Hmax).
  rewrite E. cbv zeta.
  unfold and_then, skip_phase, bind, get_trace, ret, emit. simpl.
  repeat (rewrite ?Hclr, ?Hhole, ?Hshort, ?Hinter; simpl). reflexivity.
Qed.

Lemma Run_with_all_limits_reached_witness :
  Run (Examples.engine (fun _ => true) false Examples.clearance5) Examples.crossing_board []
  = (true, [EvRuleStatistics]).
Proof.
  apply (Run_with_all_limits_reached
           (Examples.engine (fun _ => true) false Examples.clearance5)
           Examples.crossing_board []);
    [reflexivity | | | |]; intros st; reflexivity.
Defined.

(** ** Error limits *)

Lemma if_same {A} (c : bool) (x : A) : (if c then x else x) = x.
Proof. destruct c; reflexivity. Qed.

Section Limits.

Variable eng : DRC_ENGINE.
Variable brd : BOARD.
Variable eps : Z.
Variable code : PCB_DRC_CODE.
Hypothesis limited : PCB_DRC_CODE_eqb code DRCE_TRACKS_CROSSING = false.
Hypothesis reached : limit_reached eng code.

Lemma testTrackAgainstItem_limit (track : BOARD_ITEM) (trackShape : SHAPE)
    (layer : PCB_LAYER_ID) (other : BOARD_ITEM) :
  emits (fun e => is_violation code e = false)
        (testTrackAgainstItem eng brd eps track trackShape layer other).
Proof.
  destruct code; try discriminate.
  - unfold testTrackAgainstItem.
    apply emits_bind; [apply emits_get | intros st0].
    rewrite (reached st0). cbn [negb]. rewrite if_same.
    unfold testTrackAgainstItem_clearance. simpl. unfold testTrackAgainstItem_hole.
    emits_auto; reflexivity.
  - unfold testTrackAgainstItem.
    apply emits_bind; [apply emits_get | intros st0].
    rewrite (reached st0). cbn [negb andb].
    unfold testTrackAgainstItem_clearance.
    emits_auto; reflexivity.
  - eapply emits_weaken; [| apply testTrackAgainstItem_events].
    intros e He. inversion He; reflexivity.
  - eapply emits_weaken; [| apply testTrackAgainstItem_events].
    intros e He. inversion He; reflexivity.
Qed.

Lemma testItemAgainstZone_limit (aItem aZone : BOARD_ITEM) (aLayer : PCB_LAYER_ID) :
  emits (fun e => is_violation code e = false)
        (testItemAgainstZone eng brd eps aItem aZone aLayer).
Proof.
  destruct code; try discriminate.
  - unfold testItemAgainstZone.
    do 3 (match goal with |- emits _ (if ?c then _ else _) => destruct c end;
          [apply emits_ret |]).
    apply emits_bind; [apply emits_get | intros st0].
    rewrite (reached st0). cbn [negb]. rewrite !if_same. simpl.
    emits_auto; reflexivity.
  - unfold testItemAgainstZone.
    do 3 (match goal with |- emits _ (if ?c then _ else _) => destruct c end;
          [apply emits_ret |]).
    apply emits_bind; [apply emits_get | intros st0].
    rewrite (reached st0). cbn [negb andb].
    emits_auto; reflexivity.
  - eapply emits_weaken; [| apply testItemAgainstZone_events].
    intros e He. inversion He; reflexivity.
  - eapply emits_weaken; [| apply testItemAgainstZone_events].
    intros e He. inversion He; reflexivity.
Qed.

(** The prologue of the pad test only lowers the flags. *)
Lemma testPadAgainstItem_flags_lower (pad : BOARD_ITEM) (aLayer : PCB_LAYER_ID)
    (other : BOARD_ITEM) (tc th : bool) :
  (fst (testPadAgainstItem_flags brd pad aLayer other tc th) = true -> tc = true)
  /\ (snd (testPadAgainstItem_flags brd pad aLayer other tc th) = true -> th = true).
Proof.
  unfold testPadAgainstItem_flags.
  split; case_ifs; simpl; intros H; first [exact H | discriminate H].
Qed.

Lemma testPadAgainstItem_limit (pad : BOARD_ITEM) (padShape : SHAPE) (aLayer : PCB_LAYER_ID)
    (other : BOARD_ITEM) :
  emits (fun e => is_violation code e = false)
        (testPadAgainstItem eng brd eps pad padShape aLayer other).
Proof.
  destruct code; try discriminate.
  - unfold testPadAgainstItem.
    apply emits_bind; [apply emits_get | intros st0].
    rewrite (reached st0). cbn [negb].
    destruct (testPadAgainstItem_flags_lower pad aLayer other false
                (negb (IsErrorLimitExceeded eng st0 DRCE_HOLE_CLEARANCE))) as [Htc _].
    destruct (testPadAgainstItem_flags brd pad aLayer other _ _) as [tc th].
    destruct tc; [discriminate (Htc eq_refl) |].
    unfold testPadAgainstItem_hole. emits_auto; reflexivity.
  - unfold testPadAgainstItem.
    apply emits_bind; [apply emits_get | intros st0].
    rewrite (reached st0). cbn [negb].
    destruct (testPadAgainstItem_flags_lower pad aLayer other
                (negb (IsErrorLimitExceeded eng st0 DRCE_CLEARANCE)) false) as [_ Hth].
    destruct (testPadAgainstItem_flags brd pad aLayer other _ _) as [tc th].
    destruct th; [discriminate (Hth eq_refl) |].
    destruct (negb tc && _ && negb false); [apply emits_ret |].
    destruct (_ && SameLogicalPadAs brd pad other); [emits_auto; reflexivity |].
    eapply emits_bind_yields with (Q := fun r => r = false).
    + destruct tc; [| apply yields_ret; reflexivity]. cbv zeta.
      destruct (negb _ && (0 <? _)); [| apply yields_ret; reflexivity].
      eapply yields_bind with (Q1 := fun _ => True);
        [apply emits_yields; emits_auto; reflexivity | intros hit _].
      destruct hit as [[actual pos] |]; [| apply yields_ret; reflexivity].
      destruct (IsNetTieExclusion _ _ _ _ _); [apply yields_ret; reflexivity |].
      eapply yields_bind with (Q1 := fun _ => True);
        [apply emits_yields; emits_auto; reflexivity | intros _ _].
      apply yields_ret. reflexivity.
    + intros r ->. simpl.
      do 2 (eapply emits_bind_yields with (Q := fun r => r = false);
            [apply yields_ret; reflexivity | intros r ->; simpl]).
      emits_auto; reflexivity.
  - eapply emits_weaken; [| apply testPadAgainstItem_events].
    intros e He. inversion He; reflexivity.
  - unfold testPadAgainstItem.
    apply emits_bind; [apply emits_get | intros st0].
    rewrite (reached st0). cbn [negb].
    destruct (testPadAgainstItem_flags brd pad aLayer other _ _) as [tc th].
    rewrite andb_false_r. unfold testPadAgainstItem_hole.
    emits_auto; reflexivity.
Qed.

Lemma testKnockoutTextAgainstZone_limit (aText : BOARD_ITEM) (aInheritedNet : option Z)
    (aZone : BOARD_ITEM) :
  PCB_DRC_CODE_eqb code DRCE_CLEARANCE = false ->
  emits (fun e => is_violation code e = false)
        (testKnockoutTextAgainstZone eng brd eps aText aInheritedNet aZone).
Proof.
  intros Hother. destruct code; try discriminate.
  - eapply emits_weaken; [| apply testKnockoutTextAgainstZone_events].
    intros e He. inversion He; reflexivity.
  - eapply emits_weaken; [| apply testKnockoutTextAgainstZone_events].
    intros e He. inversion He; reflexivity.
  - unfold testKnockoutTextAgainstZone.
    apply emits_bind; [apply emits_get | intros st0].
    rewrite (reached st0). cbn [negb andb].
    emits_auto; reflexivity.
Qed.

Lemma not_violation_benign (e : EVENT) :
  any_violation e = false -> is_violation code e = false.
Proof. destruct e; simpl; intros H; first [reflexivity | discriminate H]. Qed.

Lemma report_zone_result_limit (tc ti : bool) (data : report_data) :
  (code = DRCE_CLEARANCE -> tc = false) ->
  (code = DRCE_ZONES_INTERSECT -> ti = false) ->
  emits (fun e => is_violation code e = false) (report_zone_result eng brd tc ti data).
Proof.
  intros Htc Hti. unfold report_zone_result.
  destruct code; try discriminate.
  - rewrite (Htc eq_refl). emits_auto; reflexivity.
  - emits_auto; reflexivity.
  - rewrite (Hti eq_refl), andb_false_r. emits_auto; reflexivity.
  - emits_auto; reflexivity.
Qed.

End Limits.

(** ** What the zone phase and the run emit *)

Lemma yields_of_emits_returns {A} (P : EVENT -> Prop) (Q : A -> Prop) (m : DRC A) :
  emits P m -> returns Q m -> yields P Q m.
Proof.
  intros He Hr st. destruct (He st) as [ev [E F]]. exists ev. repeat split; auto.
Qed.

Lemma yields_weaken {A} (P : EVENT -> Prop) (Q Q' : A -> Prop) (m : DRC A) :
  (forall a, Q a -> Q' a) -> yields P Q m -> yields P Q' m.
Proof.
  intros HQ Hm st. destruct (Hm st) as [ev [E [F H]]]. exists ev. auto.
Qed.

Section ZoneEvents.

Variable eng : DRC_ENGINE.
Variable brd : BOARD.

(** A property of events that every event other than a violation has, and a
    property of tasks that every submitted task has. *)
Variable P : EVENT -> Prop.
Variable T : zone_task -> Prop.
Hypothesis P_benign : forall e, any_violation e = false -> P e.
Hypothesis submit_ok : forall layer ia zoneA ia2 zoneB,
  IsLayerEnabled brd layer = true ->
  IsOnLayer zoneA layer = true ->
  m_DRCCopperZones brd !! ia = Some zoneA ->
  m_DRCCopperZones brd !! ia2 = Some zoneB ->
  returns (fun r => forall t, r = Some t -> T t)
          (submit_pair eng brd layer ia zoneA ia2 zoneB).

Lemma submit_pair_emits (layer : PCB_LAYER_ID) (ia : nat) (zoneA : BOARD_ITEM) (ia2 : nat)
    (zoneB : BOARD_ITEM) :
  emits P (submit_pair eng brd layer ia zoneA ia2 zoneB).
Proof. unfold submit_pair. emits_auto. apply P_benign. reflexivity. Qed.

Lemma submit_pairs_yields (layer : PCB_LAYER_ID) (ia : nat) (zoneA : BOARD_ITEM)
    (others : list (nat * BOARD_ITEM)) :
  IsLayerEnabled brd layer = true ->
  IsOnLayer zoneA layer = true ->
  m_DRCCopperZones brd !! ia = Some zoneA ->
  (forall i z, In (i, z) others -> m_DRCCopperZones brd !! i = Some z) ->
  yields P (Forall T) (submit_pairs eng brd layer ia zoneA others).
Proof.
  intros Hlayer Hon Hia. induction others as [| [ia2 zoneB] rest IH]; intros Hothers; simpl.
  - apply yields_ret. constructor.
  - eapply yields_bind.
    + apply yields_of_emits_returns; [apply submit_pair_emits |].
      apply submit_ok; [exact Hlayer | exact Hon | exact Hia
                       | apply Hothers; left; reflexivity].
    + intros task Htask. eapply yields_bind.
      * apply IH. intros i z Hin. apply Hothers. right; exact Hin.
      * intros more Hmore. apply yields_ret.
        destruct task as [t |]; [constructor; auto | exact Hmore].
Qed.

Lemma submit_zones_yields (layer : PCB_LAYER_ID) (size : Z) (zs : list (nat * BOARD_ITEM))
    (futures : list zone_task) :
  IsLayerEnabled brd layer = true ->
  (forall i z, In (i, z) zs -> m_DRCCopperZones brd !! i = Some z) ->
  Forall T futures ->
  yields P (fun r => forall fs, r = Next fs -> Forall T fs)
         (submit_zones eng brd layer size zs futures).
Proof.
  intros Hlayer. revert futures.
  induction zs as [| [ia zoneA] rest IH]; intros futures Hzs Hfs; simpl.
  - apply yields_ret. intros fs [= <-]. exact Hfs.
  - assert (Hrest : forall i z, In (i, z) rest -> m_DRCCopperZones brd !! i = Some z)
      by (intros i z Hin; apply Hzs; right; exact Hin).
    eapply yields_bind with (Q1 := fun _ => True).
    + apply emits_yields. unfold reportProgress. emits_auto. apply P_benign. reflexivity.
    + intros c _. destruct (negb c); [apply yields_ret; discriminate |].
      destruct (IsOnLayer zoneA layer) eqn:Hon; simpl; [| apply IH; assumption].
      eapply yields_bind.
      * apply submit_pairs_yields;
          [exact Hlayer | exact Hon | apply Hzs; left; reflexivity | exact Hrest].
      * intros more Hmore. apply IH; [exact Hrest |]. apply Forall_app. auto.
Qed.

Lemma submit_layers_yields (layerIds : list PCB_LAYER_ID) (zs : list (nat * BOARD_ITEM))
    (ps : poly_segments_t) (futures : list zone_task) :
  (forall i z, In (i, z) zs -> m_DRCCopperZones brd !! i = Some z) ->
  Forall T futures ->
  yields P (fun r => forall ps' fs, r = Next (ps', fs) -> Forall T fs)
         (submit_layers eng brd layerIds zs ps futures).
Proof.
  intros Hzs. revert ps futures.
  induction layerIds as [| layer rest IH]; intros ps futures Hfs; simpl.
  - apply yields_ret. intros ps' fs [= <- <-]. exact Hfs.
  - destruct (IsLayerEnabled brd layer) eqn:Hlayer; simpl; [| apply IH; exact Hfs].
    eapply yields_bind; [apply submit_zones_yields; assumption | intros r Hr].
    destruct r as [[] | futures']; [apply yields_ret; discriminate |].
    apply IH. apply Hr. reflexivity.
Qed.

Lemma collect_futures_emits (tc ti : bool) (ps : poly_segments_t)
    (futures : list zone_task) (cancelled : bool) :
  (forall task c, In task futures ->
     emits P (report_zone_result eng brd tc ti (run_zone_task brd tc ti c ps task))) ->
  emits P (collect_futures eng brd tc ti ps futures cancelled).
Proof.
  revert cancelled. induction futures as [| task rest IH]; intros cancelled Hreport; simpl.
  - apply emits_ret.
  - assert (Hrest : forall c, emits P (collect_futures eng brd tc ti ps rest c)).
    { intros c. apply IH. intros t c' Hin. apply Hreport. right; exact Hin. }
    apply emits_bind; [apply emits_get | intros st].
    destruct (IsCancelled eng st); [apply Hrest |].
    apply emits_bind; [apply Hreport; left; reflexivity | intros _; apply Hrest].
Qed.

Lemma testZonesToZones_emits :
  (forall st0 ps c task, T task ->
     emits P (report_zone_result eng brd
                (negb (IsErrorLimitExceeded eng st0 DRCE_CLEARANCE))
                (negb (IsErrorLimitExceeded eng st0 DRCE_ZONES_INTERSECT))
                (run_zone_task brd
                   (negb (IsErrorLimitExceeded eng st0 DRCE_CLEARANCE))
                   (negb (IsErrorLimitExceeded eng st0 DRCE_ZONES_INTERSECT)) c ps task))) ->
  emits P (testZonesToZones eng brd).
Proof.
  intros Hreport. unfold testZonesToZones.
  apply emits_bind; [apply emits_get | intros st0]. cbv zeta.
  eapply emits_bind_yields.
  - apply submit_layers_yields; [apply indexed_lookup | constructor].
  - intros r Hr. destruct r as [[] | [ps fs]]; [apply emits_ret |].
    apply collect_futures_emits. intros task c Hin.
    apply Hreport. specialize (Hr ps fs eq_refl).
    rewrite List.Forall_forall in Hr. apply Hr. exact Hin.
Qed.

Lemma run_phase_emits (msg : string) (test : DRC unit) :
  emits P test -> emits P (run_phase eng msg test).
Proof.
  intros Htest. unfold run_phase, reportPhase.
  apply emits_bind; [emits_auto; apply P_benign; reflexivity | intros c].
  destruct (negb c); [apply emits_ret |].
  apply emits_bind; [exact Htest | intros _; apply emits_ret].
Qed.

Lemma and_then_emits {R A B} (m : DRC (FLOW R A)) (k : A -> DRC (FLOW R B)) :
  emits P m -> (forall a, emits P (k a)) -> emits P (and_then m k).
Proof.
  intros Hm Hk. unfold and_then. apply emits_bind; [exact Hm | intros r].
  destruct r; [apply emits_ret | apply Hk].
Qed.

End ZoneEvents.

Section LimitsOfRun.

Variable eng : DRC_ENGINE.
Variable brd : BOARD.
Variable code : PCB_DRC_CODE.
Hypothesis limited : PCB_DRC_CODE_eqb code DRCE_TRACKS_CROSSING = false.
Hypothesis reached : limit_reached eng code.

Lemma testTrackClearances_limit (eps : Z) :
  emits (fun e => is_violation code e = false) (testTrackClearances eng brd eps).
Proof.
  apply testTrackClearances_emits; [apply not_violation_benign | |]; intros.
  - apply testTrackAgainstItem_limit; assumption.
  - apply testItemAgainstZone_limit; assumption.
Qed.

Lemma testPadClearances_limit (eps : Z) :
  emits (fun e => is_violation code e = false) (testPadClearances eng brd eps).
Proof.
  apply testPadClearances_emits; [apply not_violation_benign | |]; intros.
  - apply testPadAgainstItem_limit; assumption.
  - apply testItemAgainstZone_limit; assumption.
Qed.

Lemma testGraphicClearances_limit (eps : Z) :
  PCB_DRC_CODE_eqb code DRCE_CLEARANCE = false ->
  emits (fun e => is_violation code e = false) (testGraphicClearances eng brd eps).
Proof.
  intros Hother.
  apply testGraphicClearances_emits; [apply not_violation_benign |]. intros item _.
  apply testGraphicAgainstZone_emits; intros.
  - apply testKnockoutTextAgainstZone_limit; assumption.
  - apply testItemAgainstZone_limit; assumption.
Qed.

Lemma testZonesToZones_limit :
  emits (fun e => is_violation code e = false) (testZonesToZones eng brd).
Proof.
  apply testZonesToZones_emits with (T := fun _ => True).
  - apply not_violation_benign.
  - intros layer ia zoneA ia2 zoneB _ _ _ _ st t _. exact I.
  - intros st0 ps c task _.
    apply report_zone_result_limit; try assumption;
      intros Hcode; rewrite <- Hcode, reached; reflexivity.
Qed.

Ltac limited_block phase :=
  repeat first
    [ apply run_phase_emits; [apply not_violation_benign | phase]
    | unfold skip_phase; apply emits_ret
    | apply emits_bind; [solve [emits_auto] | intros ?]
    | match goal with |- emits _ (if ?c then _ else _) => destruct c end ].

(** X3: an error limit that is reached when the run starts, and stays
    reached, is respected by the whole run: for each of CLEARANCE,
    HOLE_CLEARANCE, SHORTING_ITEMS and ZONES_INTERSECT, a run under the
    reached limit reports no violation of that kind.  (TRACKS_CROSSING has no
    limit test in the provider.) *)
Theorem Run_respects_error_limit :
  emits (fun e => is_violation code e = false) (Run eng brd).
Proof.
  unfold Run.
  destruct (m_DRCMaxClearance brd <=? 0); [emits_auto; reflexivity |].
  cbv zeta.
  apply emits_bind;
    [| intros r; destruct r; emits_auto; apply not_violation_benign; reflexivity].
  apply and_then_emits; [| intros _].
  { limited_block ltac:(apply testTrackClearances_limit). }
  apply and_then_emits; [| intros _].
  { limited_block ltac:(apply testPadClearances_limit). }
  apply and_then_emits; [| intros _].
  { destruct (PCB_DRC_CODE_eqb code DRCE_CLEARANCE) eqn:Hclr.
    - assert (code = DRCE_CLEARANCE) as Hcode by (destruct code; discriminate || reflexivity).
      eapply emits_bind_yields with (Q := fun clr => clr = true).
      + intros st. exists []. simpl. rewrite app_nil_r.
        repeat split; [constructor |]. rewrite <- Hcode. apply reached.
      + intros clr ->. simpl. unfold skip_phase. apply emits_ret.
    - limited_block ltac:(apply testGraphicClearances_limit; exact Hclr). }
  limited_block ltac:(apply testZonesToZones_limit).
Qed.

End LimitsOfRun.

Lemma Run_respects_error_limit_witness :
  emits (fun e => is_violation DRCE_CLEARANCE e = false)
        (Run (Examples.engine (fun code => PCB_DRC_CODE_eqb code DRCE_CLEARANCE) false
                Examples.clearance5)
             Examples.crossing_board).
Proof.
  apply (Run_respects_error_limit
           (Examples.engine (fun code => PCB_DRC_CODE_eqb code DRCE_CLEARANCE) false
              Examples.clearance5)
           Examples.crossing_board DRCE_CLEARANCE).
  - reflexivity.
  - intros st. reflexivity.
Defined.

(** ** What one call of a pairwise test reports *)

Lemma delivers_weaken {A} (R R' : TRACE -> A -> TRACE -> Prop) (m : DRC A) :
  (forall st a ev, R st a ev -> R' st a ev) -> delivers R m -> delivers R' m.
Proof.
  intros HR Hm st. destruct (Hm st) as [ev [E H]]. exists ev. auto.
Qed.

(** A straight-line computation, run on a trace: every test it makes is
    split, and the trace it leaves is read off. *)
Ltac split_tests :=
  repeat match goal with
         | |- context [if ?c then _ else _] => destruct c eqn:?; simpl
         | |- context [match Collide ?b ?x ?y ?z with _ => _ end] =>
             destruct (Collide b x y z) as [[? ?] |] eqn:?; simpl
         | |- context [match SEG_Intersect ?b ?x ?y with _ => _ end] =>
             destruct (SEG_Intersect b x y) eqn:?; simpl
         | |- context [match ZoneTree_QueryColliding ?b ?z ?x ?s ?l ?c with _ => _ end] =>
             destruct (ZoneTree_QueryColliding b z x s l c) as [[? ?] |] eqn:?; simpl
         | |- context [match holeShapeOf ?i ?l with _ => _ end] =>
             destruct (holeShapeOf i l) eqn:?; simpl
         end.

Ltac read_trace :=
  first [ exists []; split; [symmetry; apply app_nil_r |]
        | eexists; split; [rewrite <- ?app_assoc; reflexivity |] ].

Ltac run_direct :=
  unfold bind, ret, emit, get_trace, doCollide, reportViolation; simpl;
  split_tests; read_trace; simpl.

Lemma testTrackAgainstItem_delivers (eng : DRC_ENGINE) (brd : BOARD) (eps : Z)
    (track : BOARD_ITEM) (trackShape : SHAPE) (layer : PCB_LAYER_ID) (other : BOARD_ITEM) :
  delivers (fun _ r ev =>
              r = negb (reports ev)
              /\ ((length (reported_codes ev) <= 1)%nat
                  \/ GetReportAllTrackErrors eng = true
                     /\ reported_codes ev = [DRCE_CLEARANCE; DRCE_HOLE_CLEARANCE]))
           (testTrackAgainstItem eng brd eps track trackShape layer other).
Proof.
  intros st.
  unfold testTrackAgainstItem, testTrackAgainstItem_clearance, testTrackAgainstItem_holes,
    testTrackAgainstItem_hole.
  run_direct; (split; [reflexivity |]);
    first [ left; lia | right; split; [apply negb_false_iff; assumption | reflexivity] ].
Qed.

(** X4: [testTrackAgainstItem] returns [false] exactly when it reported a
    violation (a crossing, a clearance or a hole clearance violation), and
    [true] exactly when it reported none. *)
Theorem testTrackAgainstItem_result (eng : DRC_ENGINE) (brd : BOARD) (eps : Z)
    (track : BOARD_ITEM) (trackShape : SHAPE) (layer : PCB_LAYER_ID) (other : BOARD_ITEM) :
  delivers (fun _ r ev => r = negb (reports ev))
           (testTrackAgainstItem eng brd eps track trackShape layer other).
Proof.
  eapply delivers_weaken; [| apply testTrackAgainstItem_delivers].
  intros st r ev [H _]. exact H.
Qed.

(** X5: one call of [testTrackAgainstItem] reports at most one violation,
    except when all track errors are reported: then a CLEARANCE violation may
    be followed by one HOLE_CLEARANCE violation, and by nothing else. *)
Theorem testTrackAgainstItem_reports (eng : DRC_ENGINE) (brd : BOARD) (eps : Z)
    (track : BOARD_ITEM) (trackShape : SHAPE) (layer : PCB_LAYER_ID) (other : BOARD_ITEM) :
  delivers (fun _ _ ev =>
              (length (reported_codes ev) <= 1)%nat
              \/ GetReportAllTrackErrors eng = true
                 /\ reported_codes ev = [DRCE_CLEARANCE; DRCE_HOLE_CLEARANCE])
           (testTrackAgainstItem eng brd eps track trackShape layer other).
Proof.
  eapply delivers_weaken; [| apply testTrackAgainstItem_delivers].
  intros st r ev [_ H]. exact H.
Qed.

Lemma testPadAgainstItem_delivers (eng : DRC_ENGINE) (brd : BOARD) (eps : Z)
    (pad : BOARD_ITEM) (padShape : SHAPE) (aLayer : PCB_LAYER_ID) (other : BOARD_ITEM) :
  delivers (fun st r ev =>
              (length (reported_codes ev) <= 1)%nat
              /\ (r = false /\ ev = [] \/ r = negb (IsCancelled eng (st ++ ev))))
           (testPadAgainstItem eng brd eps pad padShape aLayer other).
Proof.
  intros st. unfold testPadAgainstItem, testPadAgainstItem_hole, bind, get_trace.
  cbv beta.
  destruct (testPadAgainstItem_flags brd pad aLayer other _ _) as [tc th].
  run_direct; (split; [lia |]);
    first [ left; split; reflexivity
          | right; rewrite <- ?app_assoc, ?app_nil_r; reflexivity ].
Qed.

(** X6: one call of [testPadAgainstItem] reports at most one violation: a
    shorting, a clearance or a hole clearance violation, never two. *)
Theorem testPadAgainstItem_reports (eng : DRC_ENGINE) (brd : BOARD) (eps : Z)
    (pad : BOARD_ITEM) (padShape : SHAPE) (aLayer : PCB_LAYER_ID) (other : BOARD_ITEM) :
  delivers (fun _ _ ev => (length (reported_codes ev) <= 1)%nat)
           (testPadAgainstItem eng brd eps pad padShape aLayer other).
Proof.
  eapply delivers_weaken; [| apply testPadAgainstItem_delivers].
  intros st r ev [H _]. exact H.
Qed.

(** X7: the result of [testPadAgainstItem], which tells the R-tree query
    whether to go on, does not depend on what was found: it is [false] with
    nothing tested and nothing reported (every test of the pair is disabled),
    or else it tells whether the engine is not cancelled after the call. *)
Theorem testPadAgainstItem_result (eng : DRC_ENGINE) (brd : BOARD) (eps : Z)
    (pad : BOARD_ITEM) (padShape : SHAPE) (aLayer : PCB_LAYER_ID) (other : BOARD_ITEM) :
  delivers (fun st r ev =>
              r = false /\ ev = [] \/ r = negb (IsCancelled eng (st ++ ev)))
           (testPadAgainstItem eng brd eps pad padShape aLayer other).
Proof.
  eapply delivers_weaken; [| apply testPadAgainstItem_delivers].
  intros st r ev [_ H]. exact H.
Qed.

(** X8: one call of [testItemAgainstZone] reports at most one CLEARANCE
    violation and at most one HOLE_CLEARANCE violation, the CLEARANCE
    violation first, and nothing else. *)
Theorem testItemAgainstZone_reports (eng : DRC_ENGINE) (brd : BOARD) (eps : Z)
    (aItem aZone : BOARD_ITEM) (aLayer : PCB_LAYER_ID) :
  delivers (fun _ _ ev =>
              In (reported_codes ev)
                 [ []; [DRCE_CLEARANCE]; [DRCE_HOLE_CLEARANCE];
                   [DRCE_CLEARANCE; DRCE_HOLE_CLEARANCE] ])
           (testItemAgainstZone eng brd eps aItem aZone aLayer).
Proof.
  intros st. unfold testItemAgainstZone.
  run_direct; tauto.
Qed.

(** X9: a knockout text that has no net yet inherits the net of a zone
    exactly when its touch test is reached and finds the zone, and is then
    not reported against that zone; otherwise it stays without a net.  A net
    once inherited is kept.  One call reports at most one violation. *)
Theorem testKnockoutTextAgainstZone_inherits (eng : DRC_ENGINE) (brd : BOARD) (eps : Z)
    (aText : BOARD_ITEM) (aInheritedNet : option Z) (aZone : BOARD_ITEM) :
  delivers (fun st r ev =>
              (length (reported_codes ev) <= 1)%nat
              /\ match aInheritedNet with
                 | Some n => r = Some n
                 | None =>
                     if knockout_touches eng brd st aText aZone
                     then r = Some (GetNetCode aZone) /\ reported_codes ev = []
                     else r = None
                 end)
           (testKnockoutTextAgainstZone eng brd eps aText aInheritedNet aZone).
Proof.
  intros st. unfold testKnockoutTextAgainstZone, knockout_touches.
  unfold bind, get_trace. cbv beta iota zeta.
  destruct (IsErrorLimitExceeded eng st DRCE_CLEARANCE),
    (IsErrorLimitExceeded eng st DRCE_SHORTING_ITEMS),
    (LSET_test (GetLayerSet aZone) (GetLayer aText)),
    (BOX2I_Intersects brd _ (GetBoundingBox aZone)),
    (HasZoneTree brd aZone),
    (ZoneTree_Collides brd aZone (GetBoundingBox aText) _ (GetLayer aText)) eqn:Htouch;
    destruct aInheritedNet as [n |]; cbn [negb andb orb];
    run_direct; rewrite ?Htouch; (split; [lia |]); auto;
    try match goal with
        | H : (?x =? ?x) = false |- _ => rewrite Z.eqb_refl in H; discriminate H
        end.
Qed.

(** ** The checked-pair memos *)

Lemma canonical_key_sym (a b : BOARD_ITEM) : canonical_key a b = canonical_key b a.
Proof.
  unfold canonical_key.
  destruct (Z.ltb_spec (addr b) (addr a)), (Z.ltb_spec (addr a) (addr b));
    try reflexivity; try lia.
  f_equal; lia.
Qed.

Lemma pad_filter_keeps (pad : BOARD_ITEM) (layer : PCB_LAYER_ID) (other : BOARD_ITEM)
    (cp : gmap (Z * Z) Z) (k : Z * Z) :
  is_Some (cp !! k) -> is_Some (snd (pad_filter pad layer other cp) !! k).
Proof.
  intros Hk. unfold pad_filter.
  destruct (cp !! canonical_key pad other) eqn:E; simpl; [exact Hk |].
  destruct (decide (k = canonical_key pad other)) as [-> | Hne].
  - rewrite lookup_insert_eq. eauto.
  - rewrite lookup_insert_ne by congruence. exact Hk.
Qed.

Lemma pad_filter_calls_keep (calls : list (BOARD_ITEM * PCB_LAYER_ID * BOARD_ITEM))
    (cp : gmap (Z * Z) Z) (k : Z * Z) :
  is_Some (cp !! k) -> is_Some (pad_filter_calls calls cp !! k).
Proof.
  revert cp. induction calls as [| c rest IH]; intros cp Hk; simpl; [exact Hk |].
  apply IH. apply pad_filter_keeps. exact Hk.
Qed.

Lemma pad_filter_rejects (pad : BOARD_ITEM) (layer : PCB_LAYER_ID) (other : BOARD_ITEM)
    (cp : gmap (Z * Z) Z) :
  is_Some (cp !! canonical_key pad other) -> fst (pad_filter pad layer other cp) = false.
Proof.
  intros [v Hv]. unfold pad_filter. rewrite Hv. reflexivity.
Qed.

(** X10: a pair accepted by the filter of the pad query is never accepted
    again during the pad phase: not on another layer, and not with the two
    items in the other order. *)
Theorem pad_pair_accepted_once (a b : BOARD_ITEM) (layer layer' : PCB_LAYER_ID)
    (cp cp1 : gmap (Z * Z) Z) (calls : list (BOARD_ITEM * PCB_LAYER_ID * BOARD_ITEM)) :
  pad_filter a layer b cp = (true, cp1) ->
  fst (pad_filter a layer' b (pad_filter_calls calls cp1)) = false
  /\ fst (pad_filter b layer' a (pad_filter_calls calls cp1)) = false.
Proof.
  intros Hacc.
  assert (Hkey : is_Some (cp1 !! canonical_key a b)).
  { unfold pad_filter in Hacc. destruct (cp !! canonical_key a b); [discriminate |].
    injection Hacc as <-. rewrite lookup_insert_eq. eauto. }
  split; apply pad_filter_rejects, pad_filter_calls_keep.
  - exact Hkey.
  - rewrite <- canonical_key_sym. exact Hkey.
Qed.

Lemma pad_pair_accepted_once_witness :
  fst (pad_filter Examples.padA B_Cu Examples.padB
         (pad_filter_calls [(Examples.padA, F_Cu, Examples.padC)]
            (snd (pad_filter Examples.padA F_Cu Examples.padB ∅)))) = false
  /\ fst (pad_filter Examples.padB B_Cu Examples.padA
            (pad_filter_calls [(Examples.padA, F_Cu, Examples.padC)]
               (snd (pad_filter Examples.padA F_Cu Examples.padB ∅)))) = false.
Proof.
  apply (pad_pair_accepted_once Examples.padA Examples.padB F_Cu B_Cu ∅).
  reflexivity.
Defined.

Lemma track_filter_keeps (eng : DRC_ENGINE) (track : BOARD_ITEM) (layer : PCB_LAYER_ID)
    (other : BOARD_ITEM) (cp : gmap (Z * Z) layers_checked) (K : KEY) :
  layer_tested cp K = true ->
  layer_tested (snd (track_filter eng track layer other cp)) K = true.
Proof.
  intros HK. destruct (track_filter eng track layer other cp) as [acc cp1] eqn:E.
  destruct acc; simpl.
  - assert (H := track_filter_bits eng track layer other cp cp1 K E).
    rewrite HK in H. destruct (layer_tested cp1 K); [reflexivity |].
    simpl in H. lia.
  - apply track_filter_rejected in E. subst cp1. exact HK.
Qed.

Lemma track_memo_ops_keep (eng : DRC_ENGINE) (ops : list track_memo_op)
    (cp : gmap (Z * Z) layers_checked) (K : KEY) :
  layer_tested cp K = true -> layer_tested (track_memo_ops eng ops cp) K = true.
Proof.
  revert cp. induction ops as [| op rest IH]; intros cp HK; simpl; [exact HK |].
  apply IH. destruct op as [t l o | t o].
  - apply track_filter_keeps. exact HK.
  - rewrite layer_tested_alter. exact HK.
Qed.

Lemma track_filter_rejects_tested (eng : DRC_ENGINE) (track : BOARD_ITEM)
    (layer : PCB_LAYER_ID) (other : BOARD_ITEM) (cp : gmap (Z * Z) layers_checked) :
  layer_tested cp (canonical_key track other, layer) = true ->
  fst (track_filter eng track layer other cp) = false.
Proof.
  unfold layer_tested, track_filter. simpl. intros HK.
  destruct (is_BOARD_CONNECTED_ITEM (Type_ other) && (GetNetCode other =? GetNetCode track));
    [reflexivity |].
  destruct (cp !! canonical_key track other) as [it |]; [| discriminate].
  rewrite HK. reflexivity.
Qed.

(** X11: a pair accepted by the filter of the track query on a layer is
    never accepted again on that layer during the track phase, in either
    order of the two items, whatever the filter records and the visitor marks
    in between. *)
Theorem track_pair_accepted_once_per_layer (eng : DRC_ENGINE) (a b : BOARD_ITEM)
    (layer : PCB_LAYER_ID) (cp cp1 : gmap (Z * Z) layers_checked)
    (ops : list track_memo_op) :
  track_filter eng a layer b cp = (true, cp1) ->
  fst (track_filter eng a layer b (track_memo_ops eng ops cp1)) = false
  /\ fst (track_filter eng b layer a (track_memo_ops eng ops cp1)) = false.
Proof.
  intros Hacc.
  assert (Hkey : layer_tested cp1 (canonical_key a b, layer) = true).
  { assert (H := track_filter_bits eng a layer b cp cp1 (canonical_key a b, layer) Hacc).
    unfold one_if, item_key in H. rewrite bool_decide_eq_true_2 in H by reflexivity.
    destruct (layer_tested cp1 _); [reflexivity |]. simpl in H. lia. }
  split; apply track_filter_rejects_tested, track_memo_ops_keep.
  - exact Hkey.
  - rewrite <- canonical_key_sym. exact Hkey.
Qed.

Lemma track_pair_accepted_once_per_layer_witness :
  let eng := Examples.engine Examples.no_limits true Examples.clearance5 in
  let ops := [MarkError Examples.trackA Examples.trackB;
              FilterCall Examples.trackA B_Cu Examples.trackB] in
  let cp1 := snd (track_filter eng Examples.trackA F_Cu Examples.trackB ∅) in
  fst (track_filter eng Examples.trackA F_Cu Examples.trackB (track_memo_ops eng ops cp1))
  = false
  /\ fst (track_filter eng Examples.trackB F_Cu Examples.trackA (track_memo_ops eng ops cp1))
     = false.
Proof.
  apply (track_pair_accepted_once_per_layer
           (Examples.engine Examples.no_limits true Examples.clearance5)
           Examples.trackA Examples.trackB F_Cu ∅).
  reflexivity.
Defined.

(** ** Free pads *)

(** X12: a free pad that a track touches is claimed by the net of the first
    track that touches it, and is not tested against a track of the claiming
    net: the visitor of the track query makes the one collision test that
    finds the contact, reports nothing, leaves the checked pairs as they are
    and lets the query go on. *)
Theorem free_pad_not_tested_against_claiming_net (eng : DRC_ENGINE) (brd : BOARD) (eps : Z)
    (track : BOARD_ITEM) (trackShape : SHAPE) (layer : PCB_LAYER_ID) (other : BOARD_ITEM)
    (m : track_memo) (st : TRACE) (hit : Z * VECTOR2I) :
  IsCancelled eng st = false ->
  Type_ other = PCB_PAD_T ->
  IsFreePad other = true ->
  Collide brd (EffectiveShape other layer) (Some trackShape) 0 = Some hit ->
  tm_freePadsUsageMap m !! addr other = None
  \/ tm_freePadsUsageMap m !! addr other = Some (GetNetCode track) ->
  exists m',
    track_visitor eng brd eps track trackShape layer other m st
    = ((true, m'), st ++ [EvCollide (EffectiveShape other layer) (Some trackShape) 0])
    /\ tm_checkedPairs m' = tm_checkedPairs m
    /\ tm_freePadsUsageMap m' !! addr other = Some (GetNetCode track).
Proof.
  intros Hrun Hpad Hfree Hhit Hclaim.
  unfold track_visitor, track_visitor_freePad, bind, get_trace, doCollide, emit, ret.
  rewrite Hrun, Hpad, Hfree, Hhit. simpl.
  destruct Hclaim as [Hnone | Hsome].
  - rewrite Hnone. eexists. split; [reflexivity |]. simpl.
    split; [reflexivity | apply lookup_insert_eq].
  - rewrite Hsome, Z.eqb_refl. eexists. split; [reflexivity |]. simpl.
    split; [reflexivity | exact Hsome].
Qed.

Lemma free_pad_not_tested_against_claiming_net_witness :
  exists m',
    track_visitor (Examples.engine Examples.no_limits false Examples.clearance5)
      Examples.crossing_board 0 Examples.trackA (EffectiveShape Examples.trackA F_Cu) F_Cu
      Examples.freePad {| tm_checkedPairs := ∅; tm_freePadsUsageMap := ∅ |} []
    = ((true, m'),
       [] ++ [EvCollide (EffectiveShape Examples.freePad F_Cu)
                        (Some (EffectiveShape Examples.trackA F_Cu)) 0])
    /\ tm_checkedPairs m' = ∅
    /\ tm_freePadsUsageMap m' !! addr Examples.freePad = Some (GetNetCode Examples.trackA).
Proof.
  apply (free_pad_not_tested_against_claiming_net
           (Examples.engine Examples.no_limits false Examples.clearance5)
           Examples.crossing_board 0 Examples.trackA (EffectiveShape Examples.trackA F_Cu)
           F_Cu Examples.freePad {| tm_checkedPairs := ∅; tm_freePadsUsageMap := ∅ |} []
           (0, Examples.pt 5 5));
    try reflexivity.
  left. reflexivity.
Defined.

Lemma QueryColliding_returns {S : Type} (Q : S -> Prop) (candidates : list BOARD_ITEM)
    (filter : BOARD_ITEM -> S -> bool * S) (visitor : BOARD_ITEM -> S -> DRC (bool * S))
    (s : S) :
  Q s ->
  (forall other s0, Q s0 -> Q (snd (filter other s0))) ->
  (forall other s0, Q s0 -> returns (fun r => Q (snd r)) (visitor other s0)) ->
  returns Q (QueryColliding candidates filter visitor s).
Proof.
  intros Hs Hfilter Hvisit. revert s Hs.
  induction candidates as [| other rest IH]; intros s Hs; simpl.
  - apply returns_ret. exact Hs.
  - specialize (Hfilter other s Hs). destruct (filter other s) as [accepted s1].
    simpl in Hfilter. destruct accepted; [| apply IH; exact Hfilter].
    eapply returns_bind_strong; [apply Hvisit; exact Hfilter | intros r Hr].
    destruct (fst r); [apply IH; exact Hr | apply returns_ret; exact Hr].
Qed.

Lemma track_visitor_keeps_claims (eng : DRC_ENGINE) (brd : BOARD) (eps : Z)
    (track : BOARD_ITEM) (trackShape : SHAPE) (layer : PCB_LAYER_ID) (other : BOARD_ITEM)
    (m0 m : track_memo) :
  tm_freePadsUsageMap m0 ⊆ tm_freePadsUsageMap m ->
  returns (fun r => tm_freePadsUsageMap m0 ⊆ tm_freePadsUsageMap (snd r))
          (track_visitor eng brd eps track trackShape layer other m).
Proof.
  intros Hsub. unfold track_visitor.
  apply returns_bind; intros st.
  destruct (IsCancelled eng st); [apply returns_ret; exact Hsub |].
  eapply returns_bind_strong
    with (Q1 := fun fp => tm_freePadsUsageMap m0 ⊆ snd fp).
  - unfold track_visitor_freePad.
    destruct (_ && _); [| apply returns_ret; exact Hsub].
    apply returns_bind; intros hit.
    destruct hit; [| apply returns_ret; exact Hsub].
    destruct (tm_freePadsUsageMap m !! addr other) eqn:Hl.
    + destruct (_ =? _); apply returns_ret; exact Hsub.
    + apply returns_ret. simpl. etransitivity; [exact Hsub |].
      apply insert_subseteq. exact Hl.
  - intros [[v | []] fpm] Hfp; simpl in Hfp; [apply returns_ret; exact Hfp |].
    apply returns_bind; intros ok.
    destruct (negb ok).
    + destruct (negb _); [| apply returns_bind; intros st']; apply returns_ret; exact Hfp.
    + apply returns_bind; intros st'. apply returns_ret. exact Hfp.
Qed.

(** X13: while a track is tested on its layers, the net recorded for a free
    pad is never replaced and never removed: the usage map only grows. *)
Theorem free_pad_claims_kept (eng : DRC_ENGINE) (brd : BOARD) (eps : Z) (track : BOARD_ITEM)
    (layerSeq : list PCB_LAYER_ID) (m : track_memo) :
  returns (fun m1 => tm_freePadsUsageMap m ⊆ tm_freePadsUsageMap m1)
          (testTrackClearances_layers eng brd eps track layerSeq m).
Proof.
  assert (Hgen : forall m1, tm_freePadsUsageMap m ⊆ tm_freePadsUsageMap m1 ->
            returns (fun m2 => tm_freePadsUsageMap m ⊆ tm_freePadsUsageMap m2)
                    (testTrackClearances_layers eng brd eps track layerSeq m1)).
  { induction layerSeq as [| layer rest IH]; intros m1 Hsub; simpl.
    - apply returns_ret. exact Hsub.
    - eapply returns_bind_strong.
      + apply QueryColliding_returns
          with (Q := fun m2 => tm_freePadsUsageMap m ⊆ tm_freePadsUsageMap m2).
        * exact Hsub.
        * intros other s0 Hs0. unfold track_filter_memo.
          destruct (track_filter eng track layer other _). exact Hs0.
        * intros other s0 Hs0. apply track_visitor_keeps_claims. exact Hs0.
      + intros m2 Hm2. apply returns_bind; intros _. apply IH. exact Hm2. }
  apply Hgen. reflexivity.
Qed.

(** ** Knockout text and the CLEARANCE limit *)

(** X14: [testKnockoutTextAgainstZone] does not consult the CLEARANCE error
    limit when it chooses what to report.  With the CLEARANCE limit reached
    and the SHORTING_ITEMS limit not reached, a knockout text that has
    inherited another net and comes closer to the zone than the clearance
    without touching it (the distance found is not 0) is still reported as a
    CLEARANCE violation. *)
Theorem knockout_text_clearance_despite_limit (eng : DRC_ENGINE) (brd : BOARD) (eps : Z)
    (aText aZone : BOARD_ITEM) (n actual : Z) (pos : VECTOR2I) (st : TRACE) :
  let layer := GetLayer aText in
  let constraint := EvalRules eng CLEARANCE_CONSTRAINT aText aZone layer in
  let budget := Z.max 0 (GetValue_Min constraint - eps) in
  IsErrorLimitExceeded eng st DRCE_CLEARANCE = true ->
  IsErrorLimitExceeded eng st DRCE_SHORTING_ITEMS = false ->
  LSET_test (GetLayerSet aZone) layer = true ->
  BOX2I_Intersects brd (BOX2I_Inflate brd (GetBoundingBox aText) (m_DRCMaxClearance brd))
                   (GetBoundingBox aZone) = true ->
  HasZoneTree brd aZone = true ->
  n <> GetNetCode aZone ->
  is_IGNORE (GetSeverity constraint) = false ->
  0 <= GetValue_Min constraint ->
  ZoneTree_QueryColliding brd aZone (GetBoundingBox aText) (EffectiveShape aText layer)
    layer budget = Some (actual, pos) ->
  actual <> 0 ->
  testKnockoutTextAgainstZone eng brd eps aText (Some n) aZone st
  = (Some n,
     st ++ [ EvZoneQuery aZone (EffectiveShape aText layer) layer budget;
             EvViolation
               (mkDRC_ITEM DRCE_CLEARANCE
                  (formatMsg constraint (GetValue_Min constraint) actual)
                  aText aZone (GetParentRule constraint))
               pos layer ]).
Proof.
  intros layer constraint budget Hclr Hshort Hlayer Hbox Htree Hnet Hsev Hpos Hhit Hactual.
  subst layer constraint budget.
  unfold testKnockoutTextAgainstZone, bind, get_trace, emit, ret, reportViolation.
  rewrite Hclr, Hshort, Hlayer, Hbox, Htree. simpl.
  assert (E1 : (n =? GetNetCode aZone) = false) by (apply Z.eqb_neq; exact Hnet).
  assert (E2 : (0 <=? GetValue_Min (EvalRules eng CLEARANCE_CONSTRAINT aText aZone
                                      (GetLayer aText))) = true)
    by (apply Z.leb_le; exact Hpos).
  assert (E3 : (actual =? 0) = false) by (apply Z.eqb_neq; exact Hactual).
  rewrite E1, Hsev, E2. simpl. rewrite Hhit, E3. simpl.
  rewrite <- app_assoc. reflexivity.
Qed.

Lemma knockout_text_clearance_despite_limit_witness :
  let eng := Examples.engine Examples.clearance_limit false Examples.clearance6 in
  testKnockoutTextAgainstZone eng Examples.overlapping_zones_board 0 Examples.knockoutText
    (Some 7) Examples.zoneA []
  = (Some 7,
     [] ++ [ EvZoneQuery Examples.zoneA (EffectiveShape Examples.knockoutText F_Cu) F_Cu 6;
             EvViolation
               (mkDRC_ITEM DRCE_CLEARANCE (MsgClearance "rule" 6 5)
                  Examples.knockoutText Examples.zoneA (Some 1))
               (Examples.pt 0 15) F_Cu ]).
Proof.
  apply (knockout_text_clearance_despite_limit
           (Examples.engine Examples.clearance_limit false Examples.clearance6)
           Examples.overlapping_zones_board 0 Examples.knockoutText Examples.zoneA
           7 5 (Examples.pt 0 15) []);
    try reflexivity; try discriminate.
Defined.

(** ** The pairs of the zone phase *)

Lemma submit_pair_tested (eng : DRC_ENGINE) (brd : BOARD) (layer : PCB_LAYER_ID) (ia : nat)
    (zoneA : BOARD_ITEM) (ia2 : nat) (zoneB : BOARD_ITEM) :
  IsLayerEnabled brd layer = true ->
  IsOnLayer zoneA layer = true ->
  m_DRCCopperZones brd !! ia = Some zoneA ->
  m_DRCCopperZones brd !! ia2 = Some zoneB ->
  returns (fun r => forall t, r = Some t -> task_tested eng brd t)
          (submit_pair eng brd layer ia zoneA ia2 zoneB).
Proof.
  intros Hlayer Hon HA HB st. unfold submit_pair.
  destruct (negb (IsOnLayer zoneB layer)) eqn:G1; [simpl; discriminate |].
  destruct ((GetNetCode zoneA =? GetNetCode zoneB) && (0 <=? GetNetCode zoneA)) eqn:G2;
    [simpl; discriminate |].
  destruct (GetIsRuleArea zoneA || GetIsRuleArea zoneB) eqn:G3; [simpl; discriminate |].
  destruct (negb (BOX2I_Intersects brd _ _)) eqn:G4; [simpl; discriminate |].
  destruct (is_IGNORE _ || (_ <=? 0)) eqn:G5; [simpl; discriminate |].
  simpl. intros t [= <-]. exists zoneA, zoneB. simpl.
  apply negb_false_iff in G1, G4.
  apply orb_false_elim in G3 as [G3a G3b]. apply orb_false_elim in G5 as [G5a G5b].
  apply Z.leb_gt in G5b.
  unfold zone_pair_tested. auto 12.
Qed.

Lemma report_zone_result_tested (eng : DRC_ENGINE) (brd : BOARD) (tc ti c : bool)
    (ps : poly_segments_t) (task : zone_task) :
  task_tested eng brd task ->
  emits (zone_phase_event eng brd)
        (report_zone_result eng brd tc ti (run_zone_task brd tc ti c ps task)).
Proof.
  intros (zoneA & zoneB & HA & HB & Hpair). unfold run_zone_task.
  assert (Hres := checkZones_result brd tc ti c (Z.of_nat (zt_zoneA task))
                    (Z.of_nat (zt_zoneB task)) (zt_clearance task) (zt_layer task)
                    (poly_segments_at ps (zt_zoneA task) (zt_layer task))
                    (poly_segments_at ps (zt_zoneB task) (zt_layer task))).
  cbv zeta in Hres.
  destruct Hres as [Hinv | (EA & EB & _ & EL & _)].
  - rewrite Hinv. unfold report_zone_result. simpl. apply emits_ret.
  - unfold report_zone_result. rewrite EA, EB, EL, !Nat2Z.id, HA, HB.
    assert (HinA : In zoneA (m_DRCCopperZones brd))
      by (apply list_elem_of_In; eapply list_elem_of_lookup_2; exact HA).
    assert (HinB : In zoneB (m_DRCCopperZones brd))
      by (apply list_elem_of_In; eapply list_elem_of_lookup_2; exact HB).
    emits_auto; simpl; auto.
Qed.

Lemma zone_phase_reports_tested_pairs_aux (eng : DRC_ENGINE) (brd : BOARD) :
  emits (zone_phase_event eng brd) (testZonesToZones eng brd).
Proof.
  apply testZonesToZones_emits with (T := task_tested eng brd).
  - intros e He. destruct e; simpl; auto; discriminate.
  - apply submit_pair_tested.
  - intros st0 ps c task Htask. apply report_zone_result_tested. exact Htask.
Qed.

(** X15: every violation of the zone phase is a ZONES_INTERSECT or a
    CLEARANCE violation between two copper zones of the board that share
    the (enabled) layer it is reported on, are not both of one net (a net
    code that is not negative), are not rule areas, have intersecting fill
    bounding boxes, and whose clearance constraint is not ignored and is
    positive. *)
Theorem zone_phase_reports_tested_pairs (eng : DRC_ENGINE) (brd : BOARD) :
  emits (zone_phase_event eng brd) (testZonesToZones eng brd).
Proof. apply zone_phase_reports_tested_pairs_aux. Qed.

(** ** The segments of the sweep *)

Lemma orient_segment_oriented (seg : SEG) : oriented (orient_segment seg).
Proof.
  unfold orient_segment, oriented.
  destruct (Z.ltb_spec (vx (seg_B seg)) (vx (seg_A seg))); simpl; lia.
Qed.

Lemma build_poly_segments_oriented (brd : BOARD) (layer : PCB_LAYER_ID)
    (zs : list (nat * BOARD_ITEM)) (ps : poly_segments_t) :
  sort_keeps_members brd -> all_oriented ps ->
  all_oriented (build_poly_segments brd layer zs ps).
Proof.
  intros Hsort. revert ps. induction zs as [| [ii zone] rest IH]; intros ps Hps; simpl.
  - exact Hps.
  - apply IH. destruct (IsOnLayer zone layer); [| exact Hps].
    intros jj l' seg Hin. unfold poly_segments_at in Hin. cbv beta iota zeta in Hin.
    unfold poly_segments_t, PCB_LAYER_ID in *.
    rewrite list_lookup_insert in Hin.
    destruct (decide (ii = jj /\ (ii < length ps)%nat)) as [[<- Hlen] | _];
      [| exact (Hps jj l' seg Hin)].
    simpl in Hin. destruct (decide (layer = l')) as [<- | Hne].
    + rewrite lookup_insert_eq in Hin. simpl in Hin.
      apply Hsort, in_app_or in Hin as [Hold | Hnew].
      * exact (Hps ii layer seg Hold).
      * apply in_map_iff in Hnew as [s [<- _]]. apply orient_segment_oriented.
    + rewrite lookup_insert_ne in Hin by exact Hne.
      exact (Hps ii l' seg Hin).
Qed.

Lemma replicate_oriented (n : nat) : all_oriented (replicate n ∅).
Proof.
  intros ii layer seg. unfold poly_segments_at, poly_segments_t, PCB_LAYER_ID.
  assert (E : default ∅ (replicate n (∅ : gmap N (list SEG)) !! ii) = ∅).
  { destruct (replicate n (∅ : gmap N (list SEG)) !! ii) as [m |] eqn:E; simpl;
      [apply lookup_replicate_1 in E as [-> _] |]; reflexivity. }
  rewrite E, lookup_empty. simpl. tauto.
Qed.

(** X16: every segment the zone phase stores for its sweeps runs from left
    to right (A.x <= B.x), provided the sort adds no segment: the table the
    loop over the layers hands to the sweeps holds oriented segments only. *)
Theorem sweep_segments_oriented (eng : DRC_ENGINE) (brd : BOARD)
    (layerIds : list PCB_LAYER_ID) (zs : list (nat * BOARD_ITEM)) (n : nat)
    (futures : list zone_task) :
  sort_keeps_members brd ->
  returns (fun r => forall ps fs, r = Next (ps, fs) -> all_oriented ps)
          (submit_layers eng brd layerIds zs (replicate n ∅) futures).
Proof.
  intros Hsort. generalize (replicate_oriented n).
  generalize (replicate n (∅ : gmap N (list SEG))). revert futures.
  induction layerIds as [| layer rest IH]; intros futures ps Hps; simpl.
  - apply returns_ret. intros ps' fs [= <- <-]. exact Hps.
  - destruct (negb _); [apply IH; exact Hps |].
    apply returns_bind. intros r.
    destruct r as [[] | futures']; [apply returns_ret; discriminate |].
    apply IH. apply build_poly_segments_oriented; assumption.
Qed.

Lemma insert_segment_members (s seg : SEG) (l : list SEG) :
  In seg (Examples.insert_segment s l) -> seg = s \/ In seg l.
Proof.
  induction l as [| t rest IH]; simpl.
  - intros [<- | []]. left; reflexivity.
  - destruct (Examples.SEG_ltb t s); simpl.
    + intros [<- | Hin]; [right; left; reflexivity |].
      destruct (IH Hin) as [-> | Hrest]; [left; reflexivity | right; right; exact Hrest].
    + intros [<- | Hin]; [left; reflexivity | right; exact Hin].
Qed.

Lemma sort_segments_members : sort_keeps_members Examples.crossing_zones_board.
Proof.
  intros l seg. simpl. induction l as [| s rest IH]; simpl; [tauto |].
  intros Hin. apply insert_segment_members in Hin as [-> | Hin]; auto.
Qed.

Lemma sweep_segments_oriented_witness :
  returns (fun r => forall ps fs, r = Next (ps, fs) -> all_oriented ps)
          (submit_layers (Examples.engine Examples.no_limits false Examples.clearance3)
             Examples.crossing_zones_board copper_layer_ids
             (indexed (m_DRCCopperZones Examples.crossing_zones_board)) (replicate 2 ∅) []).
Proof.
  apply (sweep_segments_oriented
           (Examples.engine Examples.no_limits false Examples.clearance3)
           Examples.crossing_zones_board copper_layer_ids
           (indexed (m_DRCCopperZones Examples.crossing_zones_board)) 2 []).
  exact sort_segments_members.
Defined.

Lemma checkZones_no_test_segments (brd : BOARD) (tc ti c : bool) (zoneA zoneB clearance : Z)
    (layer : PCB_LAYER_ID) (refs : list SEG) :
  checkZones brd tc ti c zoneA zoneB clearance layer refs [] = invalid_result.
Proof. induction refs as [| r rest IH]; simpl; [reflexivity | exact IH]. Qed.

(** X17: a task of the zone phase for which one of the two zones has no
    segment stored on the layer finds no conflict, and nothing is reported
    for it. *)
Theorem zone_without_segments_not_reported (eng : DRC_ENGINE) (brd : BOARD)
    (tc ti cancelled : bool) (ps : poly_segments_t) (task : zone_task) (st : TRACE) :
  poly_segments_at ps (zt_zoneA task) (zt_layer task) = []
  \/ poly_segments_at ps (zt_zoneB task) (zt_layer task) = [] ->
  run_zone_task brd tc ti cancelled ps task = invalid_result
  /\ report_zone_result eng brd tc ti (run_zone_task brd tc ti cancelled ps task) st
     = (tt, st).
Proof.
  intros Hempty.
  assert (E : run_zone_task brd tc ti cancelled ps task = invalid_result).
  { unfold run_zone_task. destruct Hempty as [-> | ->].
    - reflexivity.
    - apply checkZones_no_test_segments. }
  rewrite E. split; reflexivity.
Qed.

Lemma zone_without_segments_not_reported_witness :
  run_zone_task Examples.crossing_zones_board true true false (replicate 2 ∅)
    Examples.crossing_zones_task = invalid_result
  /\ report_zone_result (Examples.engine Examples.no_limits false Examples.clearance3)
       Examples.crossing_zones_board true true
       (run_zone_task Examples.crossing_zones_board true true false (replicate 2 ∅)
          Examples.crossing_zones_task) []
     = (tt, []).
Proof.
  apply (zone_without_segments_not_reported
           (Examples.engine Examples.no_limits false Examples.clearance3)
           Examples.crossing_zones_board true true false (replicate 2 ∅)
           Examples.crossing_zones_task []).
  left. reflexivity.
Defined.

Lemma checkZones_inner_sound (brd : BOARD) (tc ti cancelled : bool) (zoneA zoneB c : Z)
    (layer : PCB_LAYER_ID) (ref : SEG) (tests : list SEG) (data : report_data) :
  checkZones_inner brd tc ti cancelled zoneA zoneB c layer ref tests = Return data ->
  data = invalid_result
  \/ exists test, In test tests
                  /\ segment_distance brd c ref test = (rd_actual data, rd_pt data)
                  /\ rd_actual data < c.
Proof.
  induction tests as [| t rest IH]; simpl; [discriminate |].
  destruct (vx (seg_B ref) <? vx (seg_A t)); [discriminate |].
  destruct (GetClearanceBetweenSegments brd _ _ _ _ _ _ _ _ _ _ _ _) as [d pt'] eqn:Hd.
  assert (Hfound : d < c ->
            exists test, In test (t :: rest)
                         /\ segment_distance brd c ref test = (d, pt') /\ d < c).
  { intros Hlt. exists t. split; [left; reflexivity |]. split; [exact Hd | exact Hlt]. }
  assert (Hrest : checkZones_inner brd tc ti cancelled zoneA zoneB c layer ref rest
                  = Return data ->
            data = invalid_result
            \/ exists test, In test (t :: rest)
                            /\ segment_distance brd c ref test = (rd_actual data, rd_pt data)
                            /\ rd_actual data < c).
  { intros H. destruct (IH H) as [-> | (test & Hin & Hdist)]; [left; reflexivity |].
    right. exists test. split; [right; exact Hin | exact Hdist]. }
  destruct (d <? c) eqn:Hlt.
  - apply Z.ltb_lt in Hlt.
    destruct ((d =? 0) && ti).
    + intros [= <-]. right. simpl. auto.
    + destruct tc.
      * intros [= <-]. right. simpl. auto.
      * destruct cancelled; [intros [= <-]; left; reflexivity | exact Hrest].
  - destruct cancelled; [intros [= <-]; left; reflexivity | exact Hrest].
Qed.

(** X18: the sweep of a zone pair gives no false alarm: whatever it returns
    is either the invalid result, for which nothing is reported, or the
    distance and the point of a reference segment and a test segment of the
    two lists that are closer than the clearance. *)
Theorem sweep_conflict_is_sound (brd : BOARD) (tc ti cancelled : bool) (zoneA zoneB c : Z)
    (layer : PCB_LAYER_ID) (refs tests : list SEG) :
  let data := checkZones brd tc ti cancelled zoneA zoneB c layer refs tests in
  data = invalid_result \/ conflict_found brd c refs tests data.
Proof.
  induction refs as [| r rest IH]; simpl; [left; reflexivity |].
  destruct (checkZones_inner brd tc ti cancelled zoneA zoneB c layer r tests) eqn:E.
  - apply checkZones_inner_sound in E as [-> | (test & Hin & Hdist & Hlt)];
      [left; reflexivity |].
    right. exists r, test. split; [left; reflexivity | auto].
  - destruct IH as [-> | (ref & test & Href & Htest & Hdist)]; [left; reflexivity |].
    right. exists ref, test. split; [right; exact Href | auto].
Qed.

(** ** Who is reported *)

Lemma Run_emits (eng : DRC_ENGINE) (brd : BOARD) (P : EVENT -> Prop) :
  (forall e, any_violation e = false -> P e) ->
  emits P (testTrackClearances eng brd (GetDRCEpsilon brd)) ->
  emits P (testPadClearances eng brd (GetDRCEpsilon brd)) ->
  emits P (testGraphicClearances eng brd (GetDRCEpsilon brd)) ->
  emits P (testZonesToZones eng brd) ->
  emits P (Run eng brd).
Proof.
  intros Hbenign Htracks Hpads Hgraphics Hzones. unfold Run.
  destruct (m_DRCMaxClearance brd <=? 0); [emits_auto; apply Hbenign; reflexivity |].
  cbv zeta.
  apply emits_bind; [| intros r; destruct r; emits_auto; apply Hbenign; reflexivity].
  repeat first
    [ apply and_then_emits; [| intros _]
    | apply run_phase_emits; [exact Hbenign | assumption]
    | unfold skip_phase; apply emits_ret
    | apply emits_bind; [solve [emits_auto] | intros ?]
    | match goal with |- emits _ (if ?c then _ else _) => destruct c end ].
Qed.

Lemma run_event_benign (brd : BOARD) (e : EVENT) : any_violation e = false -> run_event brd e.
Proof. destruct e; simpl; intros H; first [exact I | discriminate H]. Qed.

Lemma testTrackAgainstItem_run_event (eng : DRC_ENGINE) (brd : BOARD) (eps : Z)
    (track : BOARD_ITEM) (trackShape : SHAPE) (layer : PCB_LAYER_ID) (other : BOARD_ITEM) :
  emits (run_event brd) (testTrackAgainstItem eng brd eps track trackShape layer other).
Proof.
  unfold testTrackAgainstItem.
  apply emits_bind; [apply emits_get | intros st0]. cbv zeta.
  apply emits_bind.
  - unfold testTrackAgainstItem_clearance.
    destruct (negb _ && (0 <? _)); [| apply emits_ret].
    eapply emits_bind_yields
      with (Q := fun c => forall v, c = Some v ->
                          Type_ track = PCB_TRACE_T /\ Type_ other = PCB_TRACE_T).
    + destruct (KICAD_T_eqb (Type_ track) PCB_TRACE_T
                && KICAD_T_eqb (Type_ other) PCB_TRACE_T) eqn:Ht.
      * apply andb_prop in Ht as [Ht Ho]. apply KICAD_T_eqb_eq in Ht, Ho.
        eapply yields_bind with (Q1 := fun _ => True);
          [apply emits_yields; emits_auto; exact I | intros _ _].
        apply yields_ret. auto.
      * apply yields_ret. discriminate.
    + intros c Hc. destruct c as [v |]; emits_auto; simpl; eauto.
  - intros r. simpl. unfold testTrackAgainstItem_hole. emits_auto; simpl; auto.
Qed.

Lemma testItemAgainstZone_run_event (eng : DRC_ENGINE) (brd : BOARD) (eps : Z)
    (aItem aZone : BOARD_ITEM) (aLayer : PCB_LAYER_ID) :
  emits (run_event brd) (testItemAgainstZone eng brd eps aItem aZone aLayer).
Proof.
  eapply emits_weaken; [| apply testItemAgainstZone_events].
  intros e He. inversion He; simpl; exact I.
Qed.

Lemma testPadAgainstItem_run_event (eng : DRC_ENGINE) (brd : BOARD) (eps : Z)
    (pad : BOARD_ITEM) (padShape : SHAPE) (aLayer : PCB_LAYER_ID) (other : BOARD_ITEM) :
  emits (run_event brd) (testPadAgainstItem eng brd eps pad padShape aLayer other).
Proof.
  unfold testPadAgainstItem.
  apply emits_bind; [apply emits_get | intros st0].
  destruct (testPadAgainstItem_flags brd pad aLayer other _ _) as [tc th].
  unfold testPadAgainstItem_hole. emits_auto; simpl; auto.
  left. guards.
  repeat match goal with
         | H : (_ =? _) = false |- _ => apply Z.eqb_neq in H
         end.
  split; [apply KICAD_T_eqb_eq; assumption |]. auto.
Qed.

Lemma testKnockoutTextAgainstZone_run_event (eng : DRC_ENGINE) (brd : BOARD) (eps : Z)
    (aText : BOARD_ITEM) (aInheritedNet : option Z) (aZone : BOARD_ITEM) :
  isKnockoutText aText = true -> In aZone (m_DRCCopperZones brd) ->
  emits (run_event brd) (testKnockoutTextAgainstZone eng brd eps aText aInheritedNet aZone).
Proof.
  intros Hk Hz.
  eapply emits_weaken; [| apply testKnockoutTextAgainstZone_events].
  intros e He. inversion He; simpl; auto.
Qed.

(** X19: who a run reports under which kind.  TRACKS_CROSSING is reported
    between two items of type PCB_TRACE_T only; ZONES_INTERSECT between two
    copper zones of the board only; SHORTING_ITEMS between a pad and another
    pad that is the same logical pad and carries another net, both nets
    being set, or between a knockout text and a copper zone of the board. *)
Theorem Run_reports_by_kind (eng : DRC_ENGINE) (brd : BOARD) :
  emits (run_event brd) (Run eng brd).
Proof.
  apply Run_emits.
  - apply run_event_benign.
  - apply testTrackClearances_emits; [apply run_event_benign | |]; intros.
    + apply testTrackAgainstItem_run_event.
    + apply testItemAgainstZone_run_event.
  - apply testPadClearances_emits; [apply run_event_benign | |]; intros.
    + apply testPadAgainstItem_run_event.
    + apply testItemAgainstZone_run_event.
  - apply testGraphicClearances_emits; [apply run_event_benign |]. intros item _.
    apply testGraphicAgainstZone_emits; intros.
    + apply testKnockoutTextAgainstZone_run_event; assumption.
    + apply testItemAgainstZone_run_event.
  - eapply emits_weaken; [| apply zone_phase_reports_tested_pairs_aux].
    intros e He. destruct e; simpl in *; auto.
    destruct He as (HA & HB & _ & [-> | ->]); simpl; auto.
Qed.

Lemma graphic_phase_event_benign (brd : BOARD) (e : EVENT) :
  any_violation e = false -> graphic_phase_event brd e.
Proof. destruct e; simpl; intros H; first [exact I | discriminate H]. Qed.

(** X20: every violation of the graphic phase is reported for a graphic item
    of the board (a drawing or a graphic item of a footprint) that is not a
    bitmap, against a copper zone of the board, on the item's own layer, and
    that layer is a copper layer. *)
Theorem graphic_phase_reports (eng : DRC_ENGINE) (brd : BOARD) (eps : Z) :
  emits (graphic_phase_event brd) (testGraphicClearances eng brd eps).
Proof.
  apply testGraphicClearances_emits; [apply graphic_phase_event_benign |].
  intros item Hitem.
  destruct (KICAD_T_eqb (Type_ item) PCB_BITMAP_T) eqn:Hbitmap;
    [unfold testGraphicAgainstZone; rewrite Hbitmap; apply emits_ret |].
  destruct (IsCopperLayer (GetLayer item)) eqn:Hcopper;
    [| unfold testGraphicAgainstZone; rewrite Hbitmap, Hcopper; apply emits_ret].
  apply testGraphicAgainstZone_emits.
  - intros zone inherited Hzone _.
    eapply emits_weaken; [| apply testKnockoutTextAgainstZone_events].
    intros e He. inversion He; simpl; auto.
  - intros zone Hzone _.
    eapply emits_weaken; [| apply testItemAgainstZone_events].
    intros e He. inversion He; simpl; auto.
Qed.

(** ** The items and layers of the track phase and the pad phase *)

Lemma copper_layers_of_tested (brd : BOARD) (item : BOARD_ITEM) (layer : PCB_LAYER_ID) :
  In layer (copper_layers_of brd item) -> tested_layer brd item layer.
Proof.
  unfold copper_layers_of, LSET_Seq, tested_layer, LSET_test, LSET_and.
  intros Hin. apply filter_In in Hin as [_ Hbit].
  rewrite N.land_spec in Hbit. apply andb_prop in Hbit. exact Hbit.
Qed.

Section PhaseLayers.

Variable eng : DRC_ENGINE.
Variable brd : BOARD.
Variable eps : Z.
Variable P : EVENT -> Prop.
Hypothesis P_benign : forall e, any_violation e = false -> P e.

Lemma testTrackClearances_layers_emits (track : BOARD_ITEM) (layerSeq : list PCB_LAYER_ID)
    (m : track_memo) :
  (forall layer other,
     In layer layerSeq -> In other (CopperItemRTree brd track layer) ->
     emits P (testTrackAgainstItem eng brd eps track (EffectiveShape track layer) layer
                other)) ->
  (forall layer zone,
     In layer layerSeq -> In zone (m_DRCCopperZones brd) ->
     emits P (testItemAgainstZone eng brd eps track zone layer)) ->
  emits P (testTrackClearances_layers eng brd eps track layerSeq m).
Proof.
  revert m. induction layerSeq as [| layer rest IH]; intros m Hitem Hzone; simpl.
  - apply emits_ret.
  - apply emits_bind.
    + apply QueryColliding_emits. intros other s0 s1 Hother _.
      apply track_visitor_emits; [exact P_benign |].
      apply Hitem; [left; reflexivity | exact Hother].
    + intros m1. apply emits_bind.
      * apply testItemAgainstZones_emits. intros zone Hz.
        apply Hzone; [left; reflexivity | exact Hz].
      * intros _. apply IH; intros; [apply Hitem | apply Hzone]; auto; right; assumption.
Qed.

Lemma testTrackClearances_tracks_emits (tracks : list BOARD_ITEM) (ii size : Z)
    (m : track_memo) :
  (forall track layer other,
     In track tracks -> In layer (copper_layers_of brd track) ->
     In other (CopperItemRTree brd track layer) ->
     emits P (testTrackAgainstItem eng brd eps track (EffectiveShape track layer) layer
                other)) ->
  (forall track layer zone,
     In track tracks -> In layer (copper_layers_of brd track) ->
     In zone (m_DRCCopperZones brd) ->
     emits P (testItemAgainstZone eng brd eps track zone layer)) ->
  emits P (testTrackClearances_tracks eng brd eps tracks ii size m).
Proof.
  revert ii m. induction tracks as [| track rest IH]; intros ii m Hitem Hzone; simpl.
  - apply emits_ret.
  - apply emits_bind; [apply reportProgress_emits; exact P_benign | intros continue].
    destruct (negb continue); [apply emits_ret |].
    apply emits_bind.
    + apply testTrackClearances_layers_emits; intros;
        [apply Hitem | apply Hzone]; auto; left; reflexivity.
    + intros m1. apply IH; intros; [apply Hitem | apply Hzone]; auto; right; assumption.
Qed.

Lemma testPadClearances_layers_emits (pad : BOARD_ITEM) (layerSeq : list PCB_LAYER_ID)
    (cp : gmap (Z * Z) Z) :
  (forall layer other,
     In layer layerSeq -> In other (CopperItemRTree brd pad layer) ->
     emits P (testPadAgainstItem eng brd eps pad (EffectiveShape pad layer) layer other)) ->
  (forall layer zone,
     In layer layerSeq -> In zone (m_DRCCopperZones brd) ->
     emits P (testItemAgainstZone eng brd eps pad zone layer)) ->
  emits P (testPadClearances_layers eng brd eps pad layerSeq cp).
Proof.
  revert cp. induction layerSeq as [| layer rest IH]; intros cp Hitem Hzone; simpl.
  - apply emits_ret.
  - apply emits_bind.
    + apply QueryColliding_emits. intros other s0 s1 Hother _.
      unfold pad_visitor. apply emits_bind; [| intros; apply emits_ret].
      apply Hitem; [left; reflexivity | exact Hother].
    + intros cp1. apply emits_bind.
      * apply testItemAgainstZones_emits. intros zone Hz.
        apply Hzone; [left; reflexivity | exact Hz].
      * intros finished. destruct finished; [| apply emits_ret].
        apply IH; intros; [apply Hitem | apply Hzone]; auto; right; assumption.
Qed.

Lemma testPadClearances_pads_emits (pads : list BOARD_ITEM) (ii count : Z)
    (cp : gmap (Z * Z) Z) :
  (forall pad, In pad pads ->
     forall layerSeq cp', layerSeq = copper_layers_of brd pad ->
       emits P (testPadClearances_layers eng brd eps pad layerSeq cp')) ->
  emits P (testPadClearances_pads eng brd eps pads ii count cp).
Proof.
  revert ii cp. induction pads as [| pad rest IH]; intros ii cp Hpad; simpl.
  - apply emits_ret.
  - apply emits_bind; [eapply Hpad; [left; reflexivity | reflexivity] | intros r].
    destruct r as [[] | cp1]; [apply emits_ret |].
    apply emits_bind; [apply reportProgress_emits; exact P_benign | intros continue].
    destruct (negb continue); [apply emits_ret |].
    apply IH. intros p Hp. apply Hpad. right; exact Hp.
Qed.

Lemma testPadClearances_footprints_emits (footprints : list FOOTPRINT) (ii count : Z)
    (cp : gmap (Z * Z) Z) :
  (forall pad, In pad (flat_map Pads footprints) ->
     forall layerSeq cp', layerSeq = copper_layers_of brd pad ->
       emits P (testPadClearances_layers eng brd eps pad layerSeq cp')) ->
  emits P (testPadClearances_footprints eng brd eps footprints ii count cp).
Proof.
  revert ii cp. induction footprints as [| fp rest IH]; intros ii cp Hpad; simpl.
  - apply emits_ret.
  - apply emits_bind.
    + apply testPadClearances_pads_emits. intros p Hp. apply Hpad.
      apply in_or_app. left; exact Hp.
    + intros r. destruct r as [[] | [ii' cp1]]; [apply emits_ret |].
      apply emits_bind; [apply emits_get | intros st].
      destruct (IsCancelled eng st); [apply emits_ret |].
      apply IH. intros p Hp. apply Hpad. apply in_or_app. right; exact Hp.
Qed.

End PhaseLayers.

Lemma track_phase_event_benign (brd : BOARD) (e : EVENT) :
  any_violation e = false -> track_phase_event brd e.
Proof. destruct e; simpl; intros H; first [exact I | discriminate H]. Qed.

Lemma pad_phase_event_benign (brd : BOARD) (e : EVENT) :
  any_violation e = false -> pad_phase_event brd e.
Proof. destruct e; simpl; intros H; first [exact I | discriminate H]. Qed.

(** X21: every violation of the track phase involves a track of the board,
    on a layer of that track that is a copper layer of the board.  The other
    item is a candidate the copper R-tree gave for the track on that layer,
    or a copper zone; the track is the main item, except in a hole clearance
    violation, where either of the two may be. *)
Theorem track_phase_reports (eng : DRC_ENGINE) (brd : BOARD) (eps : Z) :
  emits (track_phase_event brd) (testTrackClearances eng brd eps).
Proof.
  unfold testTrackClearances.
  apply emits_bind; [apply emits_emit; exact I | intros _].
  apply testTrackClearances_tracks_emits; [apply track_phase_event_benign | |].
  - intros track layer other Ht Hl Ho. apply copper_layers_of_tested in Hl as [Hl1 Hl2].
    eapply emits_weaken; [| apply testTrackAgainstItem_events].
    intros e He. inversion He; subst; simpl; try exact I;
      try match goal with
          | H : _ /\ _ \/ _ /\ _ |- _ => destruct H as [[-> ->] | [-> ->]]
          end;
      exists track, other; repeat split; auto.
  - intros track layer zone Ht Hl Hz. apply copper_layers_of_tested in Hl as [Hl1 Hl2].
    eapply emits_weaken; [| apply testItemAgainstZone_events].
    intros e He. inversion He; subst; simpl; try exact I;
      exists track, zone; repeat split; auto.
Qed.

(** X22: every violation of the pad phase has a pad of the board as its main
    item and is reported on a layer of that pad that is a copper layer of the
    board; the other item is a candidate the copper R-tree gave for the pad
    on that layer, or a copper zone. *)
Theorem pad_phase_reports (eng : DRC_ENGINE) (brd : BOARD) (eps : Z) :
  emits (pad_phase_event brd) (testPadClearances eng brd eps).
Proof.
  unfold testPadClearances.
  apply emits_bind; [apply emits_emit; exact I | intros _].
  apply testPadClearances_footprints_emits; [apply pad_phase_event_benign |].
  intros pad Hpad layerSeq cp' ->.
  apply testPadClearances_layers_emits.
  - intros layer other Hl Ho. apply copper_layers_of_tested in Hl.
    eapply emits_weaken; [| apply testPadAgainstItem_events].
    intros e He. inversion He; subst; simpl; auto.
  - intros layer zone Hl Hz. apply copper_layers_of_tested in Hl.
    eapply emits_weaken; [| apply testItemAgainstZone_events].
    intros e He. inversion He; subst; simpl; auto.
Qed.

(** ** Pads that are not flashed on a layer *)

Lemma testPadAgainstItem_flags_unflashed (brd : BOARD) (pad : BOARD_ITEM)
    (aLayer : PCB_LAYER_ID) (other : BOARD_ITEM) (tc th : bool) :
  PAD_ATTRIB_eqb (GetAttribute pad) NPTH && negb (FlashLayer pad aLayer) = true
  \/ KICAD_T_eqb (Type_ other) PCB_PAD_T
     && PAD_ATTRIB_eqb (GetAttribute other) NPTH && negb (FlashLayer other aLayer) = true ->
  fst (testPadAgainstItem_flags brd pad aLayer other tc th) = false.
Proof.
  unfold testPadAgainstItem_flags.
  intros [H | H]; rewrite H; case_ifs; reflexivity.
Qed.

Lemma testPadAgainstItem_without_clearance (eng : DRC_ENGINE) (brd : BOARD) (eps : Z)
    (pad : BOARD_ITEM) (padShape : SHAPE) (aLayer : PCB_LAYER_ID) (other : BOARD_ITEM) :
  (forall tc th, fst (testPadAgainstItem_flags brd pad aLayer other tc th) = false) ->
  emits no_clearance_test (testPadAgainstItem eng brd eps pad padShape aLayer other).
Proof.
  intros Hflags. unfold testPadAgainstItem.
  apply emits_bind; [apply emits_get | intros st0].
  specialize (Hflags (negb (IsErrorLimitExceeded eng st0 DRCE_CLEARANCE))
                     (negb (IsErrorLimitExceeded eng st0 DRCE_HOLE_CLEARANCE))).
  destruct (testPadAgainstItem_flags brd pad aLayer other _ _) as [tc th].
  simpl in Hflags. subst tc.
  unfold testPadAgainstItem_hole, no_clearance_test. emits_auto; repeat split; reflexivity.
Qed.

(** X23: a pad that is not flashed on a layer is exempt from the clearance
    tests of that layer.  If it is an NPTH pad, no clearance test is made and
    no clearance violation is reported for it by the track test or by the pad
    test, whichever side of the pad test it is on; if it has no plated hole,
    none is made against a zone. *)
Theorem unflashed_pad_exempt_from_clearance (eng : DRC_ENGINE) (brd : BOARD) (eps : Z)
    (p x : BOARD_ITEM) (shape : SHAPE) (layer : PCB_LAYER_ID) :
  Type_ p = PCB_PAD_T ->
  FlashLayer p layer = false ->
  (GetAttribute p = NPTH ->
   emits no_clearance_test (testTrackAgainstItem eng brd eps x shape layer p)
   /\ emits no_clearance_test (testPadAgainstItem eng brd eps p shape layer x)
   /\ emits no_clearance_test (testPadAgainstItem eng brd eps x shape layer p))
  /\ (HasHole p && PAD_ATTRIB_eqb (GetAttribute p) PTH = false ->
      emits no_clearance_test (testItemAgainstZone eng brd eps p x layer)).
Proof.
  intros Hpad Hflash. split.
  - intros Hnpth. repeat split.
    + unfold testTrackAgainstItem.
      apply emits_bind; [apply emits_get | intros st0].
      rewrite Hpad, Hnpth, Hflash. simpl.
      unfold testTrackAgainstItem_clearance. simpl.
      unfold testTrackAgainstItem_hole, no_clearance_test.
      emits_auto; repeat split; auto using holeShapeOf_not_clearance_test.
    + apply testPadAgainstItem_without_clearance. intros tc th.
      apply testPadAgainstItem_flags_unflashed. left.
      rewrite Hnpth, Hflash. reflexivity.
    + apply testPadAgainstItem_without_clearance. intros tc th.
      apply testPadAgainstItem_flags_unflashed. right.
      rewrite Hpad, Hnpth, Hflash. reflexivity.
  - intros Hplated. unfold testItemAgainstZone.
    do 3 (match goal with |- emits _ (if ?c then _ else _) => destruct c end;
          [apply emits_ret |]).
    apply emits_bind; [apply emits_get | intros st0].
    rewrite Hpad, Hflash, Hplated. simpl.
    unfold no_clearance_test. emits_auto; hole_shapes; repeat split; reflexivity.
Qed.

Lemma unflashed_pad_exempt_from_clearance_witness :
  let eng := Examples.engine Examples.no_limits false Examples.clearance5 in
  let brd := Examples.same_net_board in
  let track_test p := testTrackAgainstItem eng brd 0 Examples.trackS
                        (EffectiveShape Examples.trackS F_Cu) F_Cu p in
  let pad_test p := testPadAgainstItem eng brd 0 p (EffectiveShape p F_Cu) F_Cu Examples.padO in
  let other_pad_test p := testPadAgainstItem eng brd 0 Examples.padO
                            (EffectiveShape Examples.padO F_Cu) F_Cu p in
  let zone_test p := testItemAgainstZone eng brd 0 p Examples.zoneS F_Cu in
  (emits no_clearance_test (track_test Examples.npthPad)
   /\ emits no_clearance_test (pad_test Examples.npthPad)
   /\ emits no_clearance_test (other_pad_test Examples.npthPad)
   /\ emits no_clearance_test (zone_test Examples.npthPad))
  /\ reported_codes (snd (track_test Examples.npthPad [])) = [DRCE_HOLE_CLEARANCE]
  /\ reported_codes (snd (track_test Examples.npthPadFlashed [])) = [DRCE_CLEARANCE]
  /\ reported_codes (snd (pad_test Examples.npthPad [])) = [DRCE_HOLE_CLEARANCE]
  /\ reported_codes (snd (pad_test Examples.npthPadFlashed [])) = [DRCE_CLEARANCE]
  /\ reported_codes (snd (other_pad_test Examples.npthPad [])) = [DRCE_HOLE_CLEARANCE]
  /\ reported_codes (snd (other_pad_test Examples.npthPadFlashed [])) = [DRCE_CLEARANCE]
  /\ reported_codes (snd (zone_test Examples.npthPad [])) = [DRCE_HOLE_CLEARANCE]
  /\ reported_codes (snd (zone_test Examples.npthPadFlashed []))
     = [DRCE_CLEARANCE; DRCE_HOLE_CLEARANCE].
Proof.
  split; [| repeat split; vm_compute; reflexivity].
  pose (eng := Examples.engine Examples.no_limits false Examples.clearance5).
  split; [| split; [| split]].
  - apply (proj1 (unflashed_pad_exempt_from_clearance eng Examples.same_net_board 0
                    Examples.npthPad Examples.trackS (EffectiveShape Examples.trackS F_Cu) F_Cu
                    eq_refl eq_refl) eq_refl).
  - apply (proj1 (unflashed_pad_exempt_from_clearance eng Examples.same_net_board 0
                    Examples.npthPad Examples.padO (EffectiveShape Examples.npthPad F_Cu) F_Cu
                    eq_refl eq_refl) eq_refl).
  - apply (proj1 (unflashed_pad_exempt_from_clearance eng Examples.same_net_board 0
                    Examples.npthPad Examples.padO (EffectiveShape Examples.padO F_Cu) F_Cu
                    eq_refl eq_refl) eq_refl).
  - apply (proj2 (unflashed_pad_exempt_from_clearance eng Examples.same_net_board 0
                    Examples.npthPad Examples.zoneS (EffectiveShape Examples.npthPad F_Cu) F_Cu
                    eq_refl eq_refl) eq_refl).
Defined.

(** ** Cancellation *)

(** X24: on a board with clearance constraints, a run during which the
    engine is cancelled returns [false], whether it is stopped by a phase
    report or runs to its end. *)
Theorem Run_cancelled_returns_false (eng : DRC_ENGINE) (brd : BOARD) (st : TRACE) :
  0 < m_DRCMaxClearance brd -> cancelled eng -> fst (Run eng brd st) = false.
Proof.
  intros Hmax Hcancel.
  destruct (Run_ends eng brd st Hmax) as [[Hfalse _] | (st0 & _ & Hresult)].
  - exact Hfalse.
  - rewrite Hresult, Hcancel. reflexivity.
Qed.

Lemma Run_cancelled_returns_false_witness :
  fst (Run (Examples.cancelled_engine Examples.clearance5) Examples.crossing_board []) = false.
Proof.
  apply (Run_cancelled_returns_false (Examples.cancelled_engine Examples.clearance5)
           Examples.crossing_board []).
  - reflexivity.
  - intros st. reflexivity.
Defined.

(** X25: while the engine is cancelled the zone phase reports nothing: the
    futures are dropped without their results being looked at. *)
Theorem cancelled_zone_phase_reports_nothing (eng : DRC_ENGINE) (brd : BOARD) :
  cancelled eng -> emits (fun e => any_violation e = false) (testZonesToZones eng brd).
Proof.
  intros Hcancel. unfold testZonesToZones.
  set (P := fun e : EVENT => any_violation e = false).
  apply emits_bind; [apply emits_get | intros st0]. cbv zeta.
  eapply emits_bind_yields.
  - apply submit_layers_yields with (T := fun _ => True).
    + intros e He. exact He.
    + intros layer ia zoneA ia2 zoneB _ _ _ _ st t _. exact I.
    + apply indexed_lookup.
    + constructor.
  - intros r _. destruct r as [[] | [ps fs]]; [apply emits_ret |].
    generalize false.
    induction fs as [| task rest IH]; intros c; simpl; [apply emits_ret |].
    apply emits_bind; [apply emits_get | intros st].
    rewrite Hcancel. apply IH.
Qed.

Lemma cancelled_zone_phase_reports_nothing_witness :
  emits (fun e => any_violation e = false)
        (testZonesToZones (Examples.cancelled_engine Examples.clearance6)
           Examples.overlapping_zones_board).
Proof.
  apply (cancelled_zone_phase_reports_nothing
           (Examples.cancelled_engine Examples.clearance6) Examples.overlapping_zones_board).
  intros st. reflexivity.
Defined.

(** ** Net-tie groups *)

Lemma testPadAgainstItem_flags_net_tie (brd : BOARD) (pad : BOARD_ITEM)
    (aLayer : PCB_LAYER_ID) (other : BOARD_ITEM) (tc th : bool) :
  GetParent other = GetParent pad ->
  Type_ other = PCB_PAD_T /\ 0 <= net_tie_group brd pad
    /\ net_tie_group brd pad = net_tie_group brd other
  \/ Type_ other = PCB_FP_SHAPE_T /\ 0 <= net_tie_group brd pad ->
  fst (testPadAgainstItem_flags brd pad aLayer other tc th) = false.
Proof.
  unfold testPadAgainstItem_flags, net_tie_group. intros Hparent Hgroup.
  rewrite Hparent in *. rewrite Z.eqb_refl.
  destruct Hgroup as [(Htype & Hpos & Hsame) | (Htype & Hpos)]; rewrite Htype; simpl.
  - apply Z.leb_le in Hpos. rewrite Hpos, <- Hsame, Z.eqb_refl. simpl.
    case_ifs; reflexivity.
  - apply Z.leb_le in Hpos. rewrite Hpos. case_ifs; reflexivity.
Qed.

(** X26: within one footprint, a pad makes no clearance test against a pad
    of its own net-tie group, nor, when it is in a net-tie group, against a
    graphic shape of the footprint.  The group of a pad is read with
    [operator[]] from the map of the footprint, so a pad whose number the map
    does not hold counts as a pad of group 0. *)
Theorem net_tie_group_exempt_from_clearance (eng : DRC_ENGINE) (brd : BOARD) (eps : Z)
    (pad : BOARD_ITEM) (padShape : SHAPE) (aLayer : PCB_LAYER_ID) (other : BOARD_ITEM) :
  GetParent other = GetParent pad ->
  Type_ other = PCB_PAD_T /\ 0 <= net_tie_group brd pad
    /\ net_tie_group brd pad = net_tie_group brd other
  \/ Type_ other = PCB_FP_SHAPE_T /\ 0 <= net_tie_group brd pad ->
  emits no_clearance_test (testPadAgainstItem eng brd eps pad padShape aLayer other).
Proof.
  intros Hparent Hgroup.
  apply testPadAgainstItem_without_clearance. intros tc th.
  apply testPadAgainstItem_flags_net_tie; assumption.
Qed.

Lemma net_tie_group_exempt_from_clearance_witness :
  MapPadNumbersToNetTieGroups Examples.pads_board (GetParent Examples.smdPad)
    !! GetNumber Examples.smdPad = None
  /\ emits no_clearance_test
       (testPadAgainstItem (Examples.engine Examples.no_limits false Examples.clearance5)
          Examples.pads_board 0 Examples.smdPad (EffectiveShape Examples.smdPad F_Cu) F_Cu
          Examples.smdPad2).
Proof.
  split; [reflexivity |].
  apply (net_tie_group_exempt_from_clearance
           (Examples.engine Examples.no_limits false Examples.clearance5)
           Examples.pads_board 0 Examples.smdPad (EffectiveShape Examples.smdPad F_Cu) F_Cu
           Examples.smdPad2).
  - reflexivity.
  - left. split; [reflexivity |]. split; [discriminate | reflexivity].
Defined.

(** ** Zones out of reach *)

(** X27: an item is reported against a zone, by [testItemAgainstZone] on a
    layer and by [testKnockoutTextAgainstZone] on the layer of the text, only
    when the zone is on that layer, has an R-tree of its fill, and its
    bounding box meets the bounding box of the item inflated by the largest
    clearance of the board. *)
Theorem zone_reported_only_in_reach (eng : DRC_ENGINE) (brd : BOARD) (eps : Z)
    (aItem aZone : BOARD_ITEM) (aLayer : PCB_LAYER_ID) (aInheritedNet : option Z) :
  emits (fun e => any_violation e = true -> zone_in_reach brd aItem aZone aLayer)
        (testItemAgainstZone eng brd eps aItem aZone aLayer)
  /\ emits (fun e => any_violation e = true ->
                     zone_in_reach brd aItem aZone (GetLayer aItem))
           (testKnockoutTextAgainstZone eng brd eps aItem aInheritedNet aZone).
Proof.
  unfold zone_in_reach. split.
  - unfold testItemAgainstZone.
    emits_auto; simpl; try discriminate; intros _; guards; auto.
  - unfold testKnockoutTextAgainstZone.
    emits_auto; simpl; try discriminate; intros _; guards; auto.
Qed.

(** ** The layer of a base-class item *)

Lemma LSET_test_of (l x : N) : LSET_test (LSET_of l) x = (l =? x)%N.
Proof.
  unfold LSET_test, LSET_of, LSET_set, LSET_empty.
  rewrite N.setbit_eqb, N.bits_0, orb_false_r. reflexivity.
Qed.

Lemma filter_eqb_NoDup (l : N) (xs : list N) :
  List.NoDup xs -> In l xs -> List.filter (fun x => (l =? x)%N) xs = [l].
Proof.
  induction 1 as [| x xs Hfresh Hnd IH]; simpl; [contradiction |].
  intros [-> | Hin].
  - rewrite N.eqb_refl. f_equal. apply filter_none.
    apply List.Forall_forall. intros y Hy. apply N.eqb_neq. intros <-. contradiction.
  - destruct (N.eqb_spec l x) as [-> | _]; [contradiction | apply IH; exact Hin].
Qed.

Lemma LSET_Seq_of (l : N) : (l < N.of_nat PCB_LAYER_ID_COUNT)%N -> LSET_Seq (LSET_of l) = [l].
Proof.
  intros Hlt. unfold LSET_Seq.
  rewrite (filter_ext _ (fun x => (l =? x)%N)) by (intros x; apply LSET_test_of).
  apply filter_eqb_NoDup.
  - apply NoDup_map_NoDup_ForallPairs; [| apply seq_NoDup].
    intros x y _ _. apply Nat2N.inj.
  - apply in_map_iff. exists (N.to_nat l). split; [apply N2Nat.id |].
    apply in_seq. lia.
Qed.

(** X28: for an item that uses the layer methods of the base class,
    [IsOnLayer] and [GetLayerSet] agree on every layer: the item is on a
    layer exactly when its layer set holds it.  The layer set of an item
    whose layer is undefined is empty. *)
Theorem base_item_layer_set (i : Base.BOARD_ITEM_BASE) (aLayer : N) :
  Base.m_layer i = Base.UNDEFINED_LAYER \/ 0 <= Base.m_layer i ->
  LSET_test (Base.GetLayerSet i) aLayer = Base.IsOnLayer i (Z.of_N aLayer)
  /\ (Base.m_layer i = Base.UNDEFINED_LAYER -> Base.GetLayerSet i = LSET_empty).
Proof.
  intros Hlayer. unfold Base.GetLayerSet, Base.IsOnLayer, Base.UNDEFINED_LAYER in *. split.
  - destruct (Z.eqb_spec (Base.m_layer i) (-1)) as [E | Hne].
    + rewrite E. unfold LSET_test, LSET_empty. rewrite N.bits_0.
      symmetry. apply Z.eqb_neq. lia.
    + rewrite LSET_test_of.
      destruct (N.eqb_spec (Z.to_N (Base.m_layer i)) aLayer) as [<- | Hd];
        symmetry; [apply Z.eqb_eq | apply Z.eqb_neq]; lia.
  - intros ->. reflexivity.
Qed.

Lemma base_item_layer_set_witness :
  LSET_test (Base.GetLayerSet {| Base.m_layer := 31; Base.m_isKnockout := false;
                                 Base.m_isLocked := false; Base.m_group := None |}) B_Cu
  = Base.IsOnLayer {| Base.m_layer := 31; Base.m_isKnockout := false;
                      Base.m_isLocked := false; Base.m_group := None |} (Z.of_N B_Cu).
Proof.
  refine (proj1 (base_item_layer_set
                   {| Base.m_layer := 31; Base.m_isKnockout := false;
                      Base.m_isLocked := false; Base.m_group := None |} B_Cu _)).
  right. simpl. lia.
Defined.

(** X29: [SetLayerSet] of the base class.  Setting the layer set that
    [GetLayerSet] gives leaves an item on a real layer as it is; a set that
    does not hold exactly one layer changes nothing. *)
Theorem base_item_SetLayerSet (i : Base.BOARD_ITEM_BASE) (aLayers : LSET) :
  (Base.is_layer (Base.m_layer i) -> Base.SetLayerSet (Base.GetLayerSet i) i = i)
  /\ (Base.LSET_count aLayers <> 1%nat -> Base.SetLayerSet aLayers i = i).
Proof.
  unfold Base.SetLayerSet, Base.LSET_count. split.
  - unfold Base.is_layer, Base.GetLayerSet, Base.UNDEFINED_LAYER. intros Hl.
    destruct (Z.eqb_spec (Base.m_layer i) (-1)) as [E | _]; [lia |].
    rewrite LSET_Seq_of by lia. simpl.
    unfold Base.SetLayer. rewrite Z2N.id by lia. destruct i; reflexivity.
  - intros Hcount. apply Nat.eqb_neq in Hcount. rewrite Hcount. reflexivity.
Qed.

(** ** Hole tests of the track path *)

Lemma testTrackAgainstItem_tests_hole_of_other (eng : DRC_ENGINE) (brd : BOARD) (eps : Z)
    (layer : PCB_LAYER_ID) (a b : BOARD_ITEM) (a_shape : SHAPE) (st : TRACE) :
   IsErrorLimitExceeded eng st DRCE_HOLE_CLEARANCE = false ->
   is_PCB_TRACK (Type_ a) = true -> HasHole b = true ->
   is_IGNORE (GetSeverity (EvalRules eng HOLE_CLEARANCE_CONSTRAINT b a layer)) = false ->
   exists ev,
     snd (testTrackAgainstItem eng brd eps a a_shape layer b st) = st ++ ev
     /\ (In (hole_test eng eps layer a a_shape b) ev
         \/ fst (testTrackAgainstItem eng brd eps a a_shape layer b st) = false
            /\ ended_by_clearance eng ev).
Proof.
  intros Hlimit Htrack Hhole Hsev.
  unfold testTrackAgainstItem, testTrackAgainstItem_clearance, testTrackAgainstItem_holes,
    testTrackAgainstItem_hole, hole_test, ended_by_clearance.
  unfold bind at 1. unfold get_trace at 1. cbv beta iota.
  rewrite Hlimit, Htrack, Hhole, Hsev, orb_true_r. simpl.
  run_direct.
  all: try (exfalso; rewrite ?Hlimit, ?Htrack, ?Hhole, ?Hsev in *; simpl in *; congruence).
  all: try (left; simpl; auto 10; fail).
  all: right; split; [reflexivity |]; simpl;
    first [ left; reflexivity
          | right; split; [apply negb_true_iff; assumption | reflexivity] ].
Qed.

Lemma testTrackAgainstItem_tests_hole_of_track (eng : DRC_ENGINE) (brd : BOARD) (eps : Z)
    (layer : PCB_LAYER_ID) (a b : BOARD_ITEM) (a_shape : SHAPE) (st : TRACE) :
   IsErrorLimitExceeded eng st DRCE_HOLE_CLEARANCE = false ->
   is_PCB_TRACK (Type_ b) = true -> HasHole a = true ->
   is_IGNORE (GetSeverity (EvalRules eng HOLE_CLEARANCE_CONSTRAINT a b layer)) = false ->
   exists ev,
     snd (testTrackAgainstItem eng brd eps a a_shape layer b st) = st ++ ev
     /\ (In (hole_test eng eps layer b (EffectiveShape b layer) a) ev
         \/ fst (testTrackAgainstItem eng brd eps a a_shape layer b st) = false
            /\ (ended_by_clearance eng ev
                \/ ended_by_hole eng eps layer a a_shape b ev)).
Proof.
  intros Hlimit Htrack Hhole Hsev.
  unfold testTrackAgainstItem, testTrackAgainstItem_clearance, testTrackAgainstItem_holes,
    testTrackAgainstItem_hole, hole_test, ended_by_clearance, ended_by_hole, hole_test.
  unfold bind at 1. unfold get_trace at 1. cbv beta iota.
  rewrite Hlimit, Htrack, Hhole, Hsev, orb_true_l. simpl.
  run_direct.
  all: try (exfalso; rewrite ?Hlimit, ?Htrack, ?Hhole, ?Hsev in *; simpl in *; congruence).
  all: try (left; simpl; auto 10; fail).
  all: right; split; [reflexivity |]; simpl.
  all: try (left; first [ left; reflexivity
          | right; split; [apply negb_true_iff; assumption | reflexivity] ]; fail).
  all: right; split; [auto 10 | reflexivity].
Qed.

(** C2 (amended): in the track-vs-item path the hole test is made for every
    resolved clearance, 0 included.  While the HOLE_CLEARANCE error limit is
    not reached, [testTrackAgainstItem] tests the solid shape of the track
    against the hole of the other item whenever that item has a hole and the
    HOLE_CLEARANCE severity of the pair is not IGNORE, within
    max(0, clearance - epsilon), unless the clearance test of the pair has
    ended the call before (a crossing, or a clearance violation while not all
    track errors are reported).  It tests the solid shape of the other item,
    when that is a track too, against the hole of the track, unless the call
    has ended before (as above, or with the hole clearance violation of the
    first test).  In the pad-vs-item and item-vs-zone paths no hole test is
    made when the resolved hole clearance is not positive. *)
Theorem hole_tests_at_zero_clearance (eng : DRC_ENGINE) (brd : BOARD) (eps : Z)
    (layer : PCB_LAYER_ID) (a b : BOARD_ITEM) (a_shape : SHAPE) (st : TRACE) :
  (IsErrorLimitExceeded eng st DRCE_HOLE_CLEARANCE = false ->
   is_PCB_TRACK (Type_ a) = true -> HasHole b = true ->
   is_IGNORE (GetSeverity (EvalRules eng HOLE_CLEARANCE_CONSTRAINT b a layer)) = false ->
   exists ev,
     snd (testTrackAgainstItem eng brd eps a a_shape layer b st) = st ++ ev
     /\ (In (hole_test eng eps layer a a_shape b) ev
         \/ fst (testTrackAgainstItem eng brd eps a a_shape layer b st) = false
            /\ ended_by_clearance eng ev))
  /\ (IsErrorLimitExceeded eng st DRCE_HOLE_CLEARANCE = false ->
      is_PCB_TRACK (Type_ b) = true -> HasHole a = true ->
      is_IGNORE (GetSeverity (EvalRules eng HOLE_CLEARANCE_CONSTRAINT a b layer)) = false ->
      exists ev,
        snd (testTrackAgainstItem eng brd eps a a_shape layer b st) = st ++ ev
        /\ (In (hole_test eng eps layer b (EffectiveShape b layer) a) ev
            \/ fst (testTrackAgainstItem eng brd eps a a_shape layer b st) = false
               /\ (ended_by_clearance eng ev
                   \/ ended_by_hole eng eps layer a a_shape b ev)))
  /\ (GetValue_Min (EvalRules eng HOLE_CLEARANCE_CONSTRAINT a b layer) <= 0 ->
      emits (fun e => is_hole_test e = false)
            (testPadAgainstItem eng brd eps a a_shape layer b)
      /\ emits (fun e => is_hole_test e = false)
               (testItemAgainstZone eng brd eps a b layer)).
Proof.
  split; [| split].
  - apply testTrackAgainstItem_tests_hole_of_other.
  - apply testTrackAgainstItem_tests_hole_of_track.
  - intros Hle. split.
    + apply testPadAgainstItem_no_hole_test; exact Hle.
    + apply testItemAgainstZone_no_hole_test; exact Hle.
Qed.

Lemma hole_tests_at_zero_clearance_witness :
  let eng := Examples.engine Examples.no_limits false Examples.hole_clearance0 in
  let track_test a b := testTrackAgainstItem eng Examples.crossing_board 0 a
                          (EffectiveShape a F_Cu) F_Cu b in
  GetValue_Min (EvalRules eng HOLE_CLEARANCE_CONSTRAINT Examples.viaA Examples.trackA F_Cu) = 0
  /\ (exists ev,
        snd (track_test Examples.trackA Examples.viaA []) = [] ++ ev
        /\ In (hole_test eng 0 F_Cu Examples.trackA (EffectiveShape Examples.trackA F_Cu)
                         Examples.viaA) ev)
  /\ (exists ev,
        snd (track_test Examples.viaA Examples.trackA []) = [] ++ ev
        /\ In (hole_test eng 0 F_Cu Examples.trackA (EffectiveShape Examples.trackA F_Cu)
                         Examples.viaA) ev)
  /\ emits (fun e => is_hole_test e = false)
           (testPadAgainstItem eng Examples.pads_board 0 Examples.padA
              (EffectiveShape Examples.padA F_Cu) F_Cu Examples.padD)
  /\ List.map is_hole_test (snd (track_test Examples.trackA Examples.viaA [])) = [true; false]
  /\ reported_codes (snd (track_test Examples.trackA Examples.viaA []))
     = [DRCE_HOLE_CLEARANCE].
Proof.
  pose (eng := Examples.engine Examples.no_limits false Examples.hole_clearance0).
  split; [reflexivity |].
  split; [| split; [| split; [| split; vm_compute; reflexivity]]].
  - destruct (proj1 (hole_tests_at_zero_clearance eng Examples.crossing_board 0 F_Cu
                       Examples.trackA Examples.viaA (EffectiveShape Examples.trackA F_Cu) [])
                eq_refl eq_refl eq_refl eq_refl) as (ev & Hev & [Hin | [Hfalse Hend]]).
    + exists ev. split; assumption.
    + exfalso. simpl in Hev. subst ev.
      destruct Hend as [H | [_ H]]; revert H; vm_compute; intros H; discriminate H.
  - destruct (proj1 (proj2 (hole_tests_at_zero_clearance eng Examples.crossing_board 0 F_Cu
                              Examples.viaA Examples.trackA
                              (EffectiveShape Examples.viaA F_Cu) []))
                eq_refl eq_refl eq_refl eq_refl) as (ev & Hev & [Hin | [Hfalse Hend]]).
    + exists ev. split; assumption.
    + exfalso. simpl in Hev. subst ev.
      destruct Hend as [[H | [_ H]] | [H _]]; revert H; vm_compute; intros H;
        [discriminate H | discriminate H |].
      destruct H as [H | [H | []]]; discriminate H.
  - apply (proj2 (proj2 (hole_tests_at_zero_clearance eng Examples.pads_board 0 F_Cu
                           Examples.padA Examples.padD
                           (EffectiveShape Examples.padA F_Cu) []))).
    vm_compute. discriminate.
Defined.

(** ** Zones whose boundaries cross *)

















Lemma returns_and {A} (Q1 Q2 : A -> Prop) (m : DRC A) :
  returns Q1 m -> returns Q2 m -> returns (fun a => Q1 a /\ Q2 a) m.
Proof. intros H1 H2 st. split; [apply H1 | apply H2]. Qed.



Section CrossingZones.

Variable eng : DRC_ENGINE.
Variable brd : BOARD.
Variables ia ib : nat.
Variables zoneA zoneB : BOARD_ITEM.
Variable layer : PCB_LAYER_ID.

Hypothesis go_on : forall st count size delta, ReportProgress eng st count size delta = true.
Hypothesis at_ia : m_DRCCopperZones brd !! ia = Some zoneA.
Hypothesis at_ib : m_DRCCopperZones brd !! ib = Some zoneB.
Hypothesis in_order : (ia < ib)%nat.
Hypothesis tested : zone_pair_tested eng brd zoneA zoneB layer.






End CrossingZones.






